(** * Hack-2025 fact-checking scrapper: veracity scoring

A shallow embedding of [Scrapper/scrapper_logic/trusted_sources.py],
[Scrapper/scrapper_logic/article_analyzer.py] and
[Scrapper/scrapper_logic/scraper.py], with the properties of the scoring
pipeline and of the scrapers stated and proved over it.

Conventions of the embedding.
- A Python [str] is a [string]: a sequence of code points below 256.
- A Python [float] is an IEEE 754 double (module [Float]). A finite one
  is the rational it denotes; every arithmetic operation rounds its exact
  result to the nearest double, ties to even, and a literal of the source
  ([0.2], [0.3], [0.4], [0.7]) is the double nearest to the decimal
  written. The two zeros are identified: they compare equal.
- The parsed configuration file is a JSON value (module [Json]) with
  Python's [in] and subscript on it, and their exceptions.
- A raised exception is the [Raise] branch of [result].
- [difflib.SequenceMatcher], which the source calls, is transcribed from
  the standard library (module [Difflib]); NLTK, spaCy and scikit-learn
  are records of functions the pipeline is parametric in. *)

From Stdlib Require Import QArith Qminmax Qround Qabs Qpower Lqa.
From Stdlib Require Import Permutation Sorted Ascii String.
From stdpp Require Import gmap strings list pretty.

Local Open Scope nat_scope.

(** ** Exceptions *)

Inductive exn : Set :=
| ZeroDivisionError
| ValueError
| IndexError
| KeyError
| TypeError
| OverflowError
| UnicodeDecodeError
| PermissionError
| IsADirectoryError
| RecursionError.

Inductive result (A : Type) : Type :=
| Ok (x : A)
| Raise (e : exn).
Arguments Ok {A} x.
Arguments Raise {A} e.

#[global] Instance result_ret : MRet result := fun _ x => Ok x.

#[global] Instance result_bind : MBind result := fun _ _ k r =>
  match r with
  | Ok x => k x
  | Raise e => Raise e
  end.

(** ** Floats

A double has 53 significant bits; below [2^-1022] the doubles are the
multiples of [2^-1074]. [round q] is the double nearest to [q] when that
is below [2^1024] in magnitude. *)

Module Float.
Local Open Scope Q_scope.

(** Rounding to the nearest integer, a tie to the even one. *)
Definition rne (q : Q) : Z :=
  let f := Qfloor q in
  match Qcompare (q - inject_Z f) (1 # 2) with
  | Lt => f
  | Gt => (f + 1)%Z
  | Eq => if Z.even f then f else (f + 1)%Z
  end.

(** The binary exponent of a positive rational: [2^e <= q < 2^(e+1)]. *)
Definition ilog2 (q : Q) : Z :=
  let e := (Z.log2 (Qnum q) - Z.log2 (Zpos (Qden q)))%Z in
  if Qle_bool (2 ^ e) q then e else (e - 1)%Z.

(** The exponent of the spacing of the doubles at magnitude [a]. *)
Definition ulp_exponent (a : Q) : Z := Z.max (ilog2 a - 52) (-1074).

Definition round_abs (a : Q) : Q :=
  let e := ulp_exponent a in
  inject_Z (rne (a * 2 ^ (- e))) * 2 ^ e.

(** The result is in lowest terms, so that equal doubles are equal
    terms. *)
Definition round (q : Q) : Q :=
  let q := Qred q in
  let r := round_abs (Qabs q) in
  Qred (if Qle_bool 0 q then r else - r).

(** A float literal of the source. *)
Definition literal (q : Q) : Q := round q.

(** [float(n)] of a length or a count, and the arithmetic of finite
    floats whose results stay finite: scores, and lengths. A Python
    sequence has fewer than [2^63] elements, far below the [2^1024] at
    which [float(n)] raises [OverflowError]. *)
Definition of_nat (n : nat) : Q := round (inject_Z (Z.of_nat n)).
Definition add (x y : Q) : Q := round (x + y).
Definition mul (x y : Q) : Q := round (x * y).
Definition div (x y : Q) : Q := round (x / y).

(** A Python float: a finite double, an infinity or a NaN. *)
Inductive float : Type :=
| Finite (q : Q)
| Infinity (negative : bool)
| NaN.

(** Whether the double nearest to [q] would be [2^1024] or beyond. *)
Definition overflows (q : Q) : bool := Qle_bool (2 ^ 1024) (Qabs (round q)).

Definition is_negative (q : Q) : bool := negb (Qle_bool 0 q).

(** [x * y] on floats: an overflow gives an infinity. *)
Definition fmul (x y : float) : float :=
  match x, y with
  | NaN, _ => NaN
  | _, NaN => NaN
  | Finite a, Finite b =>
      if overflows (a * b) then Infinity (is_negative (a * b))
      else Finite (round (a * b))
  | Finite a, Infinity s =>
      if Qeq_bool a 0 then NaN else Infinity (xorb (is_negative a) s)
  | Infinity s, Finite b =>
      if Qeq_bool b 0 then NaN else Infinity (xorb s (is_negative b))
  | Infinity s, Infinity s' => Infinity (xorb s s')
  end.

(** [x > y] on floats: false when either is a NaN. *)
Definition gt (x y : float) : bool :=
  match x, y with
  | NaN, _ => false
  | _, NaN => false
  | Finite a, Finite b => negb (Qle_bool a b)
  | Finite _, Infinity s => s
  | Infinity s, Finite _ => negb s
  | Infinity s, Infinity s' => negb s && s'
  end.

End Float.

(** ** JSON values, as [json.load] returns them *)

Module Json.

#[warnings="-register-all"] Inductive json : Type :=
| JNull
| JBool (b : bool)
| JInt (n : Z)
| JFloat (x : Float.float)
| JString (s : string)
| JArray (items : list json)
| JObject (members : gmap string json).

Fixpoint substring_of (sub s : string) : bool :=
  if String.prefix sub s then true
  else match s with
       | EmptyString => false
       | String _ s' => substring_of sub s'
       end.

Definition is_string (key : string) (v : json) : bool :=
  match v with
  | JString s => String.eqb s key
  | _ => false
  end.

(** [key in container] for a [str] key: a key of a dict, an element of a
    list, a substring of a string; the other values are not iterable. *)
Definition contains (container : json) (key : string) : result bool :=
  match container with
  | JObject members => Ok (bool_decide (is_Some (members !! key)))
  | JArray items => Ok (existsb (is_string key) items)
  | JString s => Ok (substring_of key s)
  | JNull | JBool _ | JInt _ | JFloat _ => Raise TypeError
  end.

(** [container[key]] for a [str] key. *)
Definition subscript (container : json) (key : string) : result json :=
  match container with
  | JObject members =>
      match members !! key with
      | Some v => Ok v
      | None => Raise KeyError
      end
  | _ => Raise TypeError
  end.

(** [x * v] for a finite float [x]: an [int] or a [bool] is converted to a
    float first ([OverflowError] when it is too large), the values that
    are not numbers raise [TypeError]. *)
Definition float_times (x : Q) (v : json) : result Float.float :=
  match v with
  | JFloat y => Ok (Float.fmul (Float.Finite x) y)
  | JInt n =>
      if Float.overflows (inject_Z n) then Raise OverflowError
      else Ok (Float.fmul (Float.Finite x) (Float.Finite (Float.round (inject_Z n))))
  | JBool b =>
      Ok (Float.fmul (Float.Finite x) (Float.Finite (if b then 1 else 0)%Q))
  | JNull | JString _ | JArray _ | JObject _ => Raise TypeError
  end.

End Json.

(** ** difflib.SequenceMatcher

[SequenceMatcher(None, a, b)]: no junk predicate, [autojunk] left at its
default [True]. Indices are natural numbers; [i-k+1] is written
[S i - k] (the loop keeps [k <= i+1]). *)

Module Difflib.

Record Match : Set := mkMatch { m_a : nat; m_b : nat; m_size : nat }.

Definition elt_eqb (x y : option ascii) : bool :=
  match x, y with
  | Some c, Some d => Ascii.eqb c d
  | _, _ => false
  end.

Section SequenceMatcher.

Variables a b : list ascii.

(** [__chain_b]: [b2j] maps each element of [b] to the ascending list of
    the indices it occurs at. *)
Definition chain_step (b2j : gmap ascii (list nat)) (ie : nat * ascii)
  : gmap ascii (list nat) :=
  <[ie.2 := default [] (b2j !! ie.2) ++ [ie.1]]> b2j.

Definition b2j_full : gmap ascii (list nat) :=
  fold_left chain_step (imap pair b) ∅.

(** [isjunk] is [None]: the junk set stays empty. *)
Definition bjunk : gset ascii := ∅.

Definition isbjunk (x : option ascii) : bool :=
  match x with
  | Some c => bool_decide (c ∈ bjunk)
  | None => false
  end.

(** Popular elements are purged when [b] has 200 elements or more. *)
Definition ntest : nat := length b / 100 + 1.

Definition b2j : gmap ascii (list nat) :=
  if 200 <=? length b
  then filter (fun kv => length kv.2 <= ntest) b2j_full
  else b2j_full.

Definition b2j_get (x : option ascii) : list nat :=
  match x with
  | Some c => default [] (b2j !! c)
  | None => []
  end.

(** [j2lenget(j-1, 0)]: the key [-1] is never present. *)
Definition j2lenget_pred (j2len : gmap nat nat) (j : nat) : nat :=
  match j with
  | O => 0
  | S j' => default 0 (j2len !! j')
  end.

(** The inner loop [for j in b2j.get(a[i], nothing)]. *)
Fixpoint row_loop (j2len : gmap nat nat) (i blo bhi : nat) (js : list nat)
    (newj2len : gmap nat nat) (best : Match) : gmap nat nat * Match :=
  match js with
  | [] => (newj2len, best)
  | j :: js' =>
      if j <? blo then row_loop j2len i blo bhi js' newj2len best
      else if bhi <=? j then (newj2len, best)
      else
        let k := j2lenget_pred j2len j + 1 in
        row_loop j2len i blo bhi js' (<[j := k]> newj2len)
          (if m_size best <? k then mkMatch (S i - k) (S j - k) k else best)
  end.

Definition row_step (blo bhi : nat) (st : gmap nat nat * Match) (i : nat)
  : gmap nat nat * Match :=
  row_loop st.1 i blo bhi (b2j_get (a !! i)) ∅ st.2.

(** The outer loop [for i in range(alo, ahi)]. *)
Definition scan (alo ahi blo bhi : nat) : gmap nat nat * Match :=
  fold_left (row_step blo bhi) (seq alo (ahi - alo)) (∅, mkMatch alo blo 0).

(** The loops that extend a match at its low end: [junk] selects the
    loop over non-junk ([false]) or junk ([true]) elements. *)
Fixpoint extend_low (junk : bool) (alo blo besti bestj bestsize : nat)
  : Match :=
  match besti, bestj with
  | S i', S j' =>
      if (alo <? besti) && (blo <? bestj)
         && Bool.eqb (isbjunk (b !! j')) junk
         && elt_eqb (a !! i') (b !! j')
      then extend_low junk alo blo i' j' (S bestsize)
      else mkMatch besti bestj bestsize
  | _, _ => mkMatch besti bestj bestsize
  end.

(** The loops that extend a match at its high end; [n] bounds the number
    of iterations by the room left below [ahi]. *)
Fixpoint extend_high (junk : bool) (n ahi bhi besti bestj bestsize : nat)
  : nat :=
  match n with
  | O => bestsize
  | S n' =>
      if (besti + bestsize <? ahi) && (bestj + bestsize <? bhi)
         && Bool.eqb (isbjunk (b !! (bestj + bestsize))) junk
         && elt_eqb (a !! (besti + bestsize)) (b !! (bestj + bestsize))
      then extend_high junk n' ahi bhi besti bestj (S bestsize)
      else bestsize
  end.

Definition extend (junk : bool) (alo ahi blo bhi : nat) (m : Match) : Match :=
  let m1 := extend_low junk alo blo (m_a m) (m_b m) (m_size m) in
  mkMatch (m_a m1) (m_b m1)
    (extend_high junk (ahi - (m_a m1 + m_size m1)) ahi bhi
       (m_a m1) (m_b m1) (m_size m1)).

Definition find_longest_match (alo ahi blo bhi : nat) : Match :=
  extend true alo ahi blo bhi
    (extend false alo ahi blo bhi (scan alo ahi blo bhi).2).

(** [get_matching_blocks]: the work list. The head of [queue] is the entry
    [queue.pop()] returns; [None] is an exhausted iteration budget. *)
Definition window : Set := (nat * nat * nat * nat)%type.

Fixpoint blocks_loop (fuel : nat) (queue : list window)
    (matching_blocks : list Match) : option (list Match) :=
  match queue with
  | [] => Some matching_blocks
  | (alo, ahi, blo, bhi) :: queue' =>
      match fuel with
      | O => None
      | S fuel' =>
          let x := find_longest_match alo ahi blo bhi in
          let i := m_a x in
          let j := m_b x in
          let k := m_size x in
          if k =? 0 then blocks_loop fuel' queue' matching_blocks
          else
            let q1 := if (alo <? i) && (blo <? j)
                      then (alo, i, blo, j) :: queue' else queue' in
            let q2 := if (i + k <? ahi) && (j + k <? bhi)
                      then (i + k, ahi, j + k, bhi) :: q1 else q1 in
            blocks_loop fuel' q2 (matching_blocks ++ [x])
      end
  end.

(** [matching_blocks.sort()]: tuples compare lexicographically. *)
Definition match_leb (x y : Match) : bool :=
  (m_a x <? m_a y)
  || ((m_a x =? m_a y)
      && ((m_b x <? m_b y) || ((m_b x =? m_b y) && (m_size x <=? m_size y)))).

Fixpoint insert_block (x : Match) (l : list Match) : list Match :=
  match l with
  | [] => [x]
  | y :: l' => if match_leb x y then x :: l else y :: insert_block x l'
  end.

Definition sort_blocks (l : list Match) : list Match :=
  fold_right insert_block [] l.

(** The pass that merges adjacent blocks. *)
Fixpoint collapse (i1 j1 k1 : nat) (blocks : list Match) : list Match :=
  match blocks with
  | [] => if k1 =? 0 then [] else [mkMatch i1 j1 k1]
  | x :: blocks' =>
      if (i1 + k1 =? m_a x) && (j1 + k1 =? m_b x)
      then collapse i1 j1 (k1 + m_size x) blocks'
      else (if k1 =? 0 then [] else [mkMatch i1 j1 k1])
             ++ collapse (m_a x) (m_b x) (m_size x) blocks'
  end.

Definition blocks_fuel : nat := S (2 * length a).

Definition raw_blocks : option (list Match) :=
  blocks_loop blocks_fuel [(0, length a, 0, length b)] [].

Definition get_matching_blocks : list Match :=
  collapse 0 0 0 (sort_blocks (default [] raw_blocks))
    ++ [mkMatch (length a) (length b) 0].

(** [2.0 * matches / length], or [1.0] when [length] is 0. *)
Definition calculate_ratio (matches length : nat) : Q :=
  if length =? 0 then 1%Q
  else Float.div (Float.mul 2 (Float.of_nat matches)) (Float.of_nat length).

Definition ratio : Q :=
  calculate_ratio (list_sum (map m_size get_matching_blocks))
    (length a + length b).

End SequenceMatcher.

End Difflib.

(** ** Python text primitives, on code points below 256 *)

Module Py.

Definition chars (s : string) : list ascii := list_ascii_of_string s.

Definition between (lo hi n : nat) : bool := (lo <=? n) && (n <=? hi).

(** [str.isspace], which is also the class [\s] of [re]. *)
Definition isspace (c : ascii) : bool :=
  let n := nat_of_ascii c in
  between 9 13 n || between 28 32 n || (n =? 133) || (n =? 160).

(** The class [\w] of [re]: alphanumeric code points and the underscore. *)
Definition isword (c : ascii) : bool :=
  let n := nat_of_ascii c in
  between 48 57 n || between 65 90 n || (n =? 95) || between 97 122 n
  || (n =? 170) || (n =? 178) || (n =? 179) || (n =? 181) || (n =? 185)
  || (n =? 186) || between 188 190 n || between 192 214 n
  || between 216 246 n || between 248 255 n.

Definition lower_char (c : ascii) : ascii :=
  let n := nat_of_ascii c in
  if between 65 90 n || (between 192 222 n && negb (n =? 215))
  then ascii_of_nat (n + 32) else c.

(** [text.lower()] *)
Fixpoint lower (s : string) : string :=
  match s with
  | EmptyString => EmptyString
  | String c s' => String (lower_char c) (lower s')
  end.

(** [re.sub(r'[^\w\s]', '', text)] *)
Fixpoint strip_special (s : string) : string :=
  match s with
  | EmptyString => EmptyString
  | String c s' =>
      if isword c || isspace c then String c (strip_special s')
      else strip_special s'
  end.

Definition flush (cur : string) : list string :=
  match cur with
  | EmptyString => []
  | _ => [cur]
  end.

Fixpoint split_loop (cur : string) (s : string) : list string :=
  match s with
  | EmptyString => flush cur
  | String c s' =>
      if isspace c then flush cur ++ split_loop EmptyString s'
      else split_loop (cur +:+ String c EmptyString) s'
  end.

(** [text.split()] *)
Definition split (s : string) : list string := split_loop EmptyString s.

(** [sep.join(words)] *)
Definition join (sep : string) (words : list string) : string :=
  String.concat sep words.

(** [a > b] on floats *)
Definition gt (x y : Q) : bool := negb (Qle_bool x y).

(** [list.sort(key=key, reverse=True)]: a stable sort into descending
    order of [key]. The outcome of a stable sort does not depend on the
    sorting algorithm; it is computed here by insertion from the right. *)
Fixpoint insert_desc {A : Type} (key : A -> Q) (x : A) (l : list A) : list A :=
  match l with
  | [] => [x]
  | y :: l' =>
      if Qle_bool (key y) (key x) then x :: l else y :: insert_desc key x l'
  end.

Definition sort_desc {A : Type} (key : A -> Q) (l : list A) : list A :=
  fold_right (insert_desc key) [] l.

(** [n / d] on integers: true division, the double nearest to the exact
    quotient. *)
Definition truediv (n d : nat) : result Q :=
  if d =? 0 then Raise ZeroDivisionError
  else Ok (Float.round (inject_Z (Z.of_nat n) / inject_Z (Z.of_nat d)))%Q.

End Py.

(** ** trusted_sources.py *)

Module TrustedSources.
Import Json.

(** What the body of the [try] in [load_trusted_sources] does: [open]
    fails with [FileNotFoundError], [json.load] fails with
    [JSONDecodeError], either of them fails with another exception (a file
    that is not UTF-8, that cannot be read, nesting too deep), or the
    parsed document is returned, whatever JSON value it is. *)
Inductive config_read : Type :=
| FileNotFoundError
| JSONDecodeError
| Failed (e : exn)
| Parsed (document : json).

(** Only the first two failures are caught. *)
Definition load_trusted_sources (file : config_read) : result json :=
  match file with
  | Parsed document => Ok document
  | FileNotFoundError => Ok (JObject ∅)
  | JSONDecodeError => Ok (JObject ∅)
  | Failed e => Raise e
  end.

Definition get_source_trust_level (file : config_read) (source_name : string)
  : result json :=
  sources ← load_trusted_sources file;
  found ← contains sources source_name;
  if found : bool
  then source ← subscript sources source_name; subscript source "trust_level"
  else Ok (JFloat (Float.Finite 0)).

Definition preprocess_text (text : string) : string :=
  let text := Py.lower text in
  let text := Py.strip_special text in
  Py.join " " (Py.split text).

Definition calculate_similarity (text1 text2 : string) : Q :=
  Difflib.ratio (Py.chars text1) (Py.chars text2).

(** The NLTK resources of the module: [word_tokenize],
    [stopwords.words('romanian')] and [SnowballStemmer("romanian").stem]. *)
Record Nltk : Type := mkNltk {
  word_tokenize : string -> list string;
  stopwords_romanian : list string;
  stem : string -> string
}.

Definition extract_keywords (nl : Nltk) (text : string) : list string :=
  let tokens := word_tokenize nl (Py.lower text) in
  let stop_words : gset string := list_to_set (stopwords_romanian nl) in
  let filtered_tokens :=
    List.filter (fun word => bool_decide (word ∉ stop_words)) tokens in
  map (stem nl) filtered_tokens.

Record Article : Type := mkArticle {
  title : string;
  link : string;
  image_url : string;
  description : string;
  author : string;
  date : string
}.

Record MatchResult : Type := mkMatchResult {
  article : Article;
  match_score : Q;
  title_similarity : Q;
  description_similarity : Q;
  keyword_overlap : Q
}.

Record VeracityResult : Type := mkResult {
  veracity_score : Float.float;
  confidence : Q;
  matches : list MatchResult;
  verdict : string
}.

Definition py_set (l : list string) : gset string := list_to_set l.

(** The scores of one article: the body of the loop down to [match_score]. *)
Definition score_article (nl : Nltk) (processed_input : string)
    (input_keywords : list string) (art : Article) : result MatchResult :=
  let processed_article :=
    preprocess_text (title art +:+ " " +:+ description art) in
  let article_keywords := extract_keywords nl processed_article in
  let title_sim := calculate_similarity processed_input (title art) in
  let desc_sim := calculate_similarity processed_input (description art) in
  overlap ← Py.truediv
    (size (py_set input_keywords ∩ py_set article_keywords))
    (size (py_set input_keywords ∪ py_set article_keywords));
  let score :=
    Float.add
      (Float.add (Float.mul title_sim (Float.literal 0.4))
                 (Float.mul desc_sim (Float.literal 0.4)))
      (Float.mul overlap (Float.literal 0.2)) in
  Ok (mkMatchResult art score title_sim desc_sim overlap).

(** [for article in articles: ...], threading [results['matches']]. *)
Fixpoint analyze (nl : Nltk) (processed_input : string)
    (input_keywords : list string) (articles : list Article)
    (found : list MatchResult) : result (list MatchResult) :=
  match articles with
  | [] => Ok found
  | art :: articles' =>
      m ← score_article nl processed_input input_keywords art;
      analyze nl processed_input input_keywords articles'
        (if Py.gt (match_score m) (Float.literal 0.3) then found ++ [m]
         else found)
  end.

Definition threshold (q : Q) : Float.float := Float.Finite (Float.literal q).

Definition verdict_of (score : Float.float) : string :=
  if Float.gt score (threshold 0.7) then "true"
  else if Float.gt score (threshold 0.4) then "likely_true"
  else if Float.gt score (threshold 0.2) then "likely_false"
  else "false".

Definition initial_results : VeracityResult :=
  mkResult (Float.Finite 0) 0 [] "unknown".

(** [min(1.0, n * 0.2)] *)
Definition confidence_of (n : nat) : Q :=
  Qmin 1 (Float.mul (Float.of_nat n) (Float.literal 0.2)).

Definition verify_veracity (nl : Nltk) (file : config_read)
    (input_text : string) (articles : list Article) : result VeracityResult :=
  let processed_input := preprocess_text input_text in
  let input_keywords := extract_keywords nl processed_input in
  found ← analyze nl processed_input input_keywords articles
             (matches initial_results);
  match found with
  | [] => Ok initial_results
  | _ :: _ =>
      let sorted := Py.sort_desc match_score found in
      match sorted with
      | [] => Raise IndexError
      | best_match :: _ =>
          source_trust ← get_source_trust_level file "veridica";
          score ← float_times (match_score best_match) source_trust;
          Ok (mkResult score (confidence_of (length sorted)) sorted
                (verdict_of score))
      end
  end.

End TrustedSources.

(** ** article_analyzer.py *)

Module ArticleAnalyzer.

(** A token of a spaCy document. *)
Record Token : Type := mkToken {
  lemma_ : string;
  is_stop : bool;
  is_punct : bool
}.

(** The models [__init__] loads: the spaCy pipeline [nlp], and the
    scikit-learn vectorizer with [cosine_similarity] of rows 0 and 1 of
    the matrix it fits ([fit_transform] raises [ValueError] on an empty
    vocabulary). *)
Record Models : Type := mkModels {
  nlp : string -> list Token;
  tfidf_matrix : Type;
  fit_transform : list string -> result tfidf_matrix;
  cosine_similarity : tfidf_matrix -> Q
}.

Definition preprocess_text (md : Models) (text : string) : string :=
  let doc := nlp md (Py.lower text) in
  Py.join " "
    (map lemma_
       (List.filter (fun token => negb (is_stop token) && negb (is_punct token))
          doc)).

Definition calculate_similarity (md : Models) (text1 text2 : string)
  : result Q :=
  matrix ← fit_transform md [text1; text2];
  Ok (cosine_similarity md matrix).

(** An article as loaded from JSON; [get(key, '')] is [get_str]. *)
Definition get_str (d : gmap string string) (key : string) : string :=
  default "" (d !! key).

Record Similar : Type := mkSimilar {
  s_title : string;
  s_link : string;
  s_description : string;
  similarity : Q;
  is_bad : bool
}.

Definition article_text (art : gmap string string) : string :=
  get_str art "title" +:+ " " +:+ get_str art "description".

Fixpoint find_loop (md : Models) (preprocessed_input : string)
    (articles : list (gmap string string)) (bad : bool) (threshold : Q)
    (results : list Similar) : result (list Similar) :=
  match articles with
  | [] => Ok results
  | art :: articles' =>
      if String.eqb (article_text art) ""
      then find_loop md preprocessed_input articles' bad threshold results
      else
        let preprocessed_article := preprocess_text md (article_text art) in
        sim ← calculate_similarity md preprocessed_input preprocessed_article;
        find_loop md preprocessed_input articles' bad threshold
          (if Py.gt sim threshold
           then results ++ [mkSimilar (get_str art "title") (get_str art "link")
                              (get_str art "description") sim bad]
           else results)
  end.

Definition find_similar_articles (md : Models) (input_text : string)
    (articles : list (gmap string string)) (bad : bool) (threshold : Q)
  : result (list Similar) :=
  find_loop md (preprocess_text md input_text) articles bad threshold [].

End ArticleAnalyzer.

(** ** Instances the pipeline is run on in the examples below *)

Module Examples.
Import TrustedSources.

(** On preprocessed text (word characters separated by single blanks) the
    tokens are the blank-separated words; no stop word, no stemming. *)
Definition plain_nltk : Nltk := mkNltk Py.split [] (fun w => w).

Definition trusted (level : Q) : Json.json :=
  Json.JObject {[ "trust_level" := Json.JFloat (Float.Finite (Float.literal level)) ]}.

Definition veridica_file : config_read :=
  Parsed (Json.JObject {[ "veridica" := trusted 0.9 ]}).

Definition art (t d : string) : Article := mkArticle t "" "" d "" "".

(** The tokens of a document are its blank-separated words, none of them a
    stop word or punctuation; the vectorizer refuses documents that are all
    empty (an empty vocabulary) and gives any other pair similarity 0. *)
Definition plain_models : ArticleAnalyzer.Models :=
  ArticleAnalyzer.mkModels
    (fun text => map (fun w => ArticleAnalyzer.mkToken w false false) (Py.split text))
    Q
    (fun docs => if forallb (fun d => String.eqb d "") docs
                 then Raise ValueError else Ok 0%Q)
    (fun matrix => matrix).

Definition blank_article : gmap string string :=
  {[ "title" := ""; "description" := "" ]}.

Definition sample_claim : string := "vaccin sigur".

Definition sample_articles : list Article :=
  [art "Vaccin" "sigur"; art "vaccin sigur" "studiu"; art "x" "y"].

Definition sample_result : VeracityResult :=
  match verify_veracity plain_nltk veridica_file sample_claim sample_articles with
  | Ok r => r
  | Raise _ => initial_results
  end.

End Examples.

(** ** Vocabulary of the statements *)

Module Veracity.
Import TrustedSources.

Definition claim_keywords (nl : Nltk) (input_text : string) : list string :=
  extract_keywords nl (preprocess_text input_text).

Definition article_keywords (nl : Nltk) (a : Article) : list string :=
  extract_keywords nl (preprocess_text (title a +:+ " " +:+ description a)).

(** The union whose size divides in [keyword_overlap]. *)
Definition keyword_union (nl : Nltk) (input_text : string) (a : Article)
  : gset string :=
  py_set (claim_keywords nl input_text) ∪ py_set (article_keywords nl a).

(** The scores [verify_veracity] computes for one article of its list. *)
Definition scores (nl : Nltk) (input_text : string) (a : Article)
  : result MatchResult :=
  score_article nl (preprocess_text input_text) (claim_keywords nl input_text) a.

Definition admitted (m : MatchResult) : bool :=
  Py.gt (match_score m) (Float.literal 0.3).

(** [t * 0.4 + d * 0.4 + k * 0.2] in floats: the products are rounded,
    then the two sums from the left. *)
Definition weighted (t d k : Q) : Q :=
  Float.add
    (Float.add (Float.mul t (Float.literal 0.4)) (Float.mul d (Float.literal 0.4)))
    (Float.mul k (Float.literal 0.2)).


(** The number a JSON value stands for in arithmetic, if any. *)
Definition number (v : Json.json) : option Q :=
  match v with
  | Json.JInt n => Some (inject_Z n)
  | Json.JBool b => Some (if b then 1 else 0)%Q
  | Json.JFloat (Float.Finite q) => Some q
  | _ => None
  end.

Definition same_score (q : Q) (m : MatchResult) : bool :=
  Qeq_bool (match_score m) q.

Definition by_score_desc (m1 m2 : MatchResult) : Prop :=
  (match_score m2 <= match_score m1)%Q.

Definition no_common_char (s t : string) : Prop :=
  forall c, c ∈ Py.chars s -> c ∉ Py.chars t.

End Veracity.

(** ** trusted_sources.py: scrape_source *)

Module Scraping.
Import Json TrustedSources.

(** [str.strip()] *)
Fixpoint lstrip (s : string) : string :=
  match s with
  | EmptyString => EmptyString
  | String c s' => if Py.isspace c then lstrip s' else s
  end.

Fixpoint rstrip (s : string) : string :=
  match s with
  | EmptyString => EmptyString
  | String c s' =>
      match rstrip s' with
      | EmptyString => if Py.isspace c then EmptyString else String c EmptyString
      | r => String c r
      end
  end.

Definition strip (s : string) : string := lstrip (rstrip s).

(** What BeautifulSoup finds in the first [<a>] of a card: its [href]
    attribute and its first [<img>] with that tag's [src] attribute. *)
Record Anchor : Type := mkAnchor {
  href : option string;
  img : option (option string)
}.

(** What it finds in [<div class="col-10">]: the texts of the first
    [<strong>] and of the first [<span class="text-muted">]. *)
Record AuthorInfo : Type := mkAuthorInfo {
  strong : option string;
  text_muted : option string
}.

(** A [<div class="card">] as the loop reads it: [card.find('a')],
    [card.find('h5', class_='card-title')] with the text of its [<a>],
    the text of [card.find('p', class_='card-text')], and
    [card.find('div', class_='col-10')]. *)
Record Card : Type := mkCard {
  card_anchor : option Anchor;
  card_title : option (option string);
  card_text : option string;
  card_author : option AuthorInfo
}.

(** The outcome of [requests.get], [raise_for_status] and the parse of the
    page: a [RequestException] with its message, or the cards found. *)
Inductive fetched : Type :=
| RequestException (message : string)
| Html (cards : list Card).

(** The world outside: the site, whether opening [articles.json] for
    writing fails (with the message of the exception), and [str(e)], the
    text the interpreter gives an exception. *)
Record Web : Type := mkWeb {
  get : string -> fetched;
  open_error : option string;
  str_exception : exn -> string
}.

Inductive scrape_result : Type :=
| ScrapeError (error : string)
| Scraped (source base_url : string) (trust : json) (articles : list Article).

(** What a run leaves behind: the value returned, the URLs requested in
    order, and the list written to [articles.json], if any. *)
Record Run : Type := mkRun {
  outcome : scrape_result;
  requested : list string;
  written : option (list Article)
}.

Definition base_url : string := "https://www.veridica.ro/stiri/romania".

Definition page_url (page : nat) : string :=
  if 1 <? page then base_url +:+ "?page=" +:+ pretty page else base_url.

Definition text_or_empty (text : option string) : string :=
  match text with
  | Some t => strip t
  | None => ""
  end.

(** The body of [for card in cards]: [None] is [continue]. *)
Definition card_article (card : Card) : option Article :=
  match card_anchor card with
  | None => None
  | Some image_link =>
      let link := default "" (href image_link) in
      let image_url :=
        match img image_link with
        | Some image => default "" image
        | None => ""
        end in
      match card_title card with
      | None => None
      | Some title_elem =>
          let title := text_or_empty title_elem in
          let description := text_or_empty (card_text card) in
          let author :=
            match card_author card with
            | Some author_info => text_or_empty (strong author_info)
            | None => ""
            end in
          let date :=
            match card_author card with
            | Some author_info => text_or_empty (text_muted author_info)
            | None => ""
            end in
          Some (mkArticle title link image_url description author date)
      end
  end.

Fixpoint cards_loop (cards : list Card) (all_articles : list Article)
  : list Article :=
  match cards with
  | [] => all_articles
  | card :: cards' =>
      match card_article card with
      | None => cards_loop cards' all_articles
      | Some a => cards_loop cards' (all_articles ++ [a])
      end
  end.

(** [for page in range(1, 15)]: the error message of a failed request, or
    the articles gathered; with the URLs requested. *)
Fixpoint pages_loop (web : Web) (pages : list nat)
    (all_articles : list Article) (urls : list string)
  : (string + list Article) * list string :=
  match pages with
  | [] => (inr all_articles, urls)
  | page :: pages' =>
      match get web (page_url page) with
      | RequestException message => (inl message, urls ++ [page_url page])
      | Html [] => (inr all_articles, urls ++ [page_url page])
      | Html cards =>
          pages_loop web pages' (cards_loop cards all_articles)
            (urls ++ [page_url page])
      end
  end.

(** The lookups before the [try] raise; inside it the file is written
    before [source['trust_level']] is read, and what that raises is caught
    by [except Exception]. *)
Definition scrape_source (file : config_read) (web : Web) (source_name : string)
  : result Run :=
  sources ← load_trusted_sources file;
  found ← contains sources source_name;
  if negb found
  then Ok (mkRun (ScrapeError ("Source " +:+ source_name +:+ " not found")) [] None)
  else
    source ← subscript sources source_name;
    match pages_loop web (seq 1 14) [] [] with
    | (inl message, urls) =>
        Ok (mkRun (ScrapeError ("Error fetching data: " +:+ message)) urls None)
    | (inr all_articles, urls) =>
        match open_error web with
        | Some message =>
            Ok (mkRun (ScrapeError ("Error processing data: " +:+ message))
                  urls None)
        | None =>
            match subscript source "trust_level" with
            | Ok trust =>
                Ok (mkRun (Scraped source_name base_url trust all_articles)
                      urls (Some all_articles))
            | Raise e =>
                Ok (mkRun (ScrapeError ("Error processing data: "
                                        +:+ str_exception web e))
                      urls (Some all_articles))
            end
        end
    end.

End Scraping.

(** ** scraper.py *)

Module Scraper.
Import Scraping.

Record ScrapedArticle : Type := mkScraped {
  title : string;
  link : string;
  image_url : string;
  description : string;
  source : string;
  scraped_at : string
}.

(** The site as [scrape_veridica] sees it: the outcome of the one request,
    and the clock, [now n] being what the call number [n] of
    [datetime.now().isoformat()] returns. *)
Record Site : Type := mkSite {
  fetch : fetched;
  now : nat -> string
}.

Definition card_scraped (card : Card) (timestamp : string) : option ScrapedArticle :=
  match card_anchor card with
  | None => None
  | Some image_link =>
      let link := default "" (href image_link) in
      let image_url :=
        match img image_link with
        | Some image => default "" image
        | None => ""
        end in
      match card_title card with
      | None => None
      | Some title_elem =>
          Some (mkScraped (text_or_empty title_elem) link image_url
                  (text_or_empty (card_text card)) "veridica" timestamp)
      end
  end.

(** The clock is read once for each article appended. *)
Fixpoint cards_loop (site : Site) (cards : list Card)
    (articles : list ScrapedArticle) : list ScrapedArticle :=
  match cards with
  | [] => articles
  | card :: cards' =>
      match card_scraped card (now site (length articles)) with
      | None => cards_loop site cards' articles
      | Some a => cards_loop site cards' (articles ++ [a])
      end
  end.

Definition scrape_veridica (site : Site) : list ScrapedArticle :=
  match fetch site with
  | RequestException _ => []
  | Html cards => cards_loop site cards []
  end.

(** A file holds a JSON list of articles, or text that is not JSON. *)
Inductive file_data : Type :=
| Articles (articles : list ScrapedArticle)
| NotJson.

(** The file system: the working directory, the directory of the module,
    the files by path, and the paths that cannot be opened for writing. *)
Record Fs : Type := mkFs {
  cwd : string;
  current_dir : string;
  files : gmap string file_data;
  unwritable : gset string
}.

(** [os.path.join] of a directory and a file name. *)
Definition path_join (dir name : string) : string := dir +:+ "/" +:+ name.

Definition results_file (fs : Fs) : string :=
  path_join (current_dir fs) "result.json".

(** [save_articles] opens "result.json", a path relative to the working
    directory; a failure to open it is caught. *)
Definition save_articles (fs : Fs) (articles : list ScrapedArticle) : Fs :=
  let path := path_join (cwd fs) "result.json" in
  if bool_decide (path ∈ unwritable fs) then fs
  else mkFs (cwd fs) (current_dir fs) (<[path := Articles articles]> (files fs))
         (unwritable fs).

Definition load_articles (fs : Fs) : list ScrapedArticle :=
  match files fs !! results_file fs with
  | Some (Articles articles) => articles
  | Some NotJson => []
  | None => []
  end.

Definition update_articles (site : Site) (fs : Fs) : Fs :=
  let new_articles := scrape_veridica site in
  match new_articles with
  | [] => fs
  | _ :: _ => save_articles fs new_articles
  end.

End Scraper.

(** * Properties *)

(** ** Rounding to the nearest double *)

Module FloatFacts.
Import Float.
Local Open Scope Q_scope.

Lemma rne_comp x y : x == y -> rne x = rne y.
Proof.
  intros H. unfold rne.
  assert (Hf : Qfloor x = Qfloor y) by (apply Qfloor_comp; exact H).
  rewrite Hf.
  assert (Hc : Qcompare (x - inject_Z (Qfloor y)) (1 # 2)
               = Qcompare (y - inject_Z (Qfloor y)) (1 # 2)).
  { apply Qcompare_comp; [rewrite H; reflexivity|reflexivity]. }
  rewrite Hc. reflexivity.
Qed.

Lemma rne_Z n : rne (inject_Z n) = n.
Proof.
  unfold rne. rewrite Qfloor_Z.
  destruct (Qcompare_spec (inject_Z n - inject_Z n) (1 # 2)) as [H|H|H];
    try reflexivity; exfalso; lra.
Qed.

Lemma rne_floor x : (Qfloor x <= rne x <= Qfloor x + 1)%Z.
Proof.
  unfold rne. destruct (Qcompare _ _); [destruct (Z.even _)| |]; lia.
Qed.

Lemma rne_mono x y : x <= y -> (rne x <= rne y)%Z.
Proof.
  intros H. pose proof (Qfloor_resp_le x y H) as Hf.
  pose proof (rne_floor x). pose proof (rne_floor y).
  destruct (Z.eq_dec (Qfloor x) (Qfloor y)) as [E|E]; [|lia].
  unfold rne. rewrite <- E.
  destruct (Qcompare_spec (x - inject_Z (Qfloor x)) (1 # 2)) as [Hx|Hx|Hx];
    destruct (Qcompare_spec (y - inject_Z (Qfloor x)) (1 # 2)) as [Hy|Hy|Hy];
    try destruct (Z.even (Qfloor x)); try lia; exfalso; lra.
Qed.

Lemma pow2_pos e : 0 < 2 ^ e.
Proof. apply Qpower_0_lt. reflexivity. Qed.

Lemma pow2_add a b : 2 ^ (a + b) == 2 ^ a * 2 ^ b.
Proof. apply Qpower_plus. discriminate. Qed.

Lemma pow2_le a b : (a <= b)%Z -> 2 ^ a <= 2 ^ b.
Proof. intros H. apply Qpower_le_compat_l; [exact H|discriminate]. Qed.

Lemma pow2_lt a b : (a < b)%Z -> 2 ^ a < 2 ^ b.
Proof. intros H. apply Qpower_lt_compat_l; [exact H|reflexivity]. Qed.

Lemma pow2_lt_inv a b : 2 ^ a < 2 ^ b -> (a < b)%Z.
Proof. intros H. apply (Qpower_lt_compat_l_inv 2); [exact H|reflexivity]. Qed.

Lemma pow2_Z n : (0 <= n)%Z -> 2 ^ n == inject_Z (2 ^ n).
Proof. intros H. rewrite Zpower_Qpower by exact H. reflexivity. Qed.

Lemma pow2_cancel e : 2 ^ (- e) * 2 ^ e == 1.
Proof. rewrite <- pow2_add. replace (- e + e)%Z with 0%Z by lia. reflexivity. Qed.

Lemma pow2_succ e : 2 ^ (e + 1) == 2 * 2 ^ e.
Proof. rewrite pow2_add. change (2 ^ 1) with 2. ring. Qed.

Lemma ilog2_spec q : 0 < q -> 2 ^ ilog2 q <= q /\ q < 2 ^ (ilog2 q + 1).
Proof.
  intros Hq. unfold ilog2.
  destruct q as [n d]. cbn [Qnum Qden].
  assert (Hn : (0 < n)%Z).
  { unfold Qlt in Hq. simpl in Hq. lia. }
  pose proof (Z.log2_spec n Hn) as [Hn1 Hn2].
  pose proof (Z.log2_spec (Zpos d) ltac:(lia)) as [Hd1 Hd2].
  set (a := Z.log2 n) in *. set (b := Z.log2 (Zpos d)) in *.
  assert (Ha : (0 <= a)%Z) by apply Z.log2_nonneg.
  assert (Hb : (0 <= b)%Z) by apply Z.log2_nonneg.
  assert (Eq : (n # d) * inject_Z (Zpos d) == inject_Z n).
  { rewrite (Qmake_Qdiv n d). field. discriminate. }
  assert (Na : 2 ^ a <= inject_Z n).
  { rewrite pow2_Z by exact Ha. rewrite <- Zle_Qle. exact Hn1. }
  assert (Nb : inject_Z n < 2 * 2 ^ a).
  { rewrite <- pow2_succ, pow2_Z by lia. rewrite <- Zlt_Qlt. exact Hn2. }
  assert (Da : 2 ^ b <= inject_Z (Zpos d)).
  { rewrite pow2_Z by exact Hb. rewrite <- Zle_Qle. exact Hd1. }
  assert (Db : inject_Z (Zpos d) < 2 * 2 ^ b).
  { rewrite <- pow2_succ, pow2_Z by lia. rewrite <- Zlt_Qlt. exact Hd2. }
  assert (Eab : 2 ^ (a - b) * 2 ^ b == 2 ^ a).
  { rewrite <- pow2_add. replace (a - b + b)%Z with a by lia. reflexivity. }
  pose proof (pow2_pos a) as Pa. pose proof (pow2_pos b) as Pb.
  pose proof (pow2_pos (a - b)) as Pab.
  set (N := inject_Z n) in *. set (D := inject_Z (Zpos d)) in *.
  set (x := n # d) in *.
  destruct (Qle_bool (2 ^ (a - b)) x) eqn:E.
  - apply Qle_bool_iff in E. split; [exact E|].
    rewrite pow2_succ. set (P := 2 ^ (a - b)) in *.
    set (A := 2 ^ a) in *. set (B := 2 ^ b) in *.
    clearbody x N D P A B. nra.
  - assert (E' : x < 2 ^ (a - b)).
    { apply Qnot_le_lt. intros H. apply Qle_bool_iff in H. congruence. }
    replace (a - b - 1 + 1)%Z with (a - b)%Z by lia.
    split; [|exact E'].
    assert (Eh : 2 * 2 ^ (a - b - 1) == 2 ^ (a - b)).
    { rewrite <- pow2_succ. replace (a - b - 1 + 1)%Z with (a - b)%Z by lia.
      reflexivity. }
    pose proof (pow2_pos (a - b - 1)) as Ph.
    set (P := 2 ^ (a - b)) in *. set (H := 2 ^ (a - b - 1)) in *.
    set (A := 2 ^ a) in *. set (B := 2 ^ b) in *.
    clearbody x N D P H A B. nra.
Qed.

Lemma ilog2_unique q e : 2 ^ e <= q -> q < 2 ^ (e + 1) -> ilog2 q = e.
Proof.
  intros H1 H2.
  assert (Hq : 0 < q) by (pose proof (pow2_pos e); lra).
  destruct (ilog2_spec q Hq) as [K1 K2].
  assert (e < ilog2 q + 1)%Z by (apply pow2_lt_inv; lra).
  assert (ilog2 q < e + 1)%Z by (apply pow2_lt_inv; lra).
  lia.
Qed.

Lemma ilog2_mono x y : 0 < x -> x <= y -> (ilog2 x <= ilog2 y)%Z.
Proof.
  intros Hx Hxy.
  destruct (ilog2_spec x Hx) as [K1 _].
  destruct (ilog2_spec y ltac:(lra)) as [_ K2].
  assert (ilog2 x < ilog2 y + 1)%Z by (apply pow2_lt_inv; lra).
  lia.
Qed.

Lemma ulp_exponent_spec a :
  0 < a ->
  (-1074 <= ulp_exponent a)%Z /\ a < 2 ^ (ulp_exponent a + 53) /\
  (ulp_exponent a = (-1074)%Z \/ 2 ^ (ulp_exponent a + 52) <= a).
Proof.
  intros Ha. destruct (ilog2_spec a Ha) as [K1 K2]. unfold ulp_exponent.
  set (k := ilog2 a) in *. split; [lia|]. split.
  - eapply Qlt_le_trans; [exact K2|]. apply pow2_le. lia.
  - destruct (Z.max_spec (k - 52) (-1074)) as [[_ ->]|[_ ->]]; [left; reflexivity|].
    right. replace (k - 52 + 52)%Z with k by lia. exact K1.
Qed.

Lemma ulp_exponent_unique a e :
  0 < a -> (-1074 <= e)%Z -> a < 2 ^ (e + 53) ->
  (e = (-1074)%Z \/ 2 ^ (e + 52) <= a) ->
  ulp_exponent a = e.
Proof.
  intros Ha He Hlt Hge. destruct (ilog2_spec a Ha) as [K1 K2].
  unfold ulp_exponent. set (k := ilog2 a) in *.
  assert (k < e + 53)%Z by (apply pow2_lt_inv; lra).
  destruct Hge as [->|Hge]; [lia|].
  assert (e + 52 < k + 1)%Z by (apply pow2_lt_inv; lra).
  lia.
Qed.

Lemma ulp_exponent_mono x y :
  0 < x -> x <= y -> (ulp_exponent x <= ulp_exponent y)%Z.
Proof.
  intros Hx Hxy. pose proof (ilog2_mono x y Hx Hxy). unfold ulp_exponent. lia.
Qed.

Lemma round_abs_0 a : a == 0 -> round_abs a == 0.
Proof.
  intros H. unfold round_abs.
  rewrite (rne_comp (a * 2 ^ (- ulp_exponent a)) (inject_Z 0)).
  - rewrite rne_Z. ring.
  - generalize (2 ^ (- ulp_exponent a)). intros p. rewrite H. ring.
Qed.

Lemma rne_nonneg x : 0 <= x -> (0 <= rne x)%Z.
Proof.
  intros H. rewrite <- (rne_Z 0). apply rne_mono. exact H.
Qed.

Lemma round_abs_nonneg a : 0 <= a -> 0 <= round_abs a.
Proof.
  intros H. unfold round_abs. apply Qmult_le_0_compat.
  - change 0 with (inject_Z 0). rewrite <- Zle_Qle. apply rne_nonneg.
    apply Qmult_le_0_compat; [exact H|]. apply Qlt_le_weak, pow2_pos.
  - apply Qlt_le_weak, pow2_pos.
Qed.

Lemma scale_le a b e : a <= b * 2 ^ e -> a * 2 ^ (- e) <= b.
Proof.
  intros H. pose proof (pow2_pos (- e)) as P. pose proof (pow2_cancel e) as C.
  assert (a * 2 ^ (- e) <= b * 2 ^ e * 2 ^ (- e)).
  { apply Qmult_le_compat_r; [exact H|lra]. }
  assert (b * 2 ^ e * 2 ^ (- e) == b) by (rewrite <- Qmult_assoc, (Qmult_comm (2 ^ e)), C; ring).
  lra.
Qed.

Lemma scale_ge a b e : b * 2 ^ e <= a -> b <= a * 2 ^ (- e).
Proof.
  intros H. pose proof (pow2_pos (- e)) as P. pose proof (pow2_cancel e) as C.
  assert (b * 2 ^ e * 2 ^ (- e) <= a * 2 ^ (- e)).
  { apply Qmult_le_compat_r; [exact H|lra]. }
  assert (b * 2 ^ e * 2 ^ (- e) == b) by (rewrite <- Qmult_assoc, (Qmult_comm (2 ^ e)), C; ring).
  lra.
Qed.

Lemma round_abs_mono x y : 0 <= x -> x <= y -> round_abs x <= round_abs y.
Proof.
  intros Hx Hxy.
  destruct (Qeq_dec x 0) as [E|E].
  { rewrite (round_abs_0 x E). apply round_abs_nonneg. lra. }
  assert (Hx0 : 0 < x).
  { destruct (Qlt_le_dec 0 x) as [H|H]; [exact H|]. exfalso. apply E. lra. }
  pose proof (ulp_exponent_mono x y Hx0 Hxy) as He.
  destruct (ulp_exponent_spec x Hx0) as (X1 & X2 & X3).
  destruct (ulp_exponent_spec y ltac:(lra)) as (Y1 & Y2 & Y3).
  unfold round_abs.
  set (ex := ulp_exponent x) in *. set (ey := ulp_exponent y) in *.
  destruct (Z.eq_dec ex ey) as [Ee|Ee].
  - rewrite <- Ee. apply Qmult_le_compat_r; [|apply Qlt_le_weak, pow2_pos].
    rewrite <- Zle_Qle. apply rne_mono.
    apply Qmult_le_compat_r; [exact Hxy|apply Qlt_le_weak, pow2_pos].
  - assert (Hlt : (ex < ey)%Z) by lia.
    destruct Y3 as [Y3|Y3]; [lia|].
    apply Qle_trans with (2 ^ (ey + 52)).
    + assert (Hd : (0 <= ey + 52 - ex)%Z) by lia.
      assert (Hs : x * 2 ^ (- ex) <= inject_Z (2 ^ (ey + 52 - ex))).
      { apply scale_le. rewrite <- pow2_Z by exact Hd. rewrite <- pow2_add.
        replace (ey + 52 - ex + ex)%Z with (ey + 52)%Z by lia.
        apply Qle_trans with (2 ^ (ex + 53)); [lra|]. apply pow2_le. lia. }
      apply rne_mono in Hs. rewrite rne_Z in Hs.
      apply Qle_trans with (inject_Z (2 ^ (ey + 52 - ex)) * 2 ^ ex).
      * apply Qmult_le_compat_r; [|apply Qlt_le_weak, pow2_pos].
        rewrite <- Zle_Qle. exact Hs.
      * rewrite <- pow2_Z by exact Hd. rewrite <- pow2_add.
        replace (ey + 52 - ex + ex)%Z with (ey + 52)%Z by lia. apply Qle_refl.
    + assert (Hs : inject_Z (2 ^ 52) <= y * 2 ^ (- ey)).
      { apply scale_ge. rewrite <- pow2_Z by lia. rewrite <- pow2_add.
        replace (52 + ey)%Z with (ey + 52)%Z by lia. exact Y3. }
      apply rne_mono in Hs. rewrite rne_Z in Hs.
      apply Qle_trans with (inject_Z (2 ^ 52) * 2 ^ ey).
      * rewrite <- pow2_Z by lia. rewrite <- pow2_add.
        replace (52 + ey)%Z with (ey + 52)%Z by lia. apply Qle_refl.
      * apply Qmult_le_compat_r; [|apply Qlt_le_weak, pow2_pos].
        rewrite <- Zle_Qle. exact Hs.
Qed.

Lemma pos_of_nonzero a : 0 <= a -> ~ a == 0 -> 0 < a.
Proof.
  intros H E. destruct (Qlt_le_dec 0 a) as [H0|H0]; [exact H0|].
  exfalso. apply E. lra.
Qed.

Lemma ulp_exponent_comp x y : 0 < x -> x == y -> ulp_exponent x = ulp_exponent y.
Proof.
  intros Hx E. symmetry.
  destruct (ulp_exponent_spec x Hx) as (X1 & X2 & X3).
  apply ulp_exponent_unique; [lra|exact X1|lra|].
  destruct X3 as [X3|X3]; [left; exact X3|right; lra].
Qed.

Lemma round_abs_comp x y : 0 <= x -> x == y -> round_abs x == round_abs y.
Proof.
  intros Hx E. destruct (Qeq_dec x 0) as [Z|Z].
  - rewrite (round_abs_0 x Z), (round_abs_0 y); [reflexivity|lra].
  - pose proof (pos_of_nonzero x Hx Z) as Hp. unfold round_abs.
    rewrite <- (ulp_exponent_comp x y Hp E).
    generalize (ulp_exponent x). intros e.
    rewrite (rne_comp (x * 2 ^ (- e)) (y * 2 ^ (- e))); [reflexivity|].
    rewrite E. reflexivity.
Qed.

(** The numbers a double can hold, by magnitude. *)
Definition representable (a : Q) : Prop :=
  exists (M e : Z),
    (0 <= M <= 2 ^ 53)%Z /\ (-1074 <= e)%Z /\ a == inject_Z M * 2 ^ e.

Lemma round_abs_exact a (z : Z) :
  a * 2 ^ (- ulp_exponent a) == inject_Z z -> round_abs a == a.
Proof.
  intros H. unfold round_abs. rewrite (rne_comp _ _ H), rne_Z, <- H.
  rewrite <- Qmult_assoc, pow2_cancel. ring.
Qed.

Lemma round_abs_fix a : representable a -> round_abs a == a.
Proof.
  intros (M & e0 & HM & He0 & Ea).
  destruct (Z.eq_dec M 0%Z) as [->|HM0].
  { assert (a == 0) by (rewrite Ea; ring). rewrite round_abs_0; lra. }
  pose proof (pow2_pos e0) as P0.
  assert (HMq : 1 <= inject_Z M).
  { change 1 with (inject_Z 1). rewrite <- Zle_Qle. lia. }
  assert (Ha : 0 < a) by (rewrite Ea; nra).
  destruct (ulp_exponent_spec a Ha) as (X1 & X2 & X3).
  set (e := ulp_exponent a) in *.
  destruct (Z_le_gt_dec e e0) as [Hle|Hgt].
  - apply (round_abs_exact a (M * 2 ^ (e0 - e))). fold e.
    rewrite inject_Z_mult, <- pow2_Z by lia. rewrite Ea.
    rewrite <- Qmult_assoc, <- pow2_add.
    replace (e0 + - e)%Z with (e0 - e)%Z by lia. reflexivity.
  - destruct X3 as [X3|X3]; [lia|].
    assert (HM53 : inject_Z M <= 2 ^ 53).
    { rewrite (pow2_Z 53) by lia. rewrite <- Zle_Qle. lia. }
    assert (Hk : (e + 52 < e0 + 54)%Z).
    { apply pow2_lt_inv. apply Qle_lt_trans with a; [exact X3|].
      rewrite Ea. replace (e0 + 54)%Z with (54 + e0)%Z by lia.
      rewrite pow2_add. apply Qmult_lt_compat_r; [exact P0|].
      eapply Qle_lt_trans; [exact HM53|]. apply pow2_lt. lia. }
    assert (Ee : e = (e0 + 1)%Z) by lia.
    assert (HMge : 2 ^ 53 <= inject_Z M).
    { rewrite Ee in X3. replace (e0 + 1 + 52)%Z with (53 + e0)%Z in X3 by lia.
      rewrite pow2_add, Ea in X3.
      apply Qmult_le_r in X3; [exact X3|exact P0]. }
    assert (EM : M = (2 ^ 53)%Z).
    { rewrite (pow2_Z 53) in HMge by lia. rewrite <- Zle_Qle in HMge. lia. }
    apply (round_abs_exact a (2 ^ 52)). fold e. rewrite Ea, Ee, EM.
    rewrite <- Qmult_assoc, <- pow2_add.
    replace (e0 + - (e0 + 1))%Z with (-1)%Z by lia. reflexivity.
Qed.

Lemma round_abs_representable a : 0 <= a -> representable (round_abs a).
Proof.
  intros Ha. exists (rne (a * 2 ^ (- ulp_exponent a))), (ulp_exponent a).
  split; [|split; [unfold ulp_exponent; lia|reflexivity]].
  split.
  - apply rne_nonneg, Qmult_le_0_compat; [exact Ha|apply Qlt_le_weak, pow2_pos].
  - rewrite <- (rne_Z (2 ^ 53)). apply rne_mono.
    destruct (Qeq_dec a 0) as [Z|Z].
    + generalize (2 ^ (- ulp_exponent a)). intros p. rewrite Z.
      rewrite Qmult_0_l. discriminate.
    + destruct (ulp_exponent_spec a (pos_of_nonzero a Ha Z)) as (_ & X2 & _).
      apply scale_le. rewrite <- pow2_Z by lia. rewrite <- pow2_add.
      replace (53 + ulp_exponent a)%Z with (ulp_exponent a + 53)%Z by lia. lra.
Qed.

Lemma round_abs_idem a : 0 <= a -> round_abs (round_abs a) == round_abs a.
Proof.
  intros Ha. apply round_abs_fix, round_abs_representable, Ha.
Qed.

Lemma round_abs_double a :
  2 ^ (-1022) <= a -> round_abs (2 * a) == 2 * round_abs a.
Proof.
  intros Hn. pose proof (pow2_pos (-1022)) as P.
  assert (Ha : 0 < a) by lra.
  destruct (ilog2_spec a Ha) as [K1 K2].
  assert (Hk : (-1022 <= ilog2 a)%Z).
  { assert (-1022 < ilog2 a + 1)%Z by (apply pow2_lt_inv; lra). lia. }
  assert (E2 : ilog2 (2 * a) = (ilog2 a + 1)%Z).
  { apply ilog2_unique.
    - rewrite pow2_succ. lra.
    - rewrite pow2_succ. lra. }
  unfold round_abs, ulp_exponent. rewrite E2.
  replace (Z.max (ilog2 a + 1 - 52) (-1074)) with (ilog2 a - 52 + 1)%Z by lia.
  replace (Z.max (ilog2 a - 52) (-1074)) with (ilog2 a - 52)%Z by lia.
  generalize (ilog2 a - 52)%Z. intros e.
  rewrite (rne_comp (2 * a * 2 ^ (- (e + 1))) (a * 2 ^ (- e))).
  - rewrite pow2_succ. ring.
  - replace (- e)%Z with (- (e + 1) + 1)%Z by lia. rewrite pow2_succ. ring.
Qed.

(** ** The rounding of signed numbers *)

Lemma round_spec q :
  round q == if Qle_bool 0 q then round_abs (Qabs q) else - round_abs (Qabs q).
Proof.
  unfold round. rewrite Qred_correct.
  assert (Eb : Qle_bool 0 (Qred q) = Qle_bool 0 q).
  { apply eq_true_iff_eq. rewrite !Qle_bool_iff, Qred_correct. reflexivity. }
  rewrite Eb.
  assert (Er : round_abs (Qabs (Qred q)) == round_abs (Qabs q)).
  { apply round_abs_comp; [apply Qabs_nonneg|]. rewrite Qred_correct. reflexivity. }
  destruct (Qle_bool 0 q); rewrite Er; reflexivity.
Qed.

Lemma round_nonneg_eq q : 0 <= q -> round q == round_abs q.
Proof.
  intros H. rewrite round_spec.
  apply Qle_bool_iff in H. rewrite H. apply Qle_bool_iff in H.
  apply round_abs_comp; [apply Qabs_nonneg|apply Qabs_pos, H].
Qed.

Lemma round_neg_eq q : q < 0 -> round q == - round_abs (- q).
Proof.
  intros H. rewrite round_spec.
  destruct (Qle_bool 0 q) eqn:E; [apply Qle_bool_iff in E; lra|].
  apply Qopp_comp, round_abs_comp; [apply Qabs_nonneg|apply Qabs_neg; lra].
Qed.

Lemma round_comp x y : x == y -> round x = round y.
Proof.
  intros H. unfold round. rewrite (Qred_complete x y H). reflexivity.
Qed.

Lemma round_canon x y : round x == y -> round x = Qred y.
Proof.
  intros H. unfold round in *. apply Qred_complete.
  rewrite Qred_correct in H. exact H.
Qed.

Lemma round_eq x y : round x == round y -> round x = round y.
Proof.
  intros H. rewrite (round_canon x (round y) H).
  unfold round. apply Qred_complete, Qred_correct.
Qed.

Lemma round_mono x y : x <= y -> round x <= round y.
Proof.
  intros H. destruct (Qlt_le_dec x 0) as [Hx|Hx]; destruct (Qlt_le_dec y 0) as [Hy|Hy].
  - rewrite (round_neg_eq x Hx), (round_neg_eq y Hy).
    apply Qopp_le_compat, round_abs_mono; lra.
  - rewrite (round_neg_eq x Hx), (round_nonneg_eq y Hy).
    pose proof (round_abs_nonneg (- x) ltac:(lra)).
    pose proof (round_abs_nonneg y Hy). lra.
  - lra.
  - rewrite (round_nonneg_eq x Hx), (round_nonneg_eq y Hy).
    apply round_abs_mono; assumption.
Qed.

Lemma round_opp q : round (- q) == - round q.
Proof.
  destruct (Qlt_le_dec q 0) as [H|H].
  - rewrite (round_neg_eq q H), (round_nonneg_eq (- q)) by lra. ring.
  - destruct (Qeq_dec q 0) as [Z|Z].
    + rewrite (round_comp (- q) 0), (round_comp q 0) by lra. reflexivity.
    + pose proof (pos_of_nonzero q H Z).
      rewrite (round_neg_eq (- q)), (round_nonneg_eq q) by lra.
      apply Qopp_comp, round_abs_comp; [lra|ring].
Qed.

Lemma round_fix q : representable (Qabs q) -> round q == q.
Proof.
  intros R. apply round_abs_fix in R. rewrite round_spec.
  destruct (Qle_bool 0 q) eqn:E.
  - apply Qle_bool_iff in E. rewrite R. apply Qabs_pos, E.
  - assert (q < 0).
    { apply Qnot_le_lt. intros H. apply Qle_bool_iff in H. congruence. }
    rewrite R, Qabs_neg by lra. ring.
Qed.

Lemma round_representable q : representable (Qabs (round q)).
Proof.
  destruct (Qlt_le_dec q 0) as [H|H].
  - destruct (round_abs_representable (- q) ltac:(lra)) as (M & e & HM & He & E).
    exists M, e. split; [exact HM|]. split; [exact He|].
    rewrite (round_neg_eq q H), Qabs_opp, Qabs_pos; [exact E|].
    apply round_abs_nonneg. lra.
  - destruct (round_abs_representable q H) as (M & e & HM & He & E).
    exists M, e. split; [exact HM|]. split; [exact He|].
    rewrite (round_nonneg_eq q H), Qabs_pos; [exact E|].
    apply round_abs_nonneg, H.
Qed.

Lemma round_idem q : round (round q) = round q.
Proof.
  rewrite (round_canon (round q) (round q))
    by apply round_fix, round_representable.
  unfold round. apply Qred_complete, Qred_correct.
Qed.

Lemma round_Z n : (Z.abs n <= 2 ^ 53)%Z -> round (inject_Z n) == inject_Z n.
Proof.
  intros H. apply round_fix. exists (Z.abs n), 0%Z.
  split; [lia|]. split; [lia|].
  change (2 ^ 0) with 1. rewrite Qmult_1_r.
  unfold inject_Z, Qabs. reflexivity.
Qed.

Lemma round_double q : 1 <= q -> round (2 * q) == 2 * round q.
Proof.
  intros H. rewrite !round_nonneg_eq by lra. apply round_abs_double.
  apply Qle_trans with 1; [|exact H].
  change 1 with (2 ^ 0). apply pow2_le. lia.
Qed.

(** The doubles of 0.1 and of 1/3; the integers from [2^53] on are no
    longer all doubles, a tie going to the even neighbour; half the
    smallest subnormal rounds to zero, three halves of it to twice it. *)
Example round_samples :
  round 0.1 = 3602879701896397 # 36028797018963968 /\
  round (1 # 3) = 6004799503160661 # 18014398509481984 /\
  round (inject_Z (2 ^ 53 + 1)) = inject_Z (2 ^ 53) /\
  round (inject_Z (2 ^ 53 + 3)) = inject_Z (2 ^ 53 + 4) /\
  round (2 ^ (-1075)) = 0 /\
  round (3 * 2 ^ (-1075)) == 2 ^ (-1073).
Proof. repeat split; vm_compute; reflexivity. Qed.

Lemma round_0 : round 0 = 0.
Proof. reflexivity. Qed.

Lemma round_1 : round 1 = 1.
Proof. vm_compute. reflexivity. Qed.

(** ** Floats of lengths and of scores *)

Lemma round_unit q : 0 <= q <= 1 -> 0 <= round q <= 1.
Proof.
  intros [H0 H1]. split.
  - rewrite <- round_0. apply round_mono, H0.
  - rewrite <- round_1. apply round_mono, H1.
Qed.

Lemma mul_unit x y : 0 <= x <= 1 -> 0 <= y <= 1 -> 0 <= mul x y <= 1.
Proof.
  intros Hx Hy. apply round_unit. nra.
Qed.

Lemma div_unit x y : 0 <= x -> x <= y -> 0 < y -> 0 <= div x y <= 1.
Proof.
  intros H0 Hxy Hy. apply round_unit. split.
  - apply Qle_shift_div_l; [exact Hy|]. lra.
  - apply Qle_shift_div_r; [exact Hy|]. lra.
Qed.

Lemma of_nat_mono n m : (n <= m)%nat -> of_nat n <= of_nat m.
Proof.
  intros H. apply round_mono. rewrite <- Zle_Qle. lia.
Qed.

Lemma of_nat_pos n : (1 <= n)%nat -> 1 <= of_nat n.
Proof.
  intros H. rewrite <- round_1. apply round_mono.
  change 1 with (inject_Z 1). rewrite <- Zle_Qle. lia.
Qed.

Lemma of_nat_exact n :
  (Z.of_nat n <= 2 ^ 53)%Z -> of_nat n == inject_Z (Z.of_nat n).
Proof.
  intros H. apply round_Z. lia.
Qed.

Lemma mul_comm x y : mul x y = mul y x.
Proof. apply round_comp, Qmult_comm. Qed.

Lemma mul_mono_l x x' y : 0 <= y -> x <= x' -> mul x y <= mul x' y.
Proof.
  intros Hy H. apply round_mono. nra.
Qed.

Lemma add_mono x x' y y' : x <= x' -> y <= y' -> add x y <= add x' y'.
Proof.
  intros Hx Hy. apply round_mono. lra.
Qed.

Lemma overflows_unit q : 0 <= q <= 1 -> overflows q = false.
Proof.
  intros H. apply round_unit in H. unfold overflows.
  destruct (Qle_bool (2 ^ 1024) (Qabs (round q))) eqn:E; [|reflexivity].
  apply Qle_bool_iff in E. rewrite Qabs_pos in E by tauto.
  pose proof (pow2_lt 0 1024 ltac:(lia)) as P. change (2 ^ 0) with 1 in P.
  exfalso. lra.
Qed.

Lemma fmul_unit x y :
  0 <= x <= 1 -> 0 <= y <= 1 ->
  fmul (Finite x) (Finite y) = Finite (mul x y) /\ 0 <= mul x y <= 1.
Proof.
  intros Hx Hy. unfold fmul.
  rewrite overflows_unit by nra. split; [reflexivity|].
  apply mul_unit; assumption.
Qed.

Lemma is_negative_false q : is_negative q = false <-> 0 <= q.
Proof.
  unfold is_negative. rewrite negb_false_iff. apply Qle_bool_iff.
Qed.

Lemma is_negative_true q : is_negative q = true <-> q < 0.
Proof.
  unfold is_negative. rewrite negb_true_iff. split.
  - intros H. apply Qnot_le_lt. intros L. apply Qle_bool_iff in L. congruence.
  - intros H. destruct (Qle_bool 0 q) eqn:E; [|reflexivity].
    apply Qle_bool_iff in E. lra.
Qed.

Lemma overflows_spec q :
  overflows q = true <-> 2 ^ 1024 <= round q \/ round q <= - 2 ^ 1024.
Proof.
  unfold overflows. rewrite Qle_bool_iff.
  pose proof (pow2_pos 1024) as P. split.
  - intros H. destruct (Qlt_le_dec (round q) 0) as [N|N].
    + rewrite Qabs_neg in H by lra. right. lra.
    + rewrite Qabs_pos in H by lra. left. exact H.
  - intros [H|H].
    + rewrite Qabs_pos by lra. exact H.
    + rewrite Qabs_neg by lra. lra.
Qed.

Lemma round_sign_nonneg q : 0 <= q -> 0 <= round q.
Proof. intros H. rewrite <- round_0. apply round_mono, H. Qed.

Lemma round_sign_nonpos q : q <= 0 -> round q <= 0.
Proof. intros H. rewrite <- round_0. apply round_mono, H. Qed.

(** The float product does not decrease with its second factor when the
    first is not negative, overflow to an infinity included. *)
Lemma fmul_mono x t1 t2 :
  0 <= x -> t1 <= t2 ->
  gt (fmul (Finite x) (Finite t1)) (fmul (Finite x) (Finite t2)) = false.
Proof.
  intros Hx Ht. assert (Hp : x * t1 <= x * t2) by nra.
  pose proof (round_mono _ _ Hp) as Hr. pose proof (pow2_pos 1024) as P.
  unfold fmul.
  destruct (overflows (x * t1)) eqn:O1; destruct (overflows (x * t2)) eqn:O2;
    cbn [gt].
  - destruct (is_negative (x * t1)) eqn:S1; [reflexivity|]. simpl.
    apply is_negative_false in S1. apply is_negative_false. lra.
  - rewrite negb_false_iff. apply is_negative_true.
    apply Qnot_le_lt. intros N. apply round_sign_nonneg in N.
    apply overflows_spec in O1. destruct O1 as [O1|O1]; [|lra].
    assert (O : overflows (x * t2) = true) by (apply overflows_spec; left; lra).
    congruence.
  - apply is_negative_false. apply Qnot_lt_le. intros N.
    apply Qlt_le_weak, round_sign_nonpos in N.
    apply overflows_spec in O2. destruct O2 as [O2|O2]; [lra|].
    assert (O : overflows (x * t1) = true) by (apply overflows_spec; right; lra).
    congruence.
  - rewrite negb_false_iff. apply Qle_bool_iff. exact Hr.
Qed.

(** [x > c] fails for a threshold above one it fails for. *)
Lemma gt_false_mono x c c' :
  c <= c' -> gt x (Finite c) = false -> gt x (Finite c') = false.
Proof.
  intros Hc. destruct x as [q|[|]|]; simpl; try congruence.
  rewrite !negb_false_iff, !Qle_bool_iff. lra.
Qed.

Lemma div_self x : 0 < x -> div x x = 1.
Proof.
  intros H. unfold div. rewrite <- round_1. apply round_comp.
  field. lra.
Qed.

Lemma div_0 y : div 0 y = 0.
Proof.
  unfold div. rewrite <- round_0 at 2. apply round_comp.
  unfold Qdiv. ring.
Qed.

(** Doubling is exact: [2.0 * float(m)] is [float(2 * m)]. *)
Lemma of_nat_double m : mul 2 (of_nat m) = of_nat (2 * m).
Proof.
  destruct m as [|m]; [reflexivity|].
  unfold mul, of_nat.
  assert (H1 : 1 <= inject_Z (Z.of_nat (S m))).
  { change 1 with (inject_Z 1). rewrite <- Zle_Qle. lia. }
  rewrite (round_comp (2 * round (inject_Z (Z.of_nat (S m))))
             (round (2 * inject_Z (Z.of_nat (S m)))))
    by (symmetry; apply round_double, H1).
  rewrite round_idem. apply round_comp.
  rewrite Nat2Z.inj_mul, inject_Z_mult. reflexivity.
Qed.

End FloatFacts.

(** ** The matcher stays inside its window *)

Module DifflibFacts.
Import Difflib.

Section Bounds.
Variables a b : list ascii.

Definition j2len_ok (alo blo bhi n : nat) (m : gmap nat nat) : Prop :=
  forall j v, m !! j = Some v -> blo <= j < bhi /\ v + alo <= n /\ v + blo <= S j.

Definition best_ok (alo blo bhi n : nat) (x : Match) : Prop :=
  alo <= m_a x /\ m_a x + m_size x <= n /\
  blo <= m_b x /\ m_b x + m_size x <= bhi.

Lemma j2lenget_pred_bound alo blo bhi i j2len j :
  alo <= i -> blo <= j -> j2len_ok alo blo bhi i j2len ->
  j2lenget_pred j2len j + 1 + alo <= S i /\ j2lenget_pred j2len j + 1 + blo <= S j.
Proof.
  intros Hi Hj Hok. destruct j as [|j']; simpl; [lia|].
  destruct (j2len !! j') as [v|] eqn:E; simpl; [|lia].
  destruct (Hok _ _ E) as (? & ? & ?). lia.
Qed.

Lemma row_loop_ok alo blo bhi i j2len js :
  alo <= i -> j2len_ok alo blo bhi i j2len ->
  forall new best,
    j2len_ok alo blo bhi (S i) new -> best_ok alo blo bhi (S i) best ->
    j2len_ok alo blo bhi (S i) (row_loop j2len i blo bhi js new best).1 /\
    best_ok alo blo bhi (S i) (row_loop j2len i blo bhi js new best).2.
Proof.
  intros Hi Hok. induction js as [|j js IH]; intros new best Hnew Hbest; simpl.
  - auto.
  - destruct (Nat.ltb_spec j blo); [auto|].
    destruct (Nat.leb_spec bhi j); [auto|].
    destruct (j2lenget_pred_bound alo blo bhi i j2len j Hi ltac:(lia) Hok) as [Ha Hb].
    apply IH.
    + intros j0 v. rewrite lookup_insert. case_decide.
      * intros [= <-]. subst j0. lia.
      * apply Hnew.
    + destruct (Nat.ltb_spec (m_size best) (j2lenget_pred j2len j + 1)); [|exact Hbest].
      unfold best_ok; simpl. lia.
Qed.

Lemma best_ok_mono alo blo bhi n n' x :
  n <= n' -> best_ok alo blo bhi n x -> best_ok alo blo bhi n' x.
Proof. unfold best_ok. lia. Qed.

Lemma rows_ok alo blo bhi n :
  forall i st, alo <= i ->
    j2len_ok alo blo bhi i st.1 -> best_ok alo blo bhi i st.2 ->
    j2len_ok alo blo bhi (i + n) (fold_left (row_step a b blo bhi) (seq i n) st).1 /\
    best_ok alo blo bhi (i + n) (fold_left (row_step a b blo bhi) (seq i n) st).2.
Proof.
  induction n as [|n IH]; intros i st Hi Hj Hb; simpl.
  - rewrite Nat.add_0_r. auto.
  - replace (i + S n) with (S i + n) by lia.
    unfold row_step at 2 4.
    destruct (row_loop_ok alo blo bhi i st.1 (b2j_get b (a !! i)) Hi Hj ∅ st.2) as [H1 H2].
    + intros j v. rewrite lookup_empty. discriminate.
    + eapply best_ok_mono; [|exact Hb]. lia.
    + apply IH; [lia|exact H1|exact H2].
Qed.

Lemma scan_ok alo ahi blo bhi :
  alo <= ahi -> blo <= bhi ->
  best_ok alo blo bhi ahi (scan a b alo ahi blo bhi).2.
Proof.
  intros Ha Hb. unfold scan.
  destruct (rows_ok alo blo bhi (ahi - alo) alo (∅, mkMatch alo blo 0)) as [_ H].
  - lia.
  - intros j v. simpl. rewrite lookup_empty. discriminate.
  - unfold best_ok; simpl. lia.
  - replace (alo + (ahi - alo)) with ahi in H by lia. exact H.
Qed.

Lemma extend_low_ok junk alo blo besti :
  forall bestj bestsize,
    alo <= besti -> blo <= bestj ->
    let m := extend_low a b junk alo blo besti bestj bestsize in
    alo <= m_a m /\ blo <= m_b m /\
    m_a m + m_size m = besti + bestsize /\
    m_b m + m_size m = bestj + bestsize /\
    bestsize <= m_size m.
Proof.
  induction besti as [|i IH]; intros bestj bestsize Ha Hb; simpl.
  - lia.
  - destruct bestj as [|j]; simpl; [lia|].
    destruct (_ && _ && _ && _) eqn:E; simpl; [|lia].
    repeat (apply andb_prop in E; destruct E as [E ?]).
    apply Nat.ltb_lt in E. match goal with H : (blo <? S j) = true |- _ => apply Nat.ltb_lt in H end.
    specialize (IH j (S bestsize) ltac:(lia) ltac:(lia)). simpl in IH. lia.
Qed.

Lemma extend_high_ok junk ahi bhi besti bestj n :
  forall bestsize,
    besti + bestsize <= ahi -> bestj + bestsize <= bhi ->
    let s := extend_high a b junk n ahi bhi besti bestj bestsize in
    bestsize <= s /\ besti + s <= ahi /\ bestj + s <= bhi.
Proof.
  induction n as [|n IH]; intros bestsize Ha Hb; simpl; [lia|].
  destruct (_ && _ && _ && _) eqn:E; [|lia].
  repeat (apply andb_prop in E; destruct E as [E ?]).
  apply Nat.ltb_lt in E. match goal with H : (bestj + bestsize <? bhi) = true |- _ => apply Nat.ltb_lt in H end.
  specialize (IH (S bestsize) ltac:(lia) ltac:(lia)). simpl in IH. lia.
Qed.

(** The bound [extend] gives [extend_high] is never what stops the loop. *)
Lemma extend_high_step junk n ahi bhi besti bestj bestsize :
  extend_high a b junk (S n) ahi bhi besti bestj bestsize =
  if (besti + bestsize <? ahi) && (bestj + bestsize <? bhi)
     && Bool.eqb (isbjunk (b !! (bestj + bestsize))) junk
     && elt_eqb (a !! (besti + bestsize)) (b !! (bestj + bestsize))
  then extend_high a b junk n ahi bhi besti bestj (S bestsize)
  else bestsize.
Proof. reflexivity. Qed.

Lemma extend_high_fuel junk ahi bhi besti bestj n :
  forall bestsize,
    ahi - (besti + bestsize) <= n ->
    extend_high a b junk (S n) ahi bhi besti bestj bestsize =
    extend_high a b junk n ahi bhi besti bestj bestsize.
Proof.
  induction n as [|n IH]; intros bestsize H.
  - rewrite extend_high_step.
    destruct (Nat.ltb_spec (besti + bestsize) ahi); [lia|reflexivity].
  - rewrite (extend_high_step junk (S n) ahi bhi besti bestj bestsize),
      (extend_high_step junk n ahi bhi besti bestj bestsize).
    destruct (_ && _ && _ && _); [|reflexivity].
    apply IH. lia.
Qed.

Lemma extend_ok junk alo ahi blo bhi m :
  best_ok alo blo bhi ahi m ->
  best_ok alo blo bhi ahi (extend a b junk alo ahi blo bhi m) /\
  m_size m <= m_size (extend a b junk alo ahi blo bhi m).
Proof.
  intros (H1 & H2 & H3 & H4). unfold extend.
  pose proof (extend_low_ok junk alo blo (m_a m) (m_b m) (m_size m) H1 H3) as L.
  cbv zeta in L. destruct L as (L1 & L2 & L3 & L4 & L5).
  set (m1 := extend_low a b junk alo blo (m_a m) (m_b m) (m_size m)) in *.
  pose proof (extend_high_ok junk ahi bhi (m_a m1) (m_b m1)
                (ahi - (m_a m1 + m_size m1)) (m_size m1) ltac:(lia) ltac:(lia)) as R.
  cbv zeta in R. unfold best_ok; simpl. lia.
Qed.

Lemma find_longest_match_ok alo ahi blo bhi :
  alo <= ahi -> blo <= bhi ->
  best_ok alo blo bhi ahi (find_longest_match a b alo ahi blo bhi).
Proof.
  intros Ha Hb. unfold find_longest_match.
  apply extend_ok, extend_ok, scan_ok; assumption.
Qed.

End Bounds.

(** ** The work list ends, and the blocks fit in both sequences *)

Section Blocks.
Variables a b : list ascii.

Definition sizes (l : list Match) : nat := list_sum (map m_size l).

Definition valid (w : window) : Prop :=
  let '(alo, ahi, blo, bhi) := w in alo <= ahi /\ blo <= bhi.

Definition span_a (w : window) : nat := let '(alo, ahi, _, _) := w in ahi - alo.
Definition span_b (w : window) : nat := let '(_, _, blo, bhi) := w in bhi - blo.

Definition weight (q : list window) : nat :=
  list_sum (map (fun w => S (2 * span_a w)) q).

Lemma sizes_app l1 l2 : sizes (l1 ++ l2) = sizes l1 + sizes l2.
Proof. unfold sizes. rewrite map_app, list_sum_app. reflexivity. Qed.

Ltac sum_cons :=
  cbn [map span_a span_b];
  repeat match goal with
         | |- context [list_sum (?x :: ?l)] =>
             change (list_sum (x :: l)) with (x + list_sum l)
         end.

Lemma weight_cons w q : weight (w :: q) = S (2 * span_a w) + weight q.
Proof. reflexivity. Qed.

Lemma blocks_loop_step fuel alo ahi blo bhi q acc :
  blocks_loop a b (S fuel) ((alo, ahi, blo, bhi) :: q) acc =
  let x := find_longest_match a b alo ahi blo bhi in
  if m_size x =? 0 then blocks_loop a b fuel q acc
  else
    let q1 := if (alo <? m_a x) && (blo <? m_b x)
              then (alo, m_a x, blo, m_b x) :: q else q in
    let q2 := if (m_a x + m_size x <? ahi) && (m_b x + m_size x <? bhi)
              then (m_a x + m_size x, ahi, m_b x + m_size x, bhi) :: q1 else q1 in
    blocks_loop a b fuel q2 (acc ++ [x]).
Proof. reflexivity. Qed.

Lemma blocks_loop_nil fuel acc : blocks_loop a b fuel [] acc = Some acc.
Proof. destruct fuel; reflexivity. Qed.

Lemma blocks_loop_total fuel :
  forall q acc,
    Forall valid q -> weight q <= fuel ->
    exists r, blocks_loop a b fuel q acc = Some r /\
              sizes r <= sizes acc + list_sum (map span_a q) /\
              sizes r <= sizes acc + list_sum (map span_b q).
Proof.
  induction fuel as [|fuel IH]; intros q acc Hv Hw.
  - destruct q as [|w q].
    + exists acc. split; [reflexivity|lia].
    + rewrite weight_cons in Hw. lia.
  - destruct q as [|[[[alo ahi] blo] bhi] q].
    + exists acc. split; [reflexivity|lia].
    + inversion Hv as [|w q0 Hab Hq]; subst. destruct Hab as [Ha Hb].
      rewrite weight_cons in Hw. cbn [span_a] in Hw.
      pose proof (find_longest_match_ok a b alo ahi blo bhi Ha Hb) as (B1 & B2 & B3 & B4).
      rewrite blocks_loop_step. cbv zeta.
      set (x := find_longest_match a b alo ahi blo bhi) in *. clearbody x.
      destruct (Nat.eqb_spec (m_size x) 0) as [E|E].
      * destruct (IH q acc Hq ltac:(lia)) as (r & Hr & S1 & S2).
        exists r. split; [exact Hr|]. sum_cons. lia.
      * set (q1 := if (alo <? m_a x) && (blo <? m_b x)
                   then (alo, m_a x, blo, m_b x) :: q else q).
        assert (V1 : Forall valid q1).
        { subst q1. destruct ((alo <? m_a x) && (blo <? m_b x)); [|exact Hq]. constructor; [simpl; lia|exact Hq]. }
        assert (W1 : weight q1 <= weight q + S (2 * (m_a x - alo)) /\
                     list_sum (map span_a q1) <= list_sum (map span_a q) + (m_a x - alo) /\
                     list_sum (map span_b q1) <= list_sum (map span_b q) + (m_b x - blo)).
        { subst q1. destruct ((alo <? m_a x) && (blo <? m_b x)); cbv iota;
            [rewrite weight_cons|]; sum_cons; lia. }
        clearbody q1. destruct W1 as (W1 & W1a & W1b).
        set (q2 := if (m_a x + m_size x <? ahi) && (m_b x + m_size x <? bhi)
                   then (m_a x + m_size x, ahi, m_b x + m_size x, bhi) :: q1 else q1).
        assert (V2 : Forall valid q2).
        { subst q2. destruct ((m_a x + m_size x <? ahi) && (m_b x + m_size x <? bhi)); [|exact V1]. constructor; [simpl; lia|exact V1]. }
        assert (W2 : weight q2 + 1 <= weight q + S (2 * (ahi - alo)) /\
                     list_sum (map span_a q2) + m_size x <= list_sum (map span_a q) + (ahi - alo) /\
                     list_sum (map span_b q2) + m_size x <= list_sum (map span_b q) + (bhi - blo)).
        { subst q2. destruct ((m_a x + m_size x <? ahi) && (m_b x + m_size x <? bhi)); cbv iota;
            [rewrite weight_cons|]; sum_cons; lia. }
        clearbody q2.
        destruct (IH q2 (acc ++ [x]) V2 ltac:(lia)) as (r & Hr & S1 & S2).
        exists r. split; [exact Hr|].
        rewrite sizes_app in S1, S2.
        replace (sizes [x]) with (m_size x) in S1, S2 by (unfold sizes; simpl; lia).
        sum_cons. lia.
Qed.

Lemma raw_blocks_total :
  exists r, raw_blocks a b = Some r /\
            sizes r <= length a /\ sizes r <= length b.
Proof.
  destruct (blocks_loop_total (blocks_fuel a) [(0, length a, 0, length b)] [])
    as (r & Hr & S1 & S2).
  - constructor; [simpl; lia|constructor].
  - unfold weight, blocks_fuel; simpl. lia.
  - exists r. split; [exact Hr|]. unfold sizes in *; simpl in *. lia.
Qed.

Lemma sizes_insert_block x l : sizes (insert_block x l) = m_size x + sizes l.
Proof.
  induction l as [|y l IH]; simpl; [reflexivity|].
  destruct (match_leb x y); [reflexivity|].
  unfold sizes in *; simpl. rewrite IH. lia.
Qed.

Lemma sizes_sort_blocks l : sizes (sort_blocks l) = sizes l.
Proof.
  induction l as [|x l IH]; simpl; [reflexivity|].
  rewrite sizes_insert_block, IH. reflexivity.
Qed.

Lemma sizes_collapse l : forall i1 j1 k1, sizes (collapse i1 j1 k1 l) = k1 + sizes l.
Proof.
  induction l as [|x l IH]; intros i1 j1 k1; simpl.
  - destruct (Nat.eqb_spec k1 0); unfold sizes; simpl; lia.
  - destruct (_ && _).
    + rewrite IH. unfold sizes; simpl. lia.
    + rewrite sizes_app, IH.
      destruct (Nat.eqb_spec k1 0); unfold sizes; simpl; lia.
Qed.

Lemma sizes_get_matching_blocks :
  sizes (get_matching_blocks a b) = sizes (default [] (raw_blocks a b)).
Proof.
  unfold get_matching_blocks.
  rewrite sizes_app, sizes_collapse, sizes_sort_blocks.
  unfold sizes at 2; simpl. lia.
Qed.

Lemma matched_le :
  sizes (get_matching_blocks a b) <= length a /\
  sizes (get_matching_blocks a b) <= length b.
Proof.
  rewrite sizes_get_matching_blocks.
  destruct raw_blocks_total as (r & -> & H1 & H2). simpl. auto.
Qed.

Lemma calculate_ratio_unit m n : 2 * m <= n -> (0 <= calculate_ratio m n <= 1)%Q.
Proof.
  intros H. unfold calculate_ratio.
  destruct (Nat.eqb_spec n 0) as [E|E]; [split; discriminate|].
  rewrite FloatFacts.of_nat_double.
  pose proof (FloatFacts.of_nat_pos n ltac:(lia)) as Hn.
  apply FloatFacts.div_unit.
  - change 0%Q with (Float.of_nat 0). apply FloatFacts.of_nat_mono. lia.
  - apply FloatFacts.of_nat_mono, H.
  - lra.
Qed.

Lemma calculate_ratio_full n : calculate_ratio n (n + n) = 1%Q.
Proof.
  unfold calculate_ratio.
  destruct (Nat.eqb_spec (n + n) 0) as [E|E]; [reflexivity|].
  rewrite FloatFacts.of_nat_double. replace (2 * n) with (n + n) by lia.
  apply FloatFacts.div_self.
  pose proof (FloatFacts.of_nat_pos (n + n) ltac:(lia)). lra.
Qed.

(** Below [2^53] the lengths are exact as floats, and the largest
    quotient below 1 rounds to a double below 1.0. *)
Lemma calculate_ratio_one_inv m n :
  2 * m <= n -> (Z.of_nat n < 2 ^ 53)%Z ->
  (calculate_ratio m n == 1)%Q -> 2 * m = n.
Proof.
  intros Hm Hn. unfold calculate_ratio.
  destruct (Nat.eqb_spec n 0) as [E|E]; [intros _; lia|].
  rewrite FloatFacts.of_nat_double. intros H.
  destruct (Nat.eq_dec (2 * m) n) as [|Hne]; [assumption|exfalso].
  set (c := (1 - (1 # 9007199254740992))%Q).
  assert (Hc : Float.round c = c) by (vm_compute; reflexivity).
  assert (Hle : (Float.div (Float.of_nat (2 * m)) (Float.of_nat n) <= c)%Q).
  { rewrite <- Hc. unfold Float.div. apply FloatFacts.round_mono.
    rewrite (FloatFacts.of_nat_exact (2 * m)), (FloatFacts.of_nat_exact n) by lia.
    assert (HA : (inject_Z (Z.of_nat (2 * m)) + 1 <= inject_Z (Z.of_nat n))%Q).
    { change 1%Q with (inject_Z 1). rewrite <- inject_Z_plus, <- Zle_Qle. lia. }
    assert (HN : (inject_Z (Z.of_nat n) <= 9007199254740992)%Q).
    { change 9007199254740992%Q with (inject_Z (2 ^ 53)). rewrite <- Zle_Qle. lia. }
    assert (HP : (0 < inject_Z (Z.of_nat n))%Q).
    { change 0%Q with (inject_Z 0). rewrite <- Zlt_Qlt. lia. }
    apply Qle_shift_div_r; [exact HP|]. unfold c. lra. }
  rewrite H in Hle. vm_compute in Hle. apply Hle. reflexivity.
Qed.

Lemma calculate_ratio_none n : n <> 0 -> calculate_ratio 0 n = 0%Q.
Proof.
  intros H. unfold calculate_ratio.
  destruct (Nat.eqb_spec n 0) as [E|E]; [contradiction|].
  rewrite FloatFacts.of_nat_double. apply FloatFacts.div_0.
Qed.

Lemma ratio_unit : (0 <= ratio a b <= 1)%Q.
Proof.
  unfold ratio. apply calculate_ratio_unit.
  destruct matched_le. fold (sizes (get_matching_blocks a b)). lia.
Qed.

End Blocks.

(** ** What [b2j] holds *)

Section Index.
Variable b : list ascii.

(** The indices at which [c] occurs in [l], counted from [off]. *)
Fixpoint occ (c : ascii) (l : list ascii) (off : nat) : list nat :=
  match l with
  | [] => []
  | d :: l' => (if decide (d = c) then [off] else []) ++ occ c l' (S off)
  end.

Definition popular (c : ascii) : bool :=
  (200 <=? length b) && negb (length (occ c b 0) <=? ntest b).

Lemma chain_fold (l : list ascii) :
  forall off (m : gmap ascii (list nat)) c,
    default [] (fold_left chain_step (imap (fun i => pair (off + i)) l) m !! c)
    = default [] (m !! c) ++ occ c l off.
Proof.
  induction l as [|d l IH]; intros off m c; simpl.
  - rewrite app_nil_r. reflexivity.
  - rewrite (imap_ext _ (fun i => pair (S off + i))) by (intros; simpl; f_equal; lia).
    rewrite IH. unfold chain_step; simpl. rewrite Nat.add_0_r.
    rewrite lookup_insert. destruct (decide (d = c)) as [->|Hne]; simpl.
    + rewrite <- app_assoc. reflexivity.
    + reflexivity.
Qed.

Lemma b2j_full_spec c : default [] (b2j_full b !! c) = occ c b 0.
Proof.
  unfold b2j_full.
  rewrite (imap_ext _ (fun i => pair (0 + i))) by reflexivity.
  rewrite chain_fold, lookup_empty. reflexivity.
Qed.

Lemma b2j_get_spec c :
  b2j_get b (Some c) = if popular c then [] else occ c b 0.
Proof.
  unfold b2j_get, b2j, popular.
  destruct (200 <=? length b); simpl; [|apply b2j_full_spec].
  pose proof (b2j_full_spec c) as H.
  destruct (b2j_full b !! c) as [v|] eqn:E; simpl in H; subst.
  - destruct (Nat.leb_spec (length (occ c b 0)) (ntest b)); simpl.
    + erewrite map_lookup_filter_Some_2; [reflexivity|exact E|simpl; lia].
    + rewrite map_lookup_filter_None_2; [reflexivity|].
      right. intros x Hx. rewrite E in Hx. injection Hx as <-. simpl. lia.
  - rewrite map_lookup_filter_None_2 by (left; exact E).
    rewrite <- H. destruct (_ <=? _); reflexivity.
Qed.

Lemma occ_app c l1 : forall l2 off,
  occ c (l1 ++ l2) off = occ c l1 off ++ occ c l2 (off + length l1).
Proof.
  induction l1 as [|d l1 IH]; intros l2 off; simpl.
  - rewrite Nat.add_0_r. reflexivity.
  - rewrite IH, <- app_assoc.
    replace (off + S (length l1)) with (S off + length l1) by lia. reflexivity.
Qed.

Lemma occ_spec c l : forall off j,
  j ∈ occ c l off -> off <= j < off + length l /\ l !! (j - off) = Some c.
Proof.
  induction l as [|d l IH]; intros off j; simpl.
  - intros H. inversion H.
  - rewrite elem_of_app. intros [H|H].
    + destruct (decide (d = c)) as [->|]; [|inversion H].
      apply list_elem_of_singleton in H. subst j.
      rewrite Nat.sub_diag. simpl. split; [lia|reflexivity].
    + apply IH in H. destruct H as [H1 H2]. split; [lia|].
      replace (j - off) with (S (j - S off)) by lia. exact H2.
Qed.

Lemma occ_split c i :
  b !! i = Some c ->
  exists js1 js2,
    occ c b 0 = js1 ++ i :: js2 /\
    (forall j, j ∈ js1 -> j < i /\ b !! j = Some c) /\
    (forall j, j ∈ js2 -> i < j < length b /\ b !! j = Some c).
Proof.
  intros Hi.
  pose proof (take_drop_middle b i c Hi) as Hb.
  pose proof (lookup_lt_Some _ _ _ Hi) as Hlt.
  exists (occ c (take i b) 0), (occ c (drop (S i) b) (S i)).
  split; [|split].
  - rewrite <- Hb at 1. rewrite occ_app. simpl.
    rewrite decide_True by reflexivity.
    rewrite length_take, Nat.min_l by lia. reflexivity.
  - intros j Hj. apply occ_spec in Hj. destruct Hj as [H1 H2].
    rewrite length_take in H1. rewrite Nat.sub_0_r in H2.
    rewrite lookup_take_Some in H2. destruct H2. split; [lia|assumption].
  - intros j Hj. apply occ_spec in Hj. destruct Hj as [H1 H2].
    rewrite length_drop in H1. rewrite lookup_drop in H2.
    replace (S i + (j - S i)) with j in H2 by lia. split; [lia|assumption].
Qed.

End Index.

(** ** The inner loop as a fold *)

Section Rows.
Variables (j2len : gmap nat nat) (i blo bhi : nat).

Lemma row_loop_app js1 : forall js2 new best,
  Forall (fun j => j < bhi) js1 ->
  row_loop j2len i blo bhi (js1 ++ js2) new best =
  row_loop j2len i blo bhi js2
    (row_loop j2len i blo bhi js1 new best).1
    (row_loop j2len i blo bhi js1 new best).2.
Proof.
  induction js1 as [|j js1 IH]; intros js2 new best Hlt; simpl.
  - reflexivity.
  - inversion Hlt as [|? ? Hj Hrest]; subst.
    destruct (j <? blo); [apply IH; exact Hrest|].
    destruct (Nat.leb_spec bhi j); [lia|].
    apply IH; exact Hrest.
Qed.

Lemma row_loop_lookup js : forall new best j,
  Forall (fun j => blo <= j < bhi) js ->
  (row_loop j2len i blo bhi js new best).1 !! j =
  if decide (j ∈ js) then Some (j2lenget_pred j2len j + 1) else new !! j.
Proof.
  induction js as [|x js IH]; intros new best j Hin.
  - destruct (decide (j ∈ [])) as [H|_]; [inversion H|reflexivity].
  - inversion Hin as [|? ? Hx Hrest]; subst. cbn [row_loop].
    destruct (Nat.ltb_spec x blo); [lia|].
    destruct (Nat.leb_spec bhi x); [lia|].
    rewrite IH by exact Hrest.
    destruct (decide (j ∈ js)) as [Hj|Hj].
    + rewrite decide_True by (right; exact Hj). reflexivity.
    + rewrite lookup_insert. destruct (decide (x = j)) as [->|Hne].
      * rewrite decide_True by left. reflexivity.
      * rewrite decide_False; [reflexivity|].
        rewrite elem_of_cons. intros [->|?]; tauto.
Qed.

Lemma row_loop_keep js : forall new best,
  (forall j, j ∈ js -> j2lenget_pred j2len j + 1 <= m_size best) ->
  (row_loop j2len i blo bhi js new best).2 = best.
Proof.
  induction js as [|x js IH]; intros new best Hle; simpl.
  - reflexivity.
  - assert (Hrest : forall j, j ∈ js -> j2lenget_pred j2len j + 1 <= m_size best).
    { intros j Hj. apply Hle. right. exact Hj. }
    destruct (x <? blo); [apply IH; exact Hrest|].
    destruct (bhi <=? x); [reflexivity|].
    destruct (Nat.ltb_spec (m_size best) (j2lenget_pred j2len x + 1)) as [Hlt|_].
    + specialize (Hle x ltac:(left)). lia.
    + apply IH; exact Hrest.
Qed.

End Rows.

(** ** A sequence matched against itself *)

Lemma isbjunk_false x : isbjunk x = false.
Proof.
  destruct x as [c|]; [|reflexivity].
  unfold isbjunk, bjunk. apply bool_decide_eq_false_2, not_elem_of_empty.
Qed.

Lemma extend_low_junk a b alo blo besti bestj bestsize :
  extend_low a b true alo blo besti bestj bestsize = mkMatch besti bestj bestsize.
Proof.
  destruct besti as [|i']; destruct bestj as [|j']; simpl; try reflexivity.
  rewrite isbjunk_false. simpl. rewrite andb_false_r. reflexivity.
Qed.

Lemma extend_high_junk a b n ahi bhi besti bestj bestsize :
  extend_high a b true n ahi bhi besti bestj bestsize = bestsize.
Proof.
  destruct n; simpl; [reflexivity|].
  rewrite isbjunk_false. simpl. rewrite andb_false_r. reflexivity.
Qed.

Lemma extend_junk a b alo ahi blo bhi m : extend a b true alo ahi blo bhi m = m.
Proof.
  unfold extend. rewrite extend_low_junk. simpl. rewrite extend_high_junk.
  destruct m; reflexivity.
Qed.

Section Same.
Variable b : list ascii.

Definition nonpop_at (j : nat) : bool :=
  match b !! j with
  | Some c => negb (popular b c)
  | None => false
  end.

(** The number of consecutive unpurged elements that end at [r]. *)
Fixpoint run (r : nat) : nat :=
  match r with
  | O => if nonpop_at 0 then 1 else 0
  | S r' => if nonpop_at (S r') then S (run r') else 0
  end.

Definition runp (j : nat) : nat :=
  match j with
  | O => 0
  | S j' => run j'
  end.

Lemma run_eq j : run j = if nonpop_at j then S (runp j) else 0.
Proof. destruct j; reflexivity. Qed.

Definition diag (i : nat) (st : gmap nat nat * Match) : Prop :=
  m_a st.2 = m_b st.2 /\
  (forall r, r < i -> run r <= m_size st.2) /\
  (forall j, j2lenget_pred st.1 j <= runp j /\ j2lenget_pred st.1 j <= runp i) /\
  j2lenget_pred st.1 i = runp i.

Lemma j2lenget_pred_empty j : j2lenget_pred ∅ j = 0.
Proof. destruct j; simpl; [reflexivity|]. rewrite lookup_empty. reflexivity. Qed.

Lemma row_step_diag i st :
  i < length b -> diag i st -> diag (S i) (row_step b b 0 (length b) st i).
Proof.
  intros Hi (D & R & J & K). unfold row_step.
  destruct (lookup_lt_is_Some_2 b i Hi) as [c Hc].
  rewrite Hc, b2j_get_spec.
  assert (Hnp : nonpop_at i = negb (popular b c)).
  { unfold nonpop_at. rewrite Hc. reflexivity. }
  pose proof (run_eq i) as Hrun. rewrite Hnp in Hrun.
  destruct (popular b c) eqn:Hpop; simpl in Hrun.
  - simpl. unfold diag; simpl. split; [exact D|]. split; [|split].
    + intros r Hr. destruct (decide (r = i)) as [->|]; [lia|]. apply R. lia.
    + intros j. rewrite j2lenget_pred_empty. lia.
    + rewrite lookup_empty. simpl. lia.
  - destruct (occ_split b c i Hc) as (js1 & js2 & Hocc & H1 & H2).
    set (k := fun j => j2lenget_pred st.1 j + 1).
    assert (Hk : forall j, b !! j = Some c -> k j <= run j /\ k j <= run i).
    { intros j Hj. rewrite (run_eq j). unfold nonpop_at. rewrite Hj, Hpop. simpl.
      destruct (J j). unfold k. lia. }
    assert (Hki : k i = run i) by (unfold k; lia).
    assert (Hwin : Forall (fun j => 0 <= j < length b) (occ c b 0)).
    { apply Forall_forall. intros j Hj. apply occ_spec in Hj. simpl in Hj. lia. }
    assert (Hmem : forall j, j ∈ occ c b 0 -> b !! j = Some c).
    { intros j Hj. apply occ_spec in Hj. rewrite Nat.sub_0_r in Hj. tauto. }
    assert (Hbest :
      (row_loop st.1 i 0 (length b) (occ c b 0) ∅ st.2).2 =
      if m_size st.2 <? k i then mkMatch (S i - k i) (S i - k i) (k i) else st.2).
    { rewrite Hocc, row_loop_app.
      2:{ apply Forall_forall. intros j Hj. apply H1 in Hj. lia. }
      rewrite (row_loop_keep st.1 i 0 (length b) js1).
      2:{ intros j Hj. destruct (H1 j Hj) as [Hlt Hb].
          specialize (R j Hlt). destruct (Hk j Hb). fold (k j). lia. }
      simpl. destruct (Nat.leb_spec (length b) i); [lia|].
      fold (k i). apply row_loop_keep.
      intros j Hj. destruct (H2 j Hj) as [_ Hb]. destruct (Hk j Hb).
      fold (k j). destruct (Nat.ltb_spec (m_size st.2) (k i)); simpl; lia. }
    assert (Hmap : forall j,
      (row_loop st.1 i 0 (length b) (occ c b 0) ∅ st.2).1 !! j =
      if decide (j ∈ occ c b 0) then Some (k j) else None).
    { intros j. rewrite row_loop_lookup by exact Hwin.
      rewrite lookup_empty. reflexivity. }
    unfold diag. rewrite Hbest. split; [|split; [|split]].
    + destruct (_ <? _); [reflexivity|exact D].
    + intros r Hr.
      assert (m_size st.2 <= m_size (if m_size st.2 <? k i
                then mkMatch (S i - k i) (S i - k i) (k i) else st.2) /\
              k i <= m_size (if m_size st.2 <? k i
                then mkMatch (S i - k i) (S i - k i) (k i) else st.2)) as [G1 G2].
      { destruct (Nat.ltb_spec (m_size st.2) (k i)); simpl; lia. }
      destruct (decide (r = i)) as [->|]; [lia|].
      specialize (R r ltac:(lia)). lia.
    + intros [|j]; simpl; [lia|]. rewrite Hmap.
      destruct (decide (j ∈ occ c b 0)) as [Hj|_]; simpl; [|lia].
      apply Hk, Hmem, Hj.
    + simpl. rewrite Hmap. rewrite decide_True; [simpl; lia|].
      rewrite Hocc. apply elem_of_app. right. left.
Qed.

Lemma rows_diag n : forall i st,
  i + n <= length b -> diag i st ->
  diag (i + n) (fold_left (row_step b b 0 (length b)) (seq i n) st).
Proof.
  induction n as [|n IH]; intros i st Hn Hd; simpl.
  - rewrite Nat.add_0_r. exact Hd.
  - replace (i + S n) with (S i + n) by lia.
    apply IH; [lia|]. apply row_step_diag; [lia|exact Hd].
Qed.

Lemma scan_diag : m_a (scan b b 0 (length b) 0 (length b)).2
  = m_b (scan b b 0 (length b) 0 (length b)).2.
Proof.
  unfold scan. rewrite Nat.sub_0_r.
  destruct (rows_diag (length b) 0 (∅, mkMatch 0 0 0)) as (D & _).
  - lia.
  - unfold diag; simpl. split; [reflexivity|]. split; [intros; lia|].
    split; [intros j; rewrite j2lenget_pred_empty; lia|reflexivity].
  - exact D.
Qed.

Lemma elt_eqb_same j : j < length b -> elt_eqb (b !! j) (b !! j) = true.
Proof.
  intros Hj. destruct (lookup_lt_is_Some_2 b j Hj) as [c ->].
  simpl. apply Ascii.eqb_refl.
Qed.

Lemma extend_low_same d : forall s,
  d <= length b -> extend_low b b false 0 0 d d s = mkMatch 0 0 (s + d).
Proof.
  induction d as [|d IH]; intros s Hd; simpl.
  - rewrite Nat.add_0_r. reflexivity.
  - rewrite isbjunk_false, elt_eqb_same by lia. simpl.
    rewrite IH by lia. f_equal. lia.
Qed.

Lemma extend_high_same fuel : forall s,
  s + fuel = length b ->
  extend_high b b false fuel (length b) (length b) 0 0 s = length b.
Proof.
  induction fuel as [|fuel IH]; intros s Hs; simpl.
  - lia.
  - rewrite isbjunk_false, elt_eqb_same by lia.
    destruct (Nat.ltb_spec s (length b)); [|lia]. simpl.
    apply IH. lia.
Qed.

Lemma find_longest_match_same :
  find_longest_match b b 0 (length b) 0 (length b) = mkMatch 0 0 (length b).
Proof.
  unfold find_longest_match. rewrite extend_junk.
  pose proof (scan_ok b b 0 (length b) 0 (length b) ltac:(lia) ltac:(lia))
    as (_ & B & _ & _).
  pose proof scan_diag as D.
  destruct (scan b b 0 (length b) 0 (length b)).2 as [d d' s].
  simpl in *. subst d'. unfold extend. simpl.
  rewrite extend_low_same by lia. simpl.
  rewrite extend_high_same by lia. reflexivity.
Qed.

Lemma get_matching_blocks_same :
  sizes (get_matching_blocks b b) = length b.
Proof.
  rewrite sizes_get_matching_blocks. unfold raw_blocks, blocks_fuel.
  rewrite blocks_loop_step, find_longest_match_same. cbv zeta. simpl m_size.
  destruct (Nat.eqb_spec (length b) 0) as [E|E].
  - destruct (length b + (length b + 0)); simpl; rewrite ?E; reflexivity.
  - simpl m_a. simpl m_b. rewrite Nat.ltb_irrefl. simpl andb.
    replace (0 + length b <? length b) with false
      by (symmetry; apply Nat.ltb_ge; lia).
    simpl andb. cbv iota.
    destruct (2 * length b); simpl; unfold sizes; simpl; lia.
Qed.

Lemma ratio_same : (ratio b b == 1)%Q.
Proof.
  unfold ratio. fold (sizes (get_matching_blocks b b)).
  rewrite get_matching_blocks_same, calculate_ratio_full. reflexivity.
Qed.

End Same.

(** ** An empty sequence against a non-empty one *)

Lemma ratio_nil_l b : b <> [] -> (ratio [] b == 0)%Q.
Proof.
  intros Hb. destruct b as [|c b]; [congruence|].
  unfold ratio. simpl. rewrite calculate_ratio_none by discriminate.
  reflexivity.
Qed.

Lemma rows_nil_r a blo bhi n : forall i st,
  fold_left (row_step a [] blo bhi) (seq i n) st = (if n =? 0 then st.1 else ∅, st.2).
Proof.
  induction n as [|n IH]; intros i st; simpl.
  - destruct st; reflexivity.
  - rewrite IH. unfold row_step, b2j_get. simpl.
    destruct (a !! i); simpl; destruct n; reflexivity.
Qed.

Lemma find_longest_match_nil_r a ahi :
  find_longest_match a [] 0 ahi 0 0 = mkMatch 0 0 0.
Proof.
  unfold find_longest_match. rewrite extend_junk.
  unfold scan. rewrite rows_nil_r. unfold extend. simpl.
  destruct (ahi - 0); simpl; [reflexivity|].
  rewrite andb_false_r. reflexivity.
Qed.

Lemma ratio_nil_r a : a <> [] -> (ratio a [] == 0)%Q.
Proof.
  intros Ha. unfold ratio.
  fold (sizes (get_matching_blocks a [])).
  rewrite sizes_get_matching_blocks. unfold raw_blocks, blocks_fuel.
  rewrite blocks_loop_step. simpl length.
  rewrite find_longest_match_nil_r. cbv zeta. simpl.
  destruct a as [|c a]; [congruence|].
  simpl. rewrite calculate_ratio_none by discriminate. reflexivity.
Qed.

(** ** Sequences with no element in common *)

Section Disjoint.
Variables a b : list ascii.
Hypothesis disjoint : forall c, c ∈ a -> c ∉ b.

Lemma occ_absent c l off : c ∉ l -> occ c l off = [].
Proof.
  revert off. induction l as [|d l IH]; intros off H; simpl; [reflexivity|].
  apply not_elem_of_cons in H. destruct H as [Hne Hl].
  rewrite decide_False by congruence. simpl. apply IH, Hl.
Qed.

Lemma b2j_get_disjoint i : b2j_get b (a !! i) = [].
Proof.
  destruct (a !! i) as [c|] eqn:E; [|reflexivity].
  rewrite b2j_get_spec, occ_absent.
  - destruct (popular b c); reflexivity.
  - apply disjoint. eapply list_elem_of_lookup_2, E.
Qed.

Lemma rows_disjoint blo bhi n : forall i st,
  (fold_left (row_step a b blo bhi) (seq i n) st).2 = st.2.
Proof.
  induction n as [|n IH]; intros i st; simpl; [reflexivity|].
  rewrite IH. unfold row_step. rewrite b2j_get_disjoint. reflexivity.
Qed.

Lemma elt_eqb_disjoint i j : elt_eqb (a !! i) (b !! j) = false.
Proof.
  destruct (a !! i) as [c|] eqn:Ea; [|reflexivity].
  destruct (b !! j) as [d|] eqn:Eb; [|reflexivity].
  simpl. destruct (Ascii.eqb_spec c d) as [->|]; [|reflexivity].
  exfalso. eapply disjoint; eapply list_elem_of_lookup_2; eassumption.
Qed.

Lemma find_longest_match_disjoint alo ahi blo bhi :
  find_longest_match a b alo ahi blo bhi = mkMatch alo blo 0.
Proof.
  unfold find_longest_match, scan. rewrite extend_junk, rows_disjoint.
  unfold extend. simpl.
  assert (L : extend_low a b false alo blo alo blo 0 = mkMatch alo blo 0).
  { destruct alo as [|i']; destruct blo as [|j']; simpl; try reflexivity.
    rewrite elt_eqb_disjoint, !andb_false_r. reflexivity. }
  rewrite L. simpl.
  destruct (ahi - (alo + 0)); simpl; [reflexivity|].
  rewrite elt_eqb_disjoint, !andb_false_r. reflexivity.
Qed.

Lemma get_matching_blocks_disjoint : sizes (get_matching_blocks a b) = 0.
Proof.
  rewrite sizes_get_matching_blocks. unfold raw_blocks, blocks_fuel.
  rewrite blocks_loop_step, find_longest_match_disjoint. cbv zeta. simpl m_size.
  rewrite Nat.eqb_refl, blocks_loop_nil. reflexivity.
Qed.

End Disjoint.

Lemma ratio_disjoint a b :
  (forall c, c ∈ a -> c ∉ b) -> (ratio a b == ratio b a)%Q.
Proof.
  intros H.
  assert (H' : forall c, c ∈ b -> c ∉ a).
  { intros c Hb Ha. exact (H c Ha Hb). }
  unfold ratio. fold (sizes (get_matching_blocks a b)).
  fold (sizes (get_matching_blocks b a)).
  rewrite (get_matching_blocks_disjoint a b H), (get_matching_blocks_disjoint b a H').
  rewrite (Nat.add_comm (length a)). reflexivity.
Qed.

End DifflibFacts.

(** ** Python comparisons, division and sorting *)

Module PyFacts.

Lemma gt_spec x y : Py.gt x y = true <-> (y < x)%Q.
Proof.
  unfold Py.gt. rewrite negb_true_iff. split.
  - intros H. apply Qnot_le_lt. intros Hle.
    apply Qle_bool_iff in Hle. congruence.
  - intros H. destruct (Qle_bool x y) eqn:E; [|reflexivity].
    apply Qle_bool_iff in E. apply Qlt_not_le in H. contradiction.
Qed.

Lemma gt_false x y : Py.gt x y = false <-> (x <= y)%Q.
Proof.
  unfold Py.gt. rewrite negb_false_iff. apply Qle_bool_iff.
Qed.

Lemma truediv_zero n : Py.truediv n 0 = Raise ZeroDivisionError.
Proof. reflexivity. Qed.

Lemma truediv_ok n d :
  d <> 0 ->
  Py.truediv n d
  = Ok (Float.round (inject_Z (Z.of_nat n) / inject_Z (Z.of_nat d)))%Q.
Proof.
  intros Hd. unfold Py.truediv.
  destruct (Nat.eqb_spec d 0); [contradiction|reflexivity].
Qed.

Lemma truediv_unit n d q :
  n <= d -> Py.truediv n d = Ok q -> (0 <= q <= 1)%Q.
Proof.
  intros Hle. unfold Py.truediv.
  destruct (Nat.eqb_spec d 0) as [|Hd]; [discriminate|].
  intros [= <-].
  assert (Hpos : (0 < inject_Z (Z.of_nat d))%Q) by (unfold Qlt; simpl; lia).
  apply FloatFacts.round_unit. split.
  - apply Qle_shift_div_l; [exact Hpos|]. unfold Qle; simpl. lia.
  - apply Qle_shift_div_r; [exact Hpos|]. unfold Qle; simpl. lia.
Qed.

Section Sorting.
Context {A : Type} (key : A -> Q).

Definition desc (x y : A) : Prop := (key y <= key x)%Q.

Lemma insert_desc_perm x l : Permutation (Py.insert_desc key x l) (x :: l).
Proof.
  induction l as [|y l IH]; simpl; [reflexivity|].
  destruct (Qle_bool (key y) (key x)); [reflexivity|].
  rewrite IH. apply perm_swap.
Qed.

Lemma sort_desc_perm l : Permutation (Py.sort_desc key l) l.
Proof.
  induction l as [|x l IH]; simpl; [reflexivity|].
  rewrite insert_desc_perm, IH. reflexivity.
Qed.

Lemma insert_desc_sorted x l :
  StronglySorted desc l -> StronglySorted desc (Py.insert_desc key x l).
Proof.
  induction 1 as [|y l Hs IH Hall]; simpl.
  - repeat constructor.
  - destruct (Qle_bool (key y) (key x)) eqn:E.
    + apply Qle_bool_iff in E. constructor; [constructor; assumption|].
      constructor; [exact E|].
      eapply Forall_impl; [exact Hall|].
      intros z Hz. unfold desc in *. eapply Qle_trans; eassumption.
    + constructor; [exact IH|].
      rewrite insert_desc_perm. constructor; [|exact Hall].
      unfold desc. apply Qlt_le_weak, Qnot_le_lt. intros Hle.
      apply Qle_bool_iff in Hle. congruence.
Qed.

Lemma sort_desc_sorted l : StronglySorted desc (Py.sort_desc key l).
Proof.
  induction l as [|x l IH]; simpl; [constructor|].
  apply insert_desc_sorted, IH.
Qed.

(** Elements of equal key keep the order they had. *)
Lemma insert_desc_stable q x l :
  List.filter (fun y => Qeq_bool (key y) q) (Py.insert_desc key x l) =
  List.filter (fun y => Qeq_bool (key y) q) (x :: l).
Proof.
  induction l as [|y l IH]; [reflexivity|].
  cbn [Py.insert_desc].
  destruct (Qle_bool (key y) (key x)) eqn:E; [reflexivity|].
  cbn [List.filter] in *. rewrite IH.
  destruct (Qeq_bool (key y) q) eqn:Ey; [|reflexivity].
  destruct (Qeq_bool (key x) q) eqn:Ex; [|reflexivity].
  apply Qeq_bool_iff in Ex, Ey.
  assert (Hle : (key y <= key x)%Q) by (rewrite Ex, Ey; apply Qle_refl).
  apply Qle_bool_iff in Hle. congruence.
Qed.

Lemma sort_desc_stable q l :
  List.filter (fun y => Qeq_bool (key y) q) (Py.sort_desc key l) =
  List.filter (fun y => Qeq_bool (key y) q) l.
Proof.
  induction l as [|x l IH]; [reflexivity|].
  cbn [Py.sort_desc fold_right]. rewrite insert_desc_stable.
  cbn [List.filter]. fold (Py.sort_desc key l). rewrite IH. reflexivity.
Qed.

Lemma sort_desc_length l : length (Py.sort_desc key l) = length l.
Proof. apply Permutation_length, sort_desc_perm. Qed.

End Sorting.

End PyFacts.

(** ** The scoring loop *)

Module VeracityFacts.
Import TrustedSources Veracity.

Lemma calculate_similarity_unit s t : (0 <= calculate_similarity s t <= 1)%Q.
Proof. apply DifflibFacts.ratio_unit. Qed.

Lemma chars_nil s : Py.chars s = [] <-> s = EmptyString.
Proof. destruct s; simpl; split; congruence. Qed.

Lemma union_size_zero (X Y : gset string) : size (X ∪ Y) = 0 <-> X ∪ Y = ∅.
Proof.
  split.
  - intros H. apply leibniz_equiv, size_empty_iff. exact H.
  - intros ->. apply size_empty.
Qed.

Lemma overlap_le (X Y : gset string) : size (X ∩ Y) <= size (X ∪ Y).
Proof.
  apply subseteq_size. etrans; [apply intersection_subseteq_l|apply union_subseteq_l].
Qed.

Section Scoring.
Variable nl : Nltk.
Variable input_text : string.

Lemma scores_unfold a :
  scores nl input_text a =
  match Py.truediv
          (size (py_set (claim_keywords nl input_text) ∩ py_set (article_keywords nl a)))
          (size (keyword_union nl input_text a)) with
  | Ok overlap =>
      Ok (mkMatchResult a
            (weighted
               (calculate_similarity (preprocess_text input_text) (title a))
               (calculate_similarity (preprocess_text input_text) (description a))
               overlap)
            (calculate_similarity (preprocess_text input_text) (title a))
            (calculate_similarity (preprocess_text input_text) (description a))
            overlap)
  | Raise e => Raise e
  end.
Proof. reflexivity. Qed.

Lemma scores_raise a :
  keyword_union nl input_text a = ∅ -> scores nl input_text a = Raise ZeroDivisionError.
Proof.
  intros H. rewrite scores_unfold.
  apply union_size_zero in H. unfold keyword_union in *. rewrite H. reflexivity.
Qed.

Lemma scores_raise_inv a e :
  scores nl input_text a = Raise e ->
  e = ZeroDivisionError /\ keyword_union nl input_text a = ∅.
Proof.
  rewrite scores_unfold. unfold Py.truediv.
  destruct (Nat.eqb_spec (size (keyword_union nl input_text a)) 0) as [E|E];
    [|discriminate].
  intros [= <-]. split; [reflexivity|]. apply union_size_zero. exact E.
Qed.

Lemma scores_ok a :
  keyword_union nl input_text a <> ∅ -> exists m, scores nl input_text a = Ok m.
Proof.
  intros H. destruct (scores nl input_text a) as [m|e] eqn:E; [eauto|].
  apply scores_raise_inv in E. tauto.
Qed.

Lemma scores_inv a m :
  scores nl input_text a = Ok m ->
  article m = a /\
  title_similarity m = calculate_similarity (preprocess_text input_text) (title a) /\
  description_similarity m
    = calculate_similarity (preprocess_text input_text) (description a) /\
  Py.truediv
    (size (py_set (claim_keywords nl input_text) ∩ py_set (article_keywords nl a)))
    (size (keyword_union nl input_text a)) = Ok (keyword_overlap m) /\
  match_score m
  = weighted (title_similarity m) (description_similarity m) (keyword_overlap m).
Proof.
  rewrite scores_unfold.
  destruct (Py.truediv _ _) as [ov|e]; [|discriminate].
  intros [= <-]. simpl. auto.
Qed.

(** The weighted sum grows with each score, rounding included. *)
Lemma weighted_mono t t' d d' k k' :
  (t <= t')%Q -> (d <= d')%Q -> (k <= k')%Q ->
  (weighted t d k <= weighted t' d' k')%Q.
Proof.
  intros Ht Hd Hk. unfold weighted.
  assert (H4 : (0 <= Float.literal 0.4)%Q) by (vm_compute; discriminate).
  assert (H2 : (0 <= Float.literal 0.2)%Q) by (vm_compute; discriminate).
  apply FloatFacts.add_mono; [apply FloatFacts.add_mono|];
    apply FloatFacts.mul_mono_l; assumption.
Qed.

Lemma weighted_unit t d k :
  (0 <= t <= 1)%Q -> (0 <= d <= 1)%Q -> (0 <= k <= 1)%Q ->
  (0 <= weighted t d k <= 1)%Q.
Proof.
  intros Ht Hd Hk. split.
  - apply Qle_trans with (weighted 0 0 0); [vm_compute; discriminate|].
    apply weighted_mono; tauto.
  - apply Qle_trans with (weighted 1 1 1); [|vm_compute; discriminate].
    apply weighted_mono; tauto.
Qed.

Lemma scores_unit a m :
  scores nl input_text a = Ok m ->
  (0 <= title_similarity m <= 1)%Q /\
  (0 <= description_similarity m <= 1)%Q /\
  (0 <= keyword_overlap m <= 1)%Q /\
  (0 <= match_score m <= 1)%Q.
Proof.
  intros H. apply scores_inv in H. destruct H as (_ & Ht & Hd & Hk & Hs).
  assert (T := calculate_similarity_unit (preprocess_text input_text) (title a)).
  assert (D := calculate_similarity_unit (preprocess_text input_text) (description a)).
  assert (K := PyFacts.truediv_unit _ _ _ (overlap_le _ _) Hk).
  rewrite <- Ht in T. rewrite <- Hd in D. rewrite Hs.
  repeat split; try tauto; apply weighted_unit; assumption.
Qed.

(** The loop scores every article in turn and appends the admitted ones. *)
Lemma analyze_unfold a articles found :
  analyze nl (preprocess_text input_text) (claim_keywords nl input_text)
    (a :: articles) found =
  match scores nl input_text a with
  | Ok m =>
      analyze nl (preprocess_text input_text) (claim_keywords nl input_text)
        articles (if admitted m then found ++ [m] else found)
  | Raise e => Raise e
  end.
Proof. reflexivity. Qed.

Lemma analyze_ok articles : forall found r,
  analyze nl (preprocess_text input_text) (claim_keywords nl input_text)
    articles found = Ok r ->
  exists scored,
    Forall2 (fun a m => scores nl input_text a = Ok m) articles scored /\
    r = found ++ List.filter admitted scored.
Proof.
  induction articles as [|a articles IH]; intros found r H.
  - injection H as <-. exists []. split; [constructor|].
    simpl. rewrite app_nil_r. reflexivity.
  - rewrite analyze_unfold in H.
    destruct (scores nl input_text a) as [m|e] eqn:E; [|discriminate].
    apply IH in H. destruct H as (scored & HF & ->).
    exists (m :: scored). split; [constructor; assumption|].
    simpl. destruct (admitted m); [rewrite <- app_assoc|]; reflexivity.
Qed.

Lemma analyze_scored articles : forall found scored,
  Forall2 (fun a m => scores nl input_text a = Ok m) articles scored ->
  analyze nl (preprocess_text input_text) (claim_keywords nl input_text)
    articles found = Ok (found ++ List.filter admitted scored).
Proof.
  induction articles as [|a articles IH]; intros found scored HF;
    inversion HF as [|? m ? scored' Hm Hrest]; subst.
  - simpl. rewrite app_nil_r. reflexivity.
  - rewrite analyze_unfold, Hm, (IH _ scored' Hrest). simpl.
    destruct (admitted m); [rewrite <- app_assoc|]; reflexivity.
Qed.

Lemma analyze_raise articles : forall found a,
  a ∈ articles -> keyword_union nl input_text a = ∅ ->
  analyze nl (preprocess_text input_text) (claim_keywords nl input_text)
    articles found = Raise ZeroDivisionError.
Proof.
  induction articles as [|a0 articles IH]; intros found a Hin Hu.
  - inversion Hin.
  - rewrite analyze_unfold.
    destruct (scores nl input_text a0) as [m|e] eqn:E.
    + apply elem_of_cons in Hin. destruct Hin as [->|Hin].
      * rewrite (scores_raise _ Hu) in E. discriminate.
      * eapply IH; eassumption.
    + apply scores_raise_inv in E. destruct E as [-> _]. reflexivity.
Qed.

End Scoring.

Lemma verify_veracity_unfold nl file input_text articles :
  verify_veracity nl file input_text articles =
  match analyze nl (preprocess_text input_text) (claim_keywords nl input_text)
          articles [] with
  | Raise e => Raise e
  | Ok [] => Ok initial_results
  | Ok (m :: found) =>
      match Py.sort_desc match_score (m :: found) with
      | [] => Raise IndexError
      | best_match :: rest =>
          match get_source_trust_level file "veridica" with
          | Raise e => Raise e
          | Ok source_trust =>
              match Json.float_times (match_score best_match) source_trust with
              | Raise e => Raise e
              | Ok score =>
                  Ok (mkResult score (confidence_of (length (best_match :: rest)))
                        (best_match :: rest) (verdict_of score))
              end
          end
      end
  end.
Proof.
  unfold verify_veracity, claim_keywords. simpl matches.
  destruct (analyze _ _ _ _ _) as [[|m found]|e]; try reflexivity.
  remember (Py.sort_desc match_score (m :: found)) as sorted eqn:Es.
  unfold mbind at 1, result_bind at 1. rewrite <- Es.
  destruct sorted as [|best rest]; reflexivity.
Qed.

(** The evaluation, given the scores of the articles. *)
Lemma verify_veracity_scored nl file input_text articles scored :
  Forall2 (fun a m => scores nl input_text a = Ok m) articles scored ->
  verify_veracity nl file input_text articles =
  match Py.sort_desc match_score (List.filter admitted scored) with
  | [] => Ok initial_results
  | best_match :: rest =>
      match get_source_trust_level file "veridica" with
      | Raise e => Raise e
      | Ok source_trust =>
          match Json.float_times (match_score best_match) source_trust with
          | Raise e => Raise e
          | Ok score =>
              Ok (mkResult score (confidence_of (length (best_match :: rest)))
                    (best_match :: rest) (verdict_of score))
          end
      end
  end.
Proof.
  intros HF. rewrite verify_veracity_unfold, (analyze_scored _ _ _ _ _ HF).
  simpl app. destruct (List.filter admitted scored) as [|m found]; [reflexivity|].
  destruct (Py.sort_desc match_score (m :: found)) as [|best rest] eqn:Es;
    [|reflexivity].
  pose proof (PyFacts.sort_desc_length match_score (m :: found)) as L.
  rewrite Es in L. discriminate L.
Qed.

(** What a returned result is made of. *)
Lemma verify_veracity_ok nl file input_text articles r :
  verify_veracity nl file input_text articles = Ok r ->
  exists scored,
    Forall2 (fun a m => scores nl input_text a = Ok m) articles scored /\
    matches r = Py.sort_desc match_score (List.filter admitted scored) /\
    (matches r = [] -> r = initial_results) /\
    (forall best rest, matches r = best :: rest ->
       exists trust,
         get_source_trust_level file "veridica" = Ok trust /\
         Json.float_times (match_score best) trust = Ok (veracity_score r) /\
         confidence r = confidence_of (length (matches r)) /\
         verdict r = verdict_of (veracity_score r)).
Proof.
  intros H. rewrite verify_veracity_unfold in H.
  destruct (analyze _ _ _ _ _) as [found|e] eqn:E; [|discriminate].
  apply analyze_ok in E. destruct E as (scored & HF & Hfound). simpl in Hfound.
  exists scored. split; [exact HF|]. rewrite <- Hfound.
  destruct found as [|m found].
  - injection H as <-. simpl. split; [reflexivity|]. split; [reflexivity|].
    intros ? ? [=].
  - destruct (Py.sort_desc match_score (m :: found)) as [|best rest] eqn:Es;
      [discriminate|].
    destruct (get_source_trust_level file "veridica") as [trust|e] eqn:Et;
      [|discriminate].
    destruct (Json.float_times (match_score best) trust) as [score|e] eqn:Ex;
      [|discriminate].
    injection H as <-. simpl. split; [reflexivity|]. split; [discriminate|].
    intros best' rest' [= <- <-]. exists trust. auto.
Qed.

End VeracityFacts.

(** * The claims *)

Import TrustedSources Veracity Examples.

(** ** C1: keyword overlap over an empty union *)

(** C1. The specification asks that, when the union of the claim's keywords
    and an article's keywords is empty, [keyword_overlap] be 0.0 and nothing
    be raised. The code divides by the size of that union with no guard:
    as soon as one article of the list has an empty union with the claim,
    [verify_veracity] raises [ZeroDivisionError]. *)
Theorem verify_veracity_empty_union_raises nl file input_text articles a :
  a ∈ articles ->
  keyword_union nl input_text a = ∅ ->
  verify_veracity nl file input_text articles = Raise ZeroDivisionError.
Proof.
  intros Hin Hu. rewrite VeracityFacts.verify_veracity_unfold.
  rewrite (VeracityFacts.analyze_raise nl input_text articles [] a Hin Hu).
  reflexivity.
Qed.

Lemma verify_veracity_empty_union_raises_witness :
  verify_veracity plain_nltk veridica_file "" [art "" ""]
  = Raise ZeroDivisionError.
Proof.
  apply (verify_veracity_empty_union_raises
           plain_nltk veridica_file "" [art "" ""] (art "" "")).
  - left.
  - vm_compute. reflexivity.
Defined.

(** ** C8: the trust registry *)




(** ** C9, C10, C6: the sequence ratio *)

(** C9. For every non-empty text [s], the similarity of [s] with itself is
    exactly 1.0. *)
Theorem calculate_similarity_self s :
  s <> "" -> (calculate_similarity s s == 1)%Q.
Proof.
  intros _. apply DifflibFacts.ratio_same.
Qed.

Lemma calculate_similarity_self_witness :
  (calculate_similarity "vaccin" "vaccin" == 1)%Q.
Proof.
  apply (calculate_similarity_self "vaccin"). discriminate.
Defined.

(** C10. The similarity of the empty text with itself is 1.0, so an empty
    claim scores [title_similarity] 1.0 against an article whose title is
    empty. *)
Theorem calculate_similarity_empty_empty :
  calculate_similarity "" "" = 1%Q /\
  forall nl a m,
    title a = "" -> scores nl "" a = Ok m -> title_similarity m = 1%Q.
Proof.
  split; [reflexivity|].
  intros nl a m Ht H. apply VeracityFacts.scores_inv in H.
  destruct H as (_ & -> & _). rewrite Ht. reflexivity.
Qed.

(** The values [difflib]'s documentation gives for this pair of words. *)
Example calculate_similarity_tide_diet :
  (calculate_similarity "tide" "diet" == 0.25)%Q /\
  (calculate_similarity "diet" "tide" == 0.5)%Q.
Proof. split; vm_compute; reflexivity. Qed.

(** C6, as stated, fails: the ratio depends on the order of its arguments. *)
Lemma calculate_similarity_not_symmetric :
  ~ (calculate_similarity "tide" "diet" == calculate_similarity "diet" "tide")%Q.
Proof.
  vm_compute. discriminate.
Qed.

(** C6, amended. The similarity of [s] and [t] does not depend on the order
    of the arguments when the two texts are equal or have no character in
    common (in particular when one of them is empty). *)
Theorem calculate_similarity_symmetric_cases s t :
  s = t \/ no_common_char s t ->
  (calculate_similarity s t == calculate_similarity t s)%Q.
Proof.
  intros [->|H]; [reflexivity|].
  apply DifflibFacts.ratio_disjoint. exact H.
Qed.

Lemma calculate_similarity_symmetric_cases_witness :
  (calculate_similarity "mere" "soc" == calculate_similarity "soc" "mere")%Q.
Proof.
  apply (calculate_similarity_symmetric_cases "mere" "soc").
  right. intros c Hc Ht. vm_compute in Hc, Ht.
  repeat (apply elem_of_cons in Hc; destruct Hc as [->|Hc]);
    [..|inversion Hc];
    repeat (apply elem_of_cons in Ht; destruct Ht as [Ht|Ht]; [discriminate Ht|]);
    inversion Ht.
Defined.

(** ** C3, C4, C5: the result of an evaluation *)

(** Rounding is visible in the results. With the title 'ab zzz' and no
    description the claim 'ab' scores 0.5 x 0.4 + 0.0 x 0.4 + 0.5 x 0.2,
    which in floats is 0.30000000000000004: above the threshold, the
    double 0.3 being 0.299999999999999988.... *)
Example match_score_rounded :
  scores plain_nltk "ab" (art "ab zzz" "")
  = Ok (mkMatchResult (art "ab zzz" "")
          (1351079888211149 # 4503599627370496) (1 # 2) 0 (1 # 2)) /\
  Float.literal 0.3 = 5404319552844595 # 18014398509481984 /\
  exists r m,
    verify_veracity plain_nltk veridica_file "ab" [art "ab zzz" ""] = Ok r /\
    matches r = [m] /\ verdict r = "likely_false".
Proof.
  split; [vm_compute; reflexivity|]. split; [vm_compute; reflexivity|].
  eexists. eexists. split; [vm_compute; reflexivity|]. split; reflexivity.
Qed.

(** Three matches give the confidence 3 x 0.2, which is
    0.6000000000000001; a best score of 0.7000000000000001 with trust 1.0
    is above the threshold 0.7. *)
Example confidence_rounded :
  confidence_of 3 = 1351079888211149 # 2251799813685248 /\
  exists r,
    verify_veracity plain_nltk (Parsed (Json.JObject {[ "veridica" := trusted 1 ]}))
      "ab" [art "ab zzz" "ab"] = Ok r /\
    veracity_score r = Float.Finite (6305039478318695 # 9007199254740992) /\
    verdict r = "true".
Proof.
  split; [vm_compute; reflexivity|].
  eexists. split; [vm_compute; reflexivity|]. split; reflexivity.
Qed.

Lemma verdict_of_spec score :
  (Float.gt score (threshold 0.7) = true -> verdict_of score = "true") /\
  (Float.gt score (threshold 0.7) = false ->
   Float.gt score (threshold 0.4) = true -> verdict_of score = "likely_true") /\
  (Float.gt score (threshold 0.4) = false ->
   Float.gt score (threshold 0.2) = true -> verdict_of score = "likely_false") /\
  (Float.gt score (threshold 0.2) = false -> verdict_of score = "false").
Proof.
  assert (H47 : (Float.literal 0.4 <= Float.literal 0.7)%Q)
    by (vm_compute; discriminate).
  assert (H24 : (Float.literal 0.2 <= Float.literal 0.4)%Q)
    by (vm_compute; discriminate).
  pose proof (FloatFacts.gt_false_mono score _ _ H47) as M47.
  pose proof (FloatFacts.gt_false_mono score _ _ H24) as M24.
  unfold verdict_of, threshold in *.
  destruct (Float.gt score (Float.Finite (Float.literal 0.7))) eqn:E7;
    destruct (Float.gt score (Float.Finite (Float.literal 0.4))) eqn:E4;
    destruct (Float.gt score (Float.Finite (Float.literal 0.2))) eqn:E2;
    repeat split; intros; try reflexivity; try discriminate;
    try (specialize (M47 eq_refl); discriminate);
    try (specialize (M24 eq_refl); discriminate);
    try (specialize (M24 eq_refl); specialize (M47 M24); discriminate).
Qed.

(** C3. Whenever [verify_veracity] returns a non-empty list of matches, the
    veracity score is the first match's score times the trust level of the
    source (the source name is the literal 'veridica'), the confidence is
    min(1.0, number of matches x 0.2), and the verdict follows the
    thresholds 0.7, 0.4 and 0.2; the products are float products and the
    comparisons float comparisons. *)
Theorem verify_veracity_nonempty_matches nl file input_text articles r :
  verify_veracity nl file input_text articles = Ok r ->
  matches r <> [] ->
  exists best trust,
    head (matches r) = Some best /\
    get_source_trust_level file "veridica" = Ok trust /\
    Json.float_times (match_score best) trust = Ok (veracity_score r) /\
    confidence r
    = Qmin 1 (Float.mul (Float.of_nat (length (matches r))) (Float.literal 0.2)) /\
    (Float.gt (veracity_score r) (threshold 0.7) = true -> verdict r = "true") /\
    (Float.gt (veracity_score r) (threshold 0.7) = false ->
     Float.gt (veracity_score r) (threshold 0.4) = true ->
     verdict r = "likely_true") /\
    (Float.gt (veracity_score r) (threshold 0.4) = false ->
     Float.gt (veracity_score r) (threshold 0.2) = true ->
     verdict r = "likely_false") /\
    (Float.gt (veracity_score r) (threshold 0.2) = false -> verdict r = "false").
Proof.
  intros H Hne. apply VeracityFacts.verify_veracity_ok in H.
  destruct H as (scored & _ & _ & _ & H).
  destruct (matches r) as [|best rest] eqn:Em; [contradiction|].
  destruct (H best rest eq_refl) as (trust & Ht & Hs & Hc & Hv).
  exists best, trust. rewrite Hv.
  split; [reflexivity|]. split; [exact Ht|]. split; [exact Hs|].
  split; [exact Hc|]. apply verdict_of_spec.
Qed.

Lemma verify_veracity_nonempty_matches_witness :
  exists best trust,
    head (matches sample_result) = Some best /\
    get_source_trust_level veridica_file "veridica" = Ok trust /\
    Json.float_times (match_score best) trust = Ok (veracity_score sample_result) /\
    confidence sample_result
    = Qmin 1 (Float.mul (Float.of_nat (length (matches sample_result)))
                (Float.literal 0.2)) /\
    (Float.gt (veracity_score sample_result) (threshold 0.7) = true ->
     verdict sample_result = "true") /\
    (Float.gt (veracity_score sample_result) (threshold 0.7) = false ->
     Float.gt (veracity_score sample_result) (threshold 0.4) = true ->
     verdict sample_result = "likely_true") /\
    (Float.gt (veracity_score sample_result) (threshold 0.4) = false ->
     Float.gt (veracity_score sample_result) (threshold 0.2) = true ->
     verdict sample_result = "likely_false") /\
    (Float.gt (veracity_score sample_result) (threshold 0.2) = false ->
     verdict sample_result = "false").
Proof.
  apply (verify_veracity_nonempty_matches
           plain_nltk veridica_file sample_claim sample_articles sample_result).
  - vm_compute. reflexivity.
  - vm_compute. discriminate.
Defined.

(** C4. The matches [verify_veracity] returns are exactly the scored
    articles whose match score, a double, exceeds the double 0.3, in
    descending order of match score, and matches of equal score keep the
    order their articles had in the input list. *)
Theorem verify_veracity_matches_sorted nl file input_text articles r :
  verify_veracity nl file input_text articles = Ok r ->
  exists scored,
    Forall2 (fun a m => scores nl input_text a = Ok m /\ article m = a)
      articles scored /\
    Permutation (matches r)
      (List.filter (fun m => Py.gt (match_score m) (Float.literal 0.3)) scored) /\
    (forall m, In m (matches r) <-> In m scored /\ (Float.literal 0.3 < match_score m)%Q) /\
    StronglySorted by_score_desc (matches r) /\
    forall q,
      List.filter (same_score q) (matches r) =
      List.filter (same_score q)
        (List.filter (fun m => Py.gt (match_score m) (Float.literal 0.3)) scored).
Proof.
  intros H. apply VeracityFacts.verify_veracity_ok in H.
  destruct H as (scored & HF & Hm & _ & _).
  exists scored. rewrite Hm.
  assert (HP : Permutation (Py.sort_desc match_score (List.filter admitted scored))
                 (List.filter admitted scored)) by apply PyFacts.sort_desc_perm.
  split; [|split; [exact HP|split; [|split]]].
  - eapply Forall2_impl; [exact HF|].
    intros a m Hs. split; [exact Hs|].
    apply VeracityFacts.scores_inv in Hs. tauto.
  - intros m. split.
    + intros Hin. apply (Permutation_in _ HP) in Hin.
      apply filter_In in Hin. destruct Hin as [Hin Ha].
      split; [exact Hin|]. apply PyFacts.gt_spec. exact Ha.
    + intros [Hin Hlt]. apply (Permutation_in _ (Permutation_sym HP)).
      apply filter_In. split; [exact Hin|]. apply PyFacts.gt_spec. exact Hlt.
  - apply PyFacts.sort_desc_sorted.
  - intros q. apply PyFacts.sort_desc_stable.
Qed.

Lemma verify_veracity_matches_sorted_witness :
  exists scored,
    Forall2 (fun a m => scores plain_nltk sample_claim a = Ok m /\ article m = a)
      sample_articles scored /\
    Permutation (matches sample_result)
      (List.filter (fun m => Py.gt (match_score m) (Float.literal 0.3)) scored) /\
    (forall m, In m (matches sample_result)
               <-> In m scored /\ (Float.literal 0.3 < match_score m)%Q) /\
    StronglySorted by_score_desc (matches sample_result) /\
    forall q,
      List.filter (same_score q) (matches sample_result) =
      List.filter (same_score q)
        (List.filter (fun m => Py.gt (match_score m) (Float.literal 0.3)) scored).
Proof.
  apply (verify_veracity_matches_sorted
           plain_nltk veridica_file sample_claim sample_articles sample_result).
  vm_compute. reflexivity.
Defined.

Lemma Forall2_In_r {A B : Type} (R : A -> B -> Prop) l1 l2 y :
  Forall2 R l1 l2 -> In y l2 -> exists x, In x l1 /\ R x y.
Proof.
  induction 1 as [|x z l1 l2 HR _ IH]; simpl; [tauto|].
  intros [<-|Hin]; [eauto|].
  destruct (IH Hin) as (x' & ? & ?). eauto.
Qed.

Lemma float_times_unit x v t :
  (0 <= x <= 1)%Q -> number v = Some t -> (0 <= t <= 1)%Q ->
  exists s, Json.float_times x v = Ok (Float.Finite s) /\ (0 <= s <= 1)%Q.
Proof.
  intros Hx Hv Ht. destruct v as [|b|n|[q| |]| | |]; try discriminate;
    injection Hv as <-.
  - destruct (FloatFacts.fmul_unit x (if b then 1 else 0)%Q Hx Ht) as [E U].
    unfold Json.float_times. rewrite E. eauto.
  - assert (Hn : n = 0%Z \/ n = 1%Z).
    { destruct Ht as [T0 T1]. change 0%Q with (inject_Z 0) in T0.
      change 1%Q with (inject_Z 1) in T1.
      rewrite <- Zle_Qle in T0, T1. lia. }
    unfold Json.float_times. rewrite (FloatFacts.overflows_unit _ Ht).
    assert (Hr : Float.round (inject_Z n) = inject_Z n).
    { destruct Hn as [->| ->]; vm_compute; reflexivity. }
    rewrite Hr. destruct (FloatFacts.fmul_unit x (inject_Z n) Hx Ht) as [E U].
    rewrite E. eauto.
  - destruct (FloatFacts.fmul_unit x q Hx Ht) as [E U].
    unfold Json.float_times. rewrite E. eauto.
Qed.

(** C5. For every article [verify_veracity] scores, the match score is
    0.4 x title similarity + 0.4 x description similarity + 0.2 x keyword
    overlap, computed in floats; each of the three lies in [0,1], and so
    does the match score; when the trust level of the source is a number
    of [0,1], the veracity score, the best match's score times that trust
    level, is a finite float of [0,1] too. *)
Theorem scores_in_unit_interval nl file input_text articles :
  (forall a m,
     scores nl input_text a = Ok m ->
     match_score m
     = Float.add
         (Float.add (Float.mul (Float.literal 0.4) (title_similarity m))
                    (Float.mul (Float.literal 0.4) (description_similarity m)))
         (Float.mul (Float.literal 0.2) (keyword_overlap m)) /\
     (0 <= title_similarity m <= 1)%Q /\
     (0 <= description_similarity m <= 1)%Q /\
     (0 <= keyword_overlap m <= 1)%Q /\
     (0 <= match_score m <= 1)%Q) /\
  (forall r trust t,
     verify_veracity nl file input_text articles = Ok r ->
     get_source_trust_level file "veridica" = Ok trust ->
     number trust = Some t ->
     (0 <= t <= 1)%Q ->
     Forall (fun m => exists a, In a articles /\ scores nl input_text a = Ok m)
       (matches r) /\
     (forall best rest, matches r = best :: rest ->
        Json.float_times (match_score best) trust = Ok (veracity_score r)) /\
     exists s, veracity_score r = Float.Finite s /\ (0 <= s <= 1)%Q).
Proof.
  split.
  - intros a m H. pose proof (VeracityFacts.scores_unit _ _ _ _ H) as U.
    apply VeracityFacts.scores_inv in H. destruct H as (_ & _ & _ & _ & Hs).
    split; [|exact U]. rewrite Hs. unfold weighted.
    rewrite !(FloatFacts.mul_comm (Float.literal _)). reflexivity.
  - intros r trust t H Ht Hn Hu. apply VeracityFacts.verify_veracity_ok in H.
    destruct H as (scored & HF & Hm & H0 & H1).
    assert (Hall : Forall (fun m => exists a, In a articles /\ scores nl input_text a = Ok m)
                     (matches r)).
    { apply List.Forall_forall. intros m Hin. rewrite Hm in Hin.
      apply (Permutation_in _ (PyFacts.sort_desc_perm match_score _)) in Hin.
      apply filter_In in Hin. destruct Hin as [Hin _].
      exact (Forall2_In_r _ _ _ _ HF Hin). }
    split; [exact Hall|].
    destruct (matches r) as [|best rest] eqn:Em.
    + rewrite (H0 eq_refl). simpl. split; [intros ? ? [=]|].
      exists 0%Q. split; [reflexivity|lra].
    + destruct (H1 best rest eq_refl) as (trust' & Ht' & Hs & _).
      rewrite Ht in Ht'. injection Ht' as <-.
      split; [intros ? ? [= <- <-]; exact Hs|].
      inversion Hall as [|? ? (a & _ & Ha) _]; subst.
      apply VeracityFacts.scores_unit in Ha. destruct Ha as (_ & _ & _ & Hb).
      destruct (float_times_unit _ _ _ Hb Hn Hu) as (sc & E & U).
      rewrite E in Hs. injection Hs as <-. eauto.
Qed.

(** ** C2: empty inputs *)

Lemma preprocess_text_empty : preprocess_text "" = "".
Proof. reflexivity. Qed.

Lemma similarity_empty_claim t :
  t <> "" -> (calculate_similarity "" t == 0)%Q.
Proof.
  intros Ht. apply DifflibFacts.ratio_nil_l.
  intros H. apply VeracityFacts.chars_nil in H. contradiction.
Qed.

Lemma keyword_union_nonempty nl input_text a :
  article_keywords nl a <> [] -> keyword_union nl input_text a <> ∅.
Proof.
  intros Hk Hu. destruct (article_keywords nl a) as [|w ws] eqn:E; [contradiction|].
  assert (Hin : w ∈ keyword_union nl input_text a).
  { unfold keyword_union, py_set. rewrite E. set_solver. }
  rewrite Hu in Hin. exact (not_elem_of_empty (C:=gset string) w Hin).
Qed.

Lemma empty_claim_not_admitted nl a :
  title a <> "" -> description a <> "" -> article_keywords nl a <> [] ->
  exists m, scores nl "" a = Ok m /\ admitted m = false.
Proof.
  intros Ht Hd Hk.
  destruct (VeracityFacts.scores_ok nl "" a (keyword_union_nonempty nl "" a Hk))
    as [m Hm].
  exists m. split; [exact Hm|].
  pose proof (VeracityFacts.scores_unit _ _ _ _ Hm) as (_ & _ & Ho & _).
  apply VeracityFacts.scores_inv in Hm. destruct Hm as (_ & Et & Ed & _ & Es).
  rewrite preprocess_text_empty in Et, Ed.
  pose proof (similarity_empty_claim _ Ht) as Zt. rewrite <- Et in Zt.
  pose proof (similarity_empty_claim _ Hd) as Zd. rewrite <- Ed in Zd.
  unfold admitted. apply PyFacts.gt_false. rewrite Es.
  apply Qle_trans with (weighted 0 0 1); [|vm_compute; discriminate].
  apply VeracityFacts.weighted_mono; lra.
Qed.

Lemma analyze_none nl input_text articles : forall found,
  Forall (fun a => exists m, scores nl input_text a = Ok m /\ admitted m = false)
    articles ->
  analyze nl (preprocess_text input_text) (claim_keywords nl input_text)
    articles found = Ok found.
Proof.
  induction articles as [|a articles IH]; intros found H; [reflexivity|].
  inversion H as [|? ? (m & Hm & Ha) Hrest]; subst.
  rewrite VeracityFacts.analyze_unfold, Hm, Ha. apply IH, Hrest.
Qed.

(** C2, as stated, fails for an empty claim: an article with an empty title
    scores title similarity 1.0, hence a match score of 0.4 at least, and
    is admitted. *)
Lemma verify_veracity_empty_claim_admits :
  verify_veracity plain_nltk veridica_file "" [art "" "vaccin"]
  <> Ok initial_results.
Proof.
  vm_compute. discriminate.
Qed.

(** The same holds whatever the tokenizer, stop words and stemmer are. *)
Lemma verify_veracity_empty_claim_empty_title nl file a :
  title a = "" -> verify_veracity nl file "" [a] <> Ok initial_results.
Proof.
  intros Ht H. apply VeracityFacts.verify_veracity_ok in H.
  destruct H as (scored & HF & Hm & _).
  inversion HF as [|? m ? ? Hs Hnil]; subst. inversion Hnil; subst.
  pose proof (VeracityFacts.scores_unit _ _ _ _ Hs) as (_ & Hd & Ho & _).
  apply VeracityFacts.scores_inv in Hs. destruct Hs as (_ & Et & _ & _ & Es).
  rewrite Ht in Et. change (calculate_similarity (preprocess_text "") "") with 1%Q in Et.
  assert (Ha : admitted m = true).
  { unfold admitted. apply PyFacts.gt_spec. rewrite Es, Et.
    apply Qlt_le_trans with (weighted 1 0 0); [vm_compute; reflexivity|].
    apply VeracityFacts.weighted_mono; lra. }
  simpl in Hm. rewrite Ha in Hm. discriminate Hm.
Qed.

(** C2, amended. [verify_veracity] raises nothing and returns the
    empty-matches result for every claim when the article list is empty,
    and for the empty claim when every article has a non-empty title, a
    non-empty description and at least one keyword. *)
Theorem verify_veracity_empty_inputs nl file input_text articles :
  articles = [] \/
  (input_text = "" /\
   Forall (fun a => title a <> "" /\ description a <> ""
                    /\ article_keywords nl a <> []) articles) ->
  verify_veracity nl file input_text articles
  = Ok (mkResult (Float.Finite 0) 0 [] "unknown").
Proof.
  intros [->|[-> H]]; [reflexivity|].
  rewrite VeracityFacts.verify_veracity_unfold, analyze_none; [reflexivity|].
  eapply Forall_impl; [exact H|].
  intros a (Ht & Hd & Hk). apply empty_claim_not_admitted; assumption.
Qed.

Lemma verify_veracity_empty_inputs_witness :
  verify_veracity plain_nltk veridica_file "" [art "Vaccin sigur" "studiu nou"]
  = Ok (mkResult (Float.Finite 0) 0 [] "unknown").
Proof.
  apply (verify_veracity_empty_inputs
           plain_nltk veridica_file "" [art "Vaccin sigur" "studiu nou"]).
  right. split; [reflexivity|].
  constructor; [|constructor].
  split; [discriminate|]. split; [discriminate|]. vm_compute. discriminate.
Defined.

(** ** C7: articles with neither title nor description *)

Module AnalyzerFacts.
Import ArticleAnalyzer.

(** The text built for an article always holds the blank between the two
    fields: the test that skips an article never succeeds. *)
Lemma article_text_not_empty art0 : String.eqb (article_text art0) "" = false.
Proof.
  unfold article_text.
  destruct (get_str art0 "title"); reflexivity.
Qed.

Lemma find_loop_unfold md input art0 articles bad threshold results :
  find_loop md input (art0 :: articles) bad threshold results =
  match calculate_similarity md input (preprocess_text md (article_text art0)) with
  | Ok sim =>
      find_loop md input articles bad threshold
        (if Py.gt sim threshold
         then results ++ [mkSimilar (get_str art0 "title") (get_str art0 "link")
                            (get_str art0 "description") sim bad]
         else results)
  | Raise e => Raise e
  end.
Proof.
  cbn [find_loop]. rewrite article_text_not_empty. reflexivity.
Qed.

End AnalyzerFacts.

(** C7. The specification asks that an article whose title and description
    are both empty be skipped, adding no entry and raising nothing. The code
    tests the text [title + " " + description], which is never empty, so the
    article is compared like any other: the similarity computation runs on
    it, what it raises is raised, and the article is kept whenever its
    similarity exceeds the threshold. *)
Theorem find_similar_articles_blank_not_skipped md input_text art0 bad threshold :
  ArticleAnalyzer.get_str art0 "title" = "" ->
  ArticleAnalyzer.get_str art0 "description" = "" ->
  ArticleAnalyzer.find_similar_articles md input_text [art0] bad threshold =
  match ArticleAnalyzer.calculate_similarity md
          (ArticleAnalyzer.preprocess_text md input_text)
          (ArticleAnalyzer.preprocess_text md " ") with
  | Ok sim =>
      Ok (if Py.gt sim threshold
          then [ArticleAnalyzer.mkSimilar ""
                  (ArticleAnalyzer.get_str art0 "link") "" sim bad]
          else [])
  | Raise e => Raise e
  end.
Proof.
  intros Ht Hd. unfold ArticleAnalyzer.find_similar_articles.
  rewrite AnalyzerFacts.find_loop_unfold.
  unfold ArticleAnalyzer.article_text. rewrite Ht, Hd.
  change ("" +:+ " " +:+ "") with " ".
  destruct (ArticleAnalyzer.calculate_similarity _ _ _) as [sim|e]; [|reflexivity].
  simpl. destruct (Py.gt sim threshold); reflexivity.
Qed.

Lemma find_similar_articles_blank_not_skipped_witness :
  ArticleAnalyzer.find_similar_articles plain_models "" [blank_article] false 0.1
  = Raise ValueError.
Proof.
  rewrite (find_similar_articles_blank_not_skipped
             plain_models "" blank_article false 0.1);
    reflexivity.
Defined.

(** With a claim that has a word and a threshold below zero the blank
    article is returned as a match. *)
Example find_similar_articles_blank_kept :
  ArticleAnalyzer.find_similar_articles plain_models "vaccin" [blank_article]
    false (-1)
  = Ok [ArticleAnalyzer.mkSimilar "" "" "" 0 false].
Proof. vm_compute. reflexivity. Qed.


(** * Further properties of the evaluation *)

Module EvaluationFacts.
Import TrustedSources Veracity VeracityFacts.

Lemma admitted_spec m :
  admitted m = true <-> (Float.literal 0.3 < match_score m)%Q.
Proof. apply PyFacts.gt_spec. Qed.

Lemma matches_in nl input_text articles r scored :
  Forall2 (fun a m => scores nl input_text a = Ok m) articles scored ->
  matches r = Py.sort_desc match_score (List.filter admitted scored) ->
  forall m, In m (matches r) <-> In m scored /\ admitted m = true.
Proof.
  intros _ Hm m. rewrite Hm. rewrite <- filter_In. split.
  - apply Permutation_in, PyFacts.sort_desc_perm.
  - apply Permutation_in, Permutation_sym, PyFacts.sort_desc_perm.
Qed.

Lemma scored_unique nl input_text articles :
  forall s1 s2,
    Forall2 (fun a m => scores nl input_text a = Ok m) articles s1 ->
    Forall2 (fun a m => scores nl input_text a = Ok m) articles s2 ->
    s1 = s2.
Proof.
  induction articles as [|a articles IH]; intros s1 s2 H1 H2;
    inversion H1; inversion H2; subst; [reflexivity|].
  f_equal; [congruence|]. apply IH; assumption.
Qed.

Lemma scored_of nl input_text articles scored a m :
  Forall2 (fun a m => scores nl input_text a = Ok m) articles scored ->
  In a articles -> scores nl input_text a = Ok m -> In m scored.
Proof.
  induction 1 as [|a0 m0 articles scored H0 _ IH]; simpl; [tauto|].
  intros [->|Hin] Hs; [left; congruence|right; auto].
Qed.

Lemma verdict_of_cases score :
  In (verdict_of score) ["true"; "likely_true"; "likely_false"; "false"].
Proof.
  unfold verdict_of.
  destruct (Float.gt score (threshold 0.7)); [simpl; tauto|].
  destruct (Float.gt score (threshold 0.4)); [simpl; tauto|].
  destruct (Float.gt score (threshold 0.2)); simpl; tauto.
Qed.

(** The score of a scored article is a double in lowest terms: two that
    are equal as numbers are the same. *)
Lemma match_score_canonical nl input_text a m a' m' :
  scores nl input_text a = Ok m -> scores nl input_text a' = Ok m' ->
  (match_score m == match_score m')%Q -> match_score m = match_score m'.
Proof.
  intros H H' E. apply scores_inv in H. apply scores_inv in H'.
  destruct H as (_ & _ & _ & _ & Hs). destruct H' as (_ & _ & _ & _ & Hs').
  rewrite Hs, Hs' in *. unfold weighted, Float.add in *.
  apply FloatFacts.round_eq, E.
Qed.

End EvaluationFacts.

(** The list of matches is empty exactly when no article of the list has
    a match score, a double, above the double 0.3; the result is then the
    initial one: scores 0.0 and verdict 'unknown'. *)
Theorem verify_veracity_no_match_iff nl file input_text articles r :
  verify_veracity nl file input_text articles = Ok r ->
  (matches r = [] <->
   forall a m, In a articles -> scores nl input_text a = Ok m ->
               (match_score m <= Float.literal 0.3)%Q) /\
  (matches r = [] -> r = mkResult (Float.Finite 0) 0 [] "unknown").
Proof.
  intros H. apply VeracityFacts.verify_veracity_ok in H.
  destruct H as (scored & HF & Hm & H0 & _).
  pose proof (EvaluationFacts.matches_in nl input_text articles r scored HF Hm)
    as Hin.
  split; [|exact H0]. split.
  - intros He a m Ha Hs.
    pose proof (EvaluationFacts.scored_of _ _ _ _ _ _ HF Ha Hs) as Hsc.
    apply PyFacts.gt_false.
    destruct (Py.gt (match_score m) (Float.literal 0.3)) eqn:E; [|reflexivity].
    assert (Hmem : In m (matches r)) by (apply Hin; split; assumption).
    rewrite He in Hmem. destruct Hmem.
  - intros Hall. destruct (matches r) as [|m rest] eqn:Em; [reflexivity|].
    exfalso. destruct (proj1 (Hin m) (or_introl eq_refl)) as [Hsc Ha].
    destruct (Forall2_In_r _ _ _ _ HF Hsc) as (a & Hina & Hs).
    apply EvaluationFacts.admitted_spec in Ha.
    specialize (Hall a m Hina Hs). lra.
Qed.

Lemma verify_veracity_no_match_iff_witness :
  (matches initial_results = [] <->
   forall a m, In a [art "Vaccin sigur" "studiu nou"] ->
               scores plain_nltk "" a = Ok m -> (match_score m <= Float.literal 0.3)%Q) /\
  (matches initial_results = [] -> initial_results = mkResult (Float.Finite 0) 0 [] "unknown").
Proof.
  apply (verify_veracity_no_match_iff plain_nltk veridica_file ""
           [art "Vaccin sigur" "studiu nou"] initial_results).
  vm_compute. reflexivity.
Defined.

(** The verdict is one of the five labels, and it is 'unknown' exactly when
    there is no match. *)
Theorem verify_veracity_verdict_labels nl file input_text articles r :
  verify_veracity nl file input_text articles = Ok r ->
  In (verdict r) ["true"; "likely_true"; "likely_false"; "false"; "unknown"] /\
  (verdict r = "unknown" <-> matches r = []).
Proof.
  intros H. apply VeracityFacts.verify_veracity_ok in H.
  destruct H as (scored & _ & _ & H0 & H1).
  destruct (matches r) as [|best rest] eqn:Em.
  - rewrite (H0 eq_refl). simpl. tauto.
  - destruct (H1 best rest eq_refl) as (trust & _ & _ & _ & Hv).
    pose proof (EvaluationFacts.verdict_of_cases (veracity_score r)) as Hc.
    rewrite <- Hv in Hc. split.
    + simpl in *. tauto.
    + split; [|discriminate]. intros Hu. rewrite Hu in Hc.
      simpl in Hc. repeat (destruct Hc as [Hc|Hc]; [discriminate Hc|]). destruct Hc.
Qed.

Lemma verify_veracity_verdict_labels_witness :
  In (verdict sample_result)
     ["true"; "likely_true"; "likely_false"; "false"; "unknown"] /\
  (verdict sample_result = "unknown" <-> matches sample_result = []).
Proof.
  apply (verify_veracity_verdict_labels
           plain_nltk veridica_file sample_claim sample_articles sample_result).
  vm_compute. reflexivity.
Defined.

(** The veracity score is computed from the best article: no article of the
    list scores higher than the first match. *)
Theorem verify_veracity_best_is_maximal nl file input_text articles r best rest :
  verify_veracity nl file input_text articles = Ok r ->
  matches r = best :: rest ->
  forall a m, In a articles -> scores nl input_text a = Ok m ->
              (match_score m <= match_score best)%Q.
Proof.
  intros H Em a m Ha Hs. apply VeracityFacts.verify_veracity_ok in H.
  destruct H as (scored & HF & Hm & _ & _).
  pose proof (EvaluationFacts.matches_in nl input_text articles r scored HF Hm)
    as Hin.
  pose proof (EvaluationFacts.scored_of _ _ _ _ _ _ HF Ha Hs) as Hsc.
  assert (Hbest : (Float.literal 0.3 < match_score best)%Q).
  { apply EvaluationFacts.admitted_spec, (Hin best). rewrite Em. left. reflexivity. }
  destruct (Py.gt (match_score m) (Float.literal 0.3)) eqn:E.
  - assert (Hmem : In m (matches r)) by (apply Hin; split; assumption).
    pose proof (PyFacts.sort_desc_sorted match_score (List.filter admitted scored))
      as Hsorted.
    rewrite <- Hm, Em in Hsorted. rewrite Em in Hmem.
    destruct Hmem as [->|Hmem]; [apply Qle_refl|].
    apply StronglySorted_inv in Hsorted. destruct Hsorted as [_ Hall].
    rewrite List.Forall_forall in Hall. exact (Hall m Hmem).
  - apply PyFacts.gt_false in E. lra.
Qed.

Lemma verify_veracity_best_is_maximal_witness :
  Forall (fun a =>
            forall m, scores plain_nltk sample_claim a = Ok m ->
                      (match_score m
                       <= match_score (hd (mkMatchResult (art "" "") 0 0 0 0)
                                          (matches sample_result)))%Q)
    sample_articles.
Proof.
  apply List.Forall_forall. intros a Ha m Hs.
  apply (verify_veracity_best_is_maximal
           plain_nltk veridica_file sample_claim sample_articles sample_result
           _ (tl (matches sample_result))) with (a := a).
  - vm_compute. reflexivity.
  - vm_compute. reflexivity.
  - exact Ha.
  - exact Hs.
Defined.

(** Two evaluations of the same claim and articles under two
    configurations, when both return, have the same matches and the same
    confidence; and when the trust levels of 'veridica' are finite floats,
    the veracity score under the lower one is not greater. *)
Theorem verify_veracity_trust_monotone nl file1 file2 input_text articles r1 r2 :
  verify_veracity nl file1 input_text articles = Ok r1 ->
  verify_veracity nl file2 input_text articles = Ok r2 ->
  matches r2 = matches r1 /\
  confidence r2 = confidence r1 /\
  forall t1 t2,
    get_source_trust_level file1 "veridica" = Ok (Json.JFloat (Float.Finite t1)) ->
    get_source_trust_level file2 "veridica" = Ok (Json.JFloat (Float.Finite t2)) ->
    (t1 <= t2)%Q ->
    Float.gt (veracity_score r1) (veracity_score r2) = false.
Proof.
  intros H1 H2.
  pose proof (VeracityFacts.verify_veracity_ok _ _ _ _ _ H1)
    as (s1 & HF1 & Hm1 & Z1 & B1).
  pose proof (VeracityFacts.verify_veracity_ok _ _ _ _ _ H2)
    as (s2 & HF2 & Hm2 & Z2 & B2).
  rewrite (EvaluationFacts.scored_unique _ _ _ _ _ HF2 HF1) in Hm2.
  assert (Em : matches r2 = matches r1) by congruence.
  split; [exact Em|].
  destruct (matches r1) as [|best rest] eqn:E1.
  - rewrite (Z1 eq_refl), (Z2 Em). simpl. split; reflexivity.
  - destruct (B1 best rest eq_refl) as (v1 & Hv1 & Hs1 & Hc1 & _).
    destruct (B2 best rest Em) as (v2 & Hv2 & Hs2 & Hc2 & _).
    split; [rewrite Hc1, Hc2, Em; reflexivity|].
    intros t1 t2 Ht1 Ht2 Hle.
    rewrite Ht1 in Hv1. injection Hv1 as <-.
    rewrite Ht2 in Hv2. injection Hv2 as <-.
    simpl in Hs1, Hs2. injection Hs1 as <-. injection Hs2 as <-.
    apply FloatFacts.fmul_mono; [|exact Hle].
    pose proof (EvaluationFacts.matches_in nl input_text articles r1 s1 HF1) as Hin.
    rewrite E1 in Hin. specialize (Hin Hm1 best).
    destruct (proj1 Hin (or_introl eq_refl)) as [Hsc _].
    destruct (Forall2_In_r _ _ _ _ HF1 Hsc) as (a & _ & Hs).
    apply VeracityFacts.scores_unit in Hs. tauto.
Qed.

Module MoreExamples.
Import TrustedSources Examples.

(** The result of the sample evaluation when the configuration file is
    missing. *)
Definition sample_result_untrusted : VeracityResult :=
  match verify_veracity plain_nltk FileNotFoundError sample_claim sample_articles with
  | Ok r => r
  | Raise _ => initial_results
  end.

Definition sample_articles_reordered : list Article :=
  [art "x" "y"; art "vaccin sigur" "studiu"; art "Vaccin" "sigur"].

End MoreExamples.
Import MoreExamples.

Lemma verify_veracity_trust_monotone_witness :
  matches sample_result = matches sample_result_untrusted /\
  confidence sample_result = confidence sample_result_untrusted /\
  forall t1 t2,
    get_source_trust_level FileNotFoundError "veridica"
    = Ok (Json.JFloat (Float.Finite t1)) ->
    get_source_trust_level veridica_file "veridica"
    = Ok (Json.JFloat (Float.Finite t2)) ->
    (t1 <= t2)%Q ->
    Float.gt (veracity_score sample_result_untrusted) (veracity_score sample_result)
    = false.
Proof.
  apply (verify_veracity_trust_monotone plain_nltk FileNotFoundError veridica_file
           sample_claim sample_articles sample_result_untrusted sample_result).
  - vm_compute. reflexivity.
  - vm_compute. reflexivity.
Defined.

(** The trust level returned for a source is a number of [0,1] whenever
    every level written in the configuration is, whether the source is
    listed or not and whether the file was missing, malformed or parsed. *)
Theorem get_source_trust_level_range file name level :
  (forall sources n source v,
     file = Parsed (Json.JObject sources) -> sources !! n = Some source ->
     Json.subscript source "trust_level" = Ok v ->
     exists t, number v = Some t /\ (0 <= t <= 1)%Q) ->
  get_source_trust_level file name = Ok level ->
  exists t, number level = Some t /\ (0 <= t <= 1)%Q.
Proof.
  intros Hcfg. unfold get_source_trust_level.
  assert (Hz : exists t, number (Json.JFloat (Float.Finite 0)) = Some t
                         /\ (0 <= t <= 1)%Q).
  { exists 0%Q. split; [reflexivity|lra]. }
  destruct file as [| |e|document]; simpl.
  - rewrite bool_decide_eq_false_2 by (intros [? ?]; discriminate).
    intros [= <-]. exact Hz.
  - rewrite bool_decide_eq_false_2 by (intros [? ?]; discriminate).
    intros [= <-]. exact Hz.
  - discriminate.
  - destruct document as [| | | |text|items|sources]; simpl; try discriminate.
    + destruct (Json.substring_of name text); simpl; [discriminate|].
      intros [= <-]. exact Hz.
    + destruct (existsb (Json.is_string name) items); simpl; [discriminate|].
      intros [= <-]. exact Hz.
    + destruct (sources !! name) as [source|] eqn:E.
      * rewrite bool_decide_eq_true_2 by eauto. simpl.
        intros Hl. exact (Hcfg sources name source level eq_refl E Hl).
      * rewrite bool_decide_eq_false_2 by (intros [? ?]; discriminate).
        intros [= <-]. exact Hz.
Qed.

Lemma get_source_trust_level_range_witness :
  exists t, number (Json.JFloat (Float.Finite (Float.literal 0.9))) = Some t
            /\ (0 <= t <= 1)%Q.
Proof.
  apply (get_source_trust_level_range veridica_file "veridica").
  - intros sources n source v [= <-] Hs Hv.
    apply lookup_singleton_Some in Hs. destruct Hs as [_ <-].
    injection Hv as <-. eexists. split; [reflexivity|].
    vm_compute. split; discriminate.
  - reflexivity.
Defined.

Module PermutationFacts.
Import TrustedSources Veracity VeracityFacts.

Lemma scored_permutation nl input_text articles articles' :
  Permutation articles articles' ->
  forall scored,
    Forall2 (fun a m => scores nl input_text a = Ok m) articles scored ->
    exists scored',
      Forall2 (fun a m => scores nl input_text a = Ok m) articles' scored' /\
      Permutation scored scored'.
Proof.
  induction 1 as [|a l l' _ IH|a b l|l l' l'' _ IH1 _ IH2]; intros scored HF.
  - inversion HF; subst. exists []. split; constructor.
  - inversion HF as [|? m ? s' Hm Hrest]; subst.
    destruct (IH s' Hrest) as (s'' & HF' & HP).
    exists (m :: s''). split; [constructor; assumption|constructor; exact HP].
  - inversion HF as [|? mb ? s1 Hb H1]; subst.
    inversion H1 as [|? ma ? s2 Ha H2]; subst.
    exists (ma :: mb :: s2). split; [repeat constructor; assumption|apply perm_swap].
  - destruct (IH1 scored HF) as (s' & HF' & HP').
    destruct (IH2 s' HF') as (s'' & HF'' & HP'').
    exists s''. split; [exact HF''|]. etransitivity; eassumption.
Qed.

Lemma filter_permutation {A : Type} (f : A -> bool) l l' :
  Permutation l l' -> Permutation (List.filter f l) (List.filter f l').
Proof.
  induction 1 as [|x l l' _ IH|x y l|l l' l'' _ IH1 _ IH2]; simpl.
  - constructor.
  - destruct (f x); [constructor|]; exact IH.
  - destruct (f x), (f y); try reflexivity. apply perm_swap.
  - etransitivity; eassumption.
Qed.

(** Two descending lists with the same elements start with equal keys. *)
Lemma sorted_heads {A : Type} (key : A -> Q) x l y l' :
  StronglySorted (PyFacts.desc key) (x :: l) ->
  StronglySorted (PyFacts.desc key) (y :: l') ->
  Permutation (x :: l) (y :: l') ->
  (key x == key y)%Q.
Proof.
  intros Hx Hy HP.
  apply StronglySorted_inv in Hx. destruct Hx as [_ Hx].
  apply StronglySorted_inv in Hy. destruct Hy as [_ Hy].
  rewrite List.Forall_forall in Hx, Hy.
  assert (Hyx : (key y <= key x)%Q).
  { assert (Hin : In y (x :: l)).
    { apply (Permutation_in _ (Permutation_sym HP)). left. reflexivity. }
    destruct Hin as [->|Hin]; [apply Qle_refl|exact (Hx y Hin)]. }
  assert (Hxy : (key x <= key y)%Q).
  { assert (Hin : In x (y :: l')).
    { apply (Permutation_in _ HP). left. reflexivity. }
    destruct Hin as [->|Hin]; [apply Qle_refl|exact (Hy x Hin)]. }
  apply Qle_antisym; assumption.
Qed.

End PermutationFacts.

(** The order of the articles does not matter to the outcome: a reordered
    list gives the same matches up to order, the same confidence, the same
    veracity score and the same verdict. *)
Theorem verify_veracity_order_independent nl file input_text articles articles' r :
  Permutation articles articles' ->
  verify_veracity nl file input_text articles = Ok r ->
  exists r',
    verify_veracity nl file input_text articles' = Ok r' /\
    Permutation (matches r) (matches r') /\
    confidence r' = confidence r /\
    veracity_score r' = veracity_score r /\
    verdict r' = verdict r.
Proof.
  intros HP H.
  pose proof (VeracityFacts.verify_veracity_ok _ _ _ _ _ H) as (s & HF & _).
  destruct (PermutationFacts.scored_permutation _ _ _ _ HP s HF) as (s2 & HF2 & HPs).
  rewrite (VeracityFacts.verify_veracity_scored _ _ _ _ _ HF) in H.
  rewrite (VeracityFacts.verify_veracity_scored _ _ _ _ _ HF2).
  assert (HPm : Permutation (Py.sort_desc match_score (List.filter admitted s))
                  (Py.sort_desc match_score (List.filter admitted s2))).
  { rewrite !PyFacts.sort_desc_perm.
    apply PermutationFacts.filter_permutation, HPs. }
  pose proof (PyFacts.sort_desc_sorted match_score (List.filter admitted s)) as Hs.
  pose proof (PyFacts.sort_desc_sorted match_score (List.filter admitted s2)) as Hs'.
  assert (Hin : forall m, In m (Py.sort_desc match_score (List.filter admitted s)) ->
                          exists a, scores nl input_text a = Ok m).
  { intros m Hm. apply (Permutation_in _ (PyFacts.sort_desc_perm _ _)) in Hm.
    apply filter_In in Hm. destruct Hm as [Hm _].
    destruct (Forall2_In_r _ _ _ _ HF Hm) as (a & _ & Ha). eauto. }
  destruct (Py.sort_desc match_score (List.filter admitted s)) as [|best rest];
    destruct (Py.sort_desc match_score (List.filter admitted s2)) as [|best' rest'].
  - injection H as <-. exists initial_results. repeat split; reflexivity.
  - apply Permutation_nil in HPm. discriminate.
  - apply Permutation_sym, Permutation_nil in HPm. discriminate.
  - assert (Heq : match_score best' = match_score best).
    { destruct (Hin best (or_introl eq_refl)) as [a Ha].
      destruct (Hin best') as [a' Ha'].
      { apply (Permutation_in _ (Permutation_sym HPm)). left. reflexivity. }
      apply (EvaluationFacts.match_score_canonical _ _ _ _ _ _ Ha' Ha).
      symmetry. exact (PermutationFacts.sorted_heads match_score _ _ _ _ Hs Hs' HPm). }
    rewrite Heq.
    destruct (get_source_trust_level file "veridica") as [trust|e]; [|discriminate].
    destruct (Json.float_times (match_score best) trust) as [score|e];
      [|discriminate].
    injection H as <-. eexists. split; [reflexivity|]. simpl.
    split; [exact HPm|]. split; [|split; reflexivity].
    f_equal. apply Permutation_length in HPm. simpl in HPm. lia.
Qed.

Lemma verify_veracity_order_independent_witness :
  exists r',
    verify_veracity plain_nltk veridica_file sample_claim sample_articles_reordered
    = Ok r' /\
    Permutation (matches sample_result) (matches r') /\
    confidence r' = confidence sample_result /\
    veracity_score r' = veracity_score sample_result /\
    verdict r' = verdict sample_result.
Proof.
  apply (verify_veracity_order_independent plain_nltk veridica_file sample_claim
           sample_articles sample_articles_reordered sample_result).
  - unfold sample_articles, sample_articles_reordered.
    change [art "Vaccin" "sigur"; art "vaccin sigur" "studiu"; art "x" "y"]
      with (rev [art "x" "y"; art "vaccin sigur" "studiu"; art "Vaccin" "sigur"]).
    apply Permutation_sym, Permutation_rev.
  - vm_compute. reflexivity.
Defined.

(** * Further properties of the similar-article finder *)

Module FinderFacts.
Import ArticleAnalyzer AnalyzerFacts.

(** The entry [find_similar_articles] builds for an article. *)
Definition entry (art0 : gmap string string) (sim : Q) (bad : bool) : Similar :=
  mkSimilar (get_str art0 "title") (get_str art0 "link")
    (get_str art0 "description") sim bad.

(** The similarity the loop computes for an article. *)
Definition article_similarity (md : Models) (input : string)
    (art0 : gmap string string) : result Q :=
  calculate_similarity md input (preprocess_text md (article_text art0)).

Lemma find_loop_acc md input bad threshold articles : forall results,
  find_loop md input articles bad threshold results =
  match find_loop md input articles bad threshold [] with
  | Ok rs => Ok (results ++ rs)
  | Raise e => Raise e
  end.
Proof.
  induction articles as [|art0 articles IH]; intros results.
  - simpl. rewrite app_nil_r. reflexivity.
  - rewrite !find_loop_unfold.
    destruct (calculate_similarity md input _) as [sim|e]; [|reflexivity].
    rewrite IH. rewrite (IH (if Py.gt sim threshold then _ else [])).
    destruct (find_loop md input articles bad threshold []) as [rs|e];
      [|reflexivity].
    destruct (Py.gt sim threshold); simpl; [rewrite <- app_assoc|]; reflexivity.
Qed.

Lemma find_loop_cons md input bad threshold art0 articles :
  find_loop md input (art0 :: articles) bad threshold [] =
  match article_similarity md input art0 with
  | Ok sim =>
      match find_loop md input articles bad threshold [] with
      | Ok rs => Ok ((if Py.gt sim threshold then [entry art0 sim bad] else []) ++ rs)
      | Raise e => Raise e
      end
  | Raise e => Raise e
  end.
Proof.
  rewrite find_loop_unfold. unfold article_similarity.
  destruct (calculate_similarity md input _) as [sim|e]; [|reflexivity].
  rewrite find_loop_acc. reflexivity.
Qed.

Lemma find_loop_ok md input bad threshold articles : forall rs,
  find_loop md input articles bad threshold [] = Ok rs ->
  exists sims,
    Forall2 (fun art0 sim => article_similarity md input art0 = Ok sim)
      articles sims /\
    rs = map (fun p => entry p.1 p.2 bad)
           (List.filter (fun p => Py.gt p.2 threshold) (combine articles sims)).
Proof.
  induction articles as [|art0 articles IH]; intros rs H.
  - injection H as <-. exists []. split; [constructor|reflexivity].
  - rewrite find_loop_cons in H.
    destruct (article_similarity md input art0) as [sim|e] eqn:E; [|discriminate].
    destruct (find_loop md input articles bad threshold []) as [rs'|e] eqn:E';
      [|discriminate].
    injection H as <-. destruct (IH rs' eq_refl) as (sims & HF & ->).
    exists (sim :: sims). split; [constructor; assumption|].
    simpl. destruct (Py.gt sim threshold); reflexivity.
Qed.

Lemma find_loop_total md input bad threshold articles sims :
  Forall2 (fun art0 sim => article_similarity md input art0 = Ok sim)
    articles sims ->
  find_loop md input articles bad threshold [] =
  Ok (map (fun p => entry p.1 p.2 bad)
        (List.filter (fun p => Py.gt p.2 threshold) (combine articles sims))).
Proof.
  induction 1 as [|art0 sim articles sims H0 _ IH]; [reflexivity|].
  rewrite find_loop_cons, H0, IH. simpl.
  destruct (Py.gt sim threshold); reflexivity.
Qed.

End FinderFacts.

(** Every entry [find_similar_articles] returns copies the title, link and
    description of an article of the list, carries the flag it was called
    with and a similarity above the threshold; there are no more entries
    than articles. *)
Theorem find_similar_articles_entries md input_text articles bad threshold rs :
  ArticleAnalyzer.find_similar_articles md input_text articles bad threshold = Ok rs ->
  length rs <= length articles /\
  Forall (fun s =>
            (threshold < ArticleAnalyzer.similarity s)%Q /\
            ArticleAnalyzer.is_bad s = bad /\
            exists art0, In art0 articles /\
              ArticleAnalyzer.s_title s = ArticleAnalyzer.get_str art0 "title" /\
              ArticleAnalyzer.s_link s = ArticleAnalyzer.get_str art0 "link" /\
              ArticleAnalyzer.s_description s
              = ArticleAnalyzer.get_str art0 "description") rs.
Proof.
  unfold ArticleAnalyzer.find_similar_articles. intros H.
  apply FinderFacts.find_loop_ok in H. destruct H as (sims & HF & ->).
  split.
  - rewrite length_map. etransitivity; [apply filter_length_le|].
    rewrite length_combine. lia.
  - apply List.Forall_forall. intros s Hin.
    apply in_map_iff in Hin. destruct Hin as ([art0 sim] & <- & Hin).
    apply filter_In in Hin. destruct Hin as [Hin Hgt]. simpl in *.
    split; [apply PyFacts.gt_spec; exact Hgt|]. split; [reflexivity|].
    exists art0. split; [eapply in_combine_l; exact Hin|]. auto.
Qed.

Lemma find_similar_articles_entries_witness :
  length [ArticleAnalyzer.mkSimilar "" "" "" 0 false] <= length [blank_article] /\
  Forall (fun s =>
            (-1 < ArticleAnalyzer.similarity s)%Q /\
            ArticleAnalyzer.is_bad s = false /\
            exists art0, In art0 [blank_article] /\
              ArticleAnalyzer.s_title s = ArticleAnalyzer.get_str art0 "title" /\
              ArticleAnalyzer.s_link s = ArticleAnalyzer.get_str art0 "link" /\
              ArticleAnalyzer.s_description s
              = ArticleAnalyzer.get_str art0 "description")
    [ArticleAnalyzer.mkSimilar "" "" "" 0 false].
Proof.
  apply (find_similar_articles_entries plain_models "vaccin" [blank_article]
           false (-1)).
  vm_compute. reflexivity.
Defined.

(** Searching a concatenation of two lists is searching each and
    concatenating the results; an exception in either part is raised, the
    first part's first. *)
Theorem find_similar_articles_app md input_text articles1 articles2 bad threshold :
  ArticleAnalyzer.find_similar_articles md input_text (articles1 ++ articles2)
    bad threshold =
  match ArticleAnalyzer.find_similar_articles md input_text articles1 bad threshold with
  | Ok rs1 =>
      match ArticleAnalyzer.find_similar_articles md input_text articles2
              bad threshold with
      | Ok rs2 => Ok (rs1 ++ rs2)
      | Raise e => Raise e
      end
  | Raise e => Raise e
  end.
Proof.
  unfold ArticleAnalyzer.find_similar_articles.
  set (input := ArticleAnalyzer.preprocess_text md input_text).
  induction articles1 as [|art0 articles1 IH]; simpl app.
  - cbn [ArticleAnalyzer.find_loop].
    destruct (ArticleAnalyzer.find_loop md input articles2 bad threshold []);
      reflexivity.
  - rewrite !FinderFacts.find_loop_cons, IH.
    destruct (FinderFacts.article_similarity md input art0) as [sim|e];
      [|reflexivity].
    destruct (ArticleAnalyzer.find_loop md input articles1 bad threshold [])
      as [rs1|e]; [|reflexivity].
    destruct (ArticleAnalyzer.find_loop md input articles2 bad threshold [])
      as [rs2|e]; [|reflexivity].
    rewrite app_assoc. reflexivity.
Qed.

(** The flag changes nothing but the tag of the entries: the search over a
    corpus of disinformation is the search over the same list as verified
    articles with every entry marked. *)
Theorem find_similar_articles_flag md input_text articles threshold :
  ArticleAnalyzer.find_similar_articles md input_text articles true threshold =
  match ArticleAnalyzer.find_similar_articles md input_text articles false threshold with
  | Ok rs =>
      Ok (map (fun s => ArticleAnalyzer.mkSimilar
                          (ArticleAnalyzer.s_title s) (ArticleAnalyzer.s_link s)
                          (ArticleAnalyzer.s_description s)
                          (ArticleAnalyzer.similarity s) true) rs)
  | Raise e => Raise e
  end.
Proof.
  unfold ArticleAnalyzer.find_similar_articles.
  set (input := ArticleAnalyzer.preprocess_text md input_text).
  induction articles as [|art0 articles IH]; [reflexivity|].
  rewrite !FinderFacts.find_loop_cons, IH.
  destruct (FinderFacts.article_similarity md input art0) as [sim|e];
    [|reflexivity].
  destruct (ArticleAnalyzer.find_loop md input articles false threshold [])
    as [rs|e]; [|reflexivity].
  destruct (Py.gt sim threshold); reflexivity.
Qed.

(** Raising the threshold only removes entries: the result for the higher
    threshold is the result for the lower one without the entries whose
    similarity does not exceed it. *)
Theorem find_similar_articles_threshold md input_text articles bad t1 t2 rs :
  (t1 <= t2)%Q ->
  ArticleAnalyzer.find_similar_articles md input_text articles bad t1 = Ok rs ->
  ArticleAnalyzer.find_similar_articles md input_text articles bad t2 =
  Ok (List.filter (fun s => Py.gt (ArticleAnalyzer.similarity s) t2) rs).
Proof.
  unfold ArticleAnalyzer.find_similar_articles. intros Hle H.
  apply FinderFacts.find_loop_ok in H. destruct H as (sims & HF & ->).
  rewrite (FinderFacts.find_loop_total _ _ _ _ _ _ HF). f_equal.
  induction (combine articles sims) as [|[art0 sim] l IH]; [reflexivity|].
  simpl. destruct (Py.gt sim t2) eqn:E2.
  - assert (E1 : Py.gt sim t1 = true).
    { apply PyFacts.gt_spec. apply PyFacts.gt_spec in E2. lra. }
    rewrite E1. simpl. rewrite E2. f_equal. exact IH.
  - destruct (Py.gt sim t1); simpl; [rewrite E2|]; exact IH.
Qed.

Lemma find_similar_articles_threshold_witness :
  ArticleAnalyzer.find_similar_articles plain_models "vaccin" [blank_article]
    false 0.1 =
  Ok (List.filter (fun s => Py.gt (ArticleAnalyzer.similarity s) 0.1)
        [ArticleAnalyzer.mkSimilar "" "" "" 0 false]).
Proof.
  apply (find_similar_articles_threshold plain_models "vaccin" [blank_article]
           false (-1) 0.1).
  - vm_compute. discriminate.
  - vm_compute. reflexivity.
Defined.

(** The search returns exactly when the similarity computation succeeds for
    every article of the list, those with neither title nor description
    included. *)
Theorem find_similar_articles_returns_iff md input_text articles bad threshold :
  (exists rs,
     ArticleAnalyzer.find_similar_articles md input_text articles bad threshold
     = Ok rs) <->
  Forall (fun art0 =>
            exists sim,
              ArticleAnalyzer.calculate_similarity md
                (ArticleAnalyzer.preprocess_text md input_text)
                (ArticleAnalyzer.preprocess_text md
                   (ArticleAnalyzer.article_text art0)) = Ok sim) articles.
Proof.
  unfold ArticleAnalyzer.find_similar_articles. split.
  - intros [rs H]. apply FinderFacts.find_loop_ok in H.
    destruct H as (sims & HF & _).
    induction HF; constructor; eauto.
  - intros H.
    assert (exists sims,
              Forall2 (fun art0 sim =>
                         FinderFacts.article_similarity md
                           (ArticleAnalyzer.preprocess_text md input_text) art0
                         = Ok sim) articles sims) as [sims HF].
    { induction H as [|art0 articles [sim Hs] _ [sims IH]].
      - exists []. constructor.
      - exists (sim :: sims). constructor; assumption. }
    rewrite (FinderFacts.find_loop_total _ _ _ _ _ _ HF). eauto.
Qed.

(** * Properties of the text normalizer *)

Module TextFacts.
Import TrustedSources.

Fixpoint all_chars (p : ascii -> bool) (s : string) : bool :=
  match s with
  | EmptyString => true
  | String c s' => p c && all_chars p s'
  end.

(** A word of normalized text: non-empty, made of word characters that are
    neither blanks nor upper-case letters. *)
Definition word_char (c : ascii) : bool :=
  Py.isword c && negb (Py.isspace c) && Ascii.eqb (Py.lower_char c) c.

Definition clean_word (w : string) : Prop :=
  w <> EmptyString /\ all_chars word_char w = true.

Lemma app_nil_l s : EmptyString +:+ s = s.
Proof. reflexivity. Qed.

Lemma app_cons c s t : String c s +:+ t = String c (s +:+ t).
Proof. reflexivity. Qed.

Lemma app_nil_r s : s +:+ EmptyString = s.
Proof.
  induction s as [|c s IH]; [reflexivity|]. rewrite app_cons, IH. reflexivity.
Qed.

Lemma app_assoc s t u : (s +:+ t) +:+ u = s +:+ (t +:+ u).
Proof.
  induction s as [|c s IH]; [reflexivity|]. rewrite !app_cons, IH. reflexivity.
Qed.

Lemma all_chars_app p s t :
  all_chars p (s +:+ t) = all_chars p s && all_chars p t.
Proof.
  induction s as [|c s IH]; [reflexivity|].
  rewrite app_cons. simpl. rewrite IH, andb_assoc. reflexivity.
Qed.

Lemma all_chars_impl (p q : ascii -> bool) s :
  (forall c, p c = true -> q c = true) ->
  all_chars p s = true -> all_chars q s = true.
Proof.
  intros Hpq. induction s as [|c s IH]; [reflexivity|]. simpl.
  rewrite !andb_true_iff. intros [Hc Hs]. auto.
Qed.

Lemma lower_char_idem c : Py.lower_char (Py.lower_char c) = Py.lower_char c.
Proof. destruct c as [[] [] [] [] [] [] [] []]; reflexivity. Qed.

Lemma isword_lower_char c : Py.isword (Py.lower_char c) = Py.isword c.
Proof. destruct c as [[] [] [] [] [] [] [] []]; reflexivity. Qed.

Lemma isspace_lower_char c : Py.isspace (Py.lower_char c) = Py.isspace c.
Proof. destruct c as [[] [] [] [] [] [] [] []]; reflexivity. Qed.

Definition lowered (c : ascii) : bool := Ascii.eqb (Py.lower_char c) c.

Lemma lower_lowered s : all_chars lowered (Py.lower s) = true.
Proof.
  induction s as [|c s IH]; [reflexivity|]. simpl. rewrite IH, andb_true_r.
  unfold lowered. rewrite lower_char_idem. apply Ascii.eqb_refl.
Qed.

Lemma lower_fix s : all_chars lowered s = true -> Py.lower s = s.
Proof.
  induction s as [|c s IH]; [reflexivity|]. simpl.
  rewrite andb_true_iff. intros [Hc Hs].
  apply Ascii.eqb_eq in Hc. rewrite Hc, (IH Hs). reflexivity.
Qed.

Definition kept (c : ascii) : bool := Py.isword c || Py.isspace c.

Lemma strip_special_kept s : all_chars kept (Py.strip_special s) = true.
Proof.
  induction s as [|c s IH]; [reflexivity|]. simpl.
  destruct (Py.isword c || Py.isspace c) eqn:E; [|exact IH].
  simpl. unfold kept at 1. rewrite E. exact IH.
Qed.

Lemma strip_special_all p s :
  all_chars p s = true -> all_chars p (Py.strip_special s) = true.
Proof.
  induction s as [|c s IH]; [reflexivity|]. simpl.
  rewrite andb_true_iff. intros [Hc Hs].
  destruct (Py.isword c || Py.isspace c); [|auto].
  simpl. rewrite Hc. auto.
Qed.

Lemma strip_special_fix s :
  all_chars kept s = true -> Py.strip_special s = s.
Proof.
  induction s as [|c s IH]; [reflexivity|]. simpl.
  rewrite andb_true_iff. unfold kept at 1. intros [-> Hs].
  rewrite (IH Hs). reflexivity.
Qed.

Definition nospace (c : ascii) : bool := negb (Py.isspace c).

Definition good_word (w : string) : Prop :=
  w <> EmptyString /\ all_chars nospace w = true.

Lemma flush_good cur :
  all_chars nospace cur = true -> Forall good_word (Py.flush cur).
Proof.
  intros H. destruct cur as [|c cur]; [constructor|].
  constructor; [|constructor]. split; [discriminate|exact H].
Qed.

Lemma split_loop_good s : forall cur,
  all_chars nospace cur = true -> Forall good_word (Py.split_loop cur s).
Proof.
  induction s as [|c s IH]; intros cur Hcur; simpl.
  - apply flush_good, Hcur.
  - destruct (Py.isspace c) eqn:E.
    + apply Forall_app. split; [apply flush_good, Hcur|]. apply IH. reflexivity.
    + apply IH. rewrite all_chars_app, Hcur. simpl.
      unfold nospace. rewrite E. reflexivity.
Qed.

Lemma flush_all p cur :
  all_chars p cur = true -> Forall (fun w => all_chars p w = true) (Py.flush cur).
Proof.
  intros H. destruct cur; repeat constructor. exact H.
Qed.

Lemma split_loop_all p s : forall cur,
  all_chars p cur = true -> all_chars p s = true ->
  Forall (fun w => all_chars p w = true) (Py.split_loop cur s).
Proof.
  induction s as [|c s IH]; intros cur Hcur Hs; simpl.
  - apply flush_all, Hcur.
  - simpl in Hs. apply andb_true_iff in Hs. destruct Hs as [Hc Hs].
    destruct (Py.isspace c).
    + apply Forall_app. split; [apply flush_all, Hcur|]. apply IH; auto.
    + apply IH; [|exact Hs]. rewrite all_chars_app, Hcur. simpl.
      rewrite Hc. reflexivity.
Qed.

Lemma split_loop_word w : forall cur rest,
  all_chars nospace w = true ->
  Py.split_loop cur (w +:+ rest) = Py.split_loop (cur +:+ w) rest.
Proof.
  induction w as [|c w IH]; intros cur rest Hw.
  - rewrite app_nil_l, app_nil_r. reflexivity.
  - simpl in Hw. apply andb_true_iff in Hw. destruct Hw as [Hc Hw].
    rewrite app_cons. cbn [Py.split_loop].
    unfold nospace in Hc. apply negb_true_iff in Hc. rewrite Hc.
    rewrite (IH _ _ Hw), app_assoc. reflexivity.
Qed.

Lemma join_cons2 sep x y l :
  Py.join sep (x :: y :: l) = x +:+ sep +:+ Py.join sep (y :: l).
Proof. reflexivity. Qed.

Lemma split_join ws :
  Forall good_word ws -> Py.split (Py.join " " ws) = ws.
Proof.
  unfold Py.split. induction 1 as [|w ws [Hne Hw] Hws IH]; [reflexivity|].
  destruct ws as [|w2 ws].
  - change (Py.join " " [w]) with w. rewrite <- (app_nil_r w) at 1.
    rewrite (split_loop_word w _ _ Hw), app_nil_l. simpl.
    destruct w; [contradiction|reflexivity].
  - rewrite join_cons2, (split_loop_word w _ _ Hw), app_nil_l.
    change (" " +:+ Py.join " " (w2 :: ws))
      with (String " "%char (Py.join " " (w2 :: ws))).
    cbn [Py.split_loop]. change (Py.isspace " "%char) with true. cbv iota.
    rewrite IH. destruct w; [contradiction|reflexivity].
Qed.

Lemma all_chars_join p ws :
  p " "%char = true ->
  Forall (fun w => all_chars p w = true) ws ->
  all_chars p (Py.join " " ws) = true.
Proof.
  intros Hsp. induction 1 as [|w ws Hw Hws IH]; [reflexivity|].
  destruct ws as [|w2 ws]; [exact Hw|].
  rewrite join_cons2, !all_chars_app, Hw, IH. simpl. rewrite Hsp. reflexivity.
Qed.

(** The words of a preprocessed text. *)
Definition words_of (text : string) : list string :=
  Py.split (Py.strip_special (Py.lower text)).

Lemma preprocess_text_words text :
  preprocess_text text = Py.join " " (words_of text).
Proof. reflexivity. Qed.

Lemma words_of_good text : Forall good_word (words_of text).
Proof. apply split_loop_good. reflexivity. Qed.

Lemma words_of_all text :
  Forall (fun w => all_chars (fun c => kept c && lowered c) w = true)
    (words_of text).
Proof.
  apply split_loop_all; [reflexivity|].
  pose proof (strip_special_kept (Py.lower text)) as K.
  pose proof (strip_special_all lowered _ (lower_lowered text)) as Lo.
  revert K Lo. generalize (Py.strip_special (Py.lower text)). intros s.
  induction s as [|c s IH]; [reflexivity|]. simpl.
  rewrite !andb_true_iff. intros [Kc Ks] [Lc Ls]. auto.
Qed.

Lemma words_of_clean text : Forall clean_word (words_of text).
Proof.
  pose proof (words_of_good text) as G. pose proof (words_of_all text) as A.
  induction G as [|w ws [Hne Hn] _ IH]; [constructor|].
  inversion A as [|? ? Hw Hws]; subst.
  constructor; [|apply IH, Hws].
  split; [exact Hne|]. clear -Hn Hw.
  induction w as [|c w IH]; [reflexivity|]. simpl in *.
  apply andb_true_iff in Hn, Hw. destruct Hn as [Nc Nw], Hw as [Wc Ww].
  rewrite (IH Nw Ww), andb_true_r. unfold word_char.
  unfold nospace in Nc. apply andb_true_iff in Wc. destruct Wc as [Kc Lc].
  unfold kept in Kc. unfold lowered in Lc.
  apply negb_true_iff in Nc. rewrite Nc in *. rewrite orb_false_r in Kc.
  rewrite Kc, Lc. reflexivity.
Qed.

End TextFacts.

(** On texts of code points below 256: a preprocessed text is a sequence
    of words separated by single blanks, with no blank at either end; each
    word is non-empty and made of word characters only, none of them an
    upper-case letter. *)
Theorem preprocess_text_shape text :
  exists ws,
    preprocess_text text = Py.join " " ws /\
    Forall TextFacts.clean_word ws /\
    Py.split (preprocess_text text) = ws.
Proof.
  exists (TextFacts.words_of text).
  split; [reflexivity|]. split; [apply TextFacts.words_of_clean|].
  rewrite TextFacts.preprocess_text_words.
  apply TextFacts.split_join, TextFacts.words_of_good.
Qed.

(** On texts of code points below 256, preprocessing is idempotent: a
    preprocessed text is left as it is. *)
Theorem preprocess_text_idempotent text :
  preprocess_text (preprocess_text text) = preprocess_text text.
Proof.
  rewrite (TextFacts.preprocess_text_words text).
  pose proof (TextFacts.words_of_good text) as G.
  pose proof (TextFacts.words_of_all text) as A.
  set (ws := TextFacts.words_of text) in *.
  unfold preprocess_text at 1.
  rewrite TextFacts.lower_fix.
  - rewrite TextFacts.strip_special_fix.
    + rewrite (TextFacts.split_join ws G). reflexivity.
    + apply TextFacts.all_chars_join; [reflexivity|].
      eapply Forall_impl; [exact A|]. intros w.
      apply TextFacts.all_chars_impl. intros c Hc.
      apply andb_true_iff in Hc. tauto.
  - apply TextFacts.all_chars_join; [reflexivity|].
    eapply Forall_impl; [exact A|]. intros w.
    apply TextFacts.all_chars_impl. intros c Hc.
    apply andb_true_iff in Hc. tauto.
Qed.

(** A text of code points below 256 without a word character (blanks
    and punctuation only) preprocesses to the empty text. *)
Theorem preprocess_text_no_word text :
  TextFacts.all_chars (fun c => negb (Py.isword c)) text = true ->
  preprocess_text text = "".
Proof.
  intros H. unfold preprocess_text.
  assert (Hs : forall s cur,
             TextFacts.all_chars (fun c => negb (Py.isword c)) s = true ->
             Py.split_loop cur (Py.strip_special (Py.lower s)) = Py.flush cur).
  { induction s as [|c s IH]; intros cur Hc; [reflexivity|].
    simpl in Hc. apply andb_true_iff in Hc. destruct Hc as [Hc Hs].
    apply negb_true_iff in Hc. cbn [Py.lower Py.strip_special].
    rewrite TextFacts.isword_lower_char, TextFacts.isspace_lower_char, Hc.
    simpl orb. destruct (Py.isspace c) eqn:E; [|apply IH, Hs].
    cbn [Py.split_loop]. rewrite TextFacts.isspace_lower_char, E.
    rewrite (IH _ Hs). simpl. apply app_nil_r. }
  unfold Py.split. rewrite (Hs text _ H). reflexivity.
Qed.

Lemma preprocess_text_no_word_witness : preprocess_text " ?!  ... " = "".
Proof.
  apply (preprocess_text_no_word " ?!  ... "). reflexivity.
Defined.

(** * Matching blocks are common substrings *)

Module MatchFacts.
Import Difflib DifflibFacts.

Section Genuine.
Variables a b : list ascii.

(** The block [x] lies on equal elements of [a] and [b]. *)
Definition genuine (x : Match) : Prop :=
  forall t, t < m_size x ->
    exists c, a !! (m_a x + t) = Some c /\ b !! (m_b x + t) = Some c.

(** After the rows below [n], [j2len] maps [j] to the length of a common
    run that ends at [a[n-1]] and [b[j]]. *)
Definition j2len_gen (n : nat) (m : gmap nat nat) : Prop :=
  forall j v, m !! j = Some v ->
    v <= n /\ v <= S j /\
    forall t, t < v ->
      exists c, a !! (n - v + t) = Some c /\ b !! (S j - v + t) = Some c.

Lemma b2j_get_sound i j :
  j ∈ b2j_get b (a !! i) -> exists c, a !! i = Some c /\ b !! j = Some c.
Proof.
  destruct (a !! i) as [c|]; [|intros H; inversion H].
  rewrite b2j_get_spec. destruct (popular b c); [intros H; inversion H|].
  intros H. apply occ_spec in H. rewrite Nat.sub_0_r in H.
  exists c. tauto.
Qed.

Lemma run_extend i j j2len :
  j2len_gen i j2len ->
  (exists c, a !! i = Some c /\ b !! j = Some c) ->
  let k := j2lenget_pred j2len j + 1 in
  k <= S i /\ k <= S j /\
  forall t, t < k ->
    exists c, a !! (S i - k + t) = Some c /\ b !! (S j - k + t) = Some c.
Proof.
  intros Hg Hij k.
  assert (Hv : j2lenget_pred j2len j <= i /\ j2lenget_pred j2len j <= j /\
               forall t, t < j2lenget_pred j2len j ->
                 exists c, a !! (i - j2lenget_pred j2len j + t) = Some c /\
                           b !! (j - j2lenget_pred j2len j + t) = Some c).
  { destruct j as [|j']; simpl; [repeat split; try lia; intros; lia|].
    destruct (j2len !! j') as [v|] eqn:E; simpl;
      [|repeat split; try lia; intros; lia].
    destruct (Hg _ _ E) as (H1 & H2 & H3). repeat split; try lia.
    intros t Ht. destruct (H3 t Ht) as (c & Ha & Hb).
    exists c. split; [exact Ha|].
    replace (S j' - v + t) with (S j' - v + t) by lia. exact Hb. }
  destruct Hv as (V1 & V2 & V3). subst k.
  set (v := j2lenget_pred j2len j) in *.
  repeat split; try lia.
  intros t Ht. destruct (decide (t < v)) as [Hlt|Hge].
  - destruct (V3 t Hlt) as (c & Ha & Hb). exists c.
    replace (S i - (v + 1) + t) with (i - v + t) by lia.
    replace (S j - (v + 1) + t) with (j - v + t) by lia. tauto.
  - destruct Hij as (c & Ha & Hb). exists c.
    replace (S i - (v + 1) + t) with i by lia.
    replace (S j - (v + 1) + t) with j by lia. tauto.
Qed.

Lemma row_loop_gen i blo bhi j2len js :
  j2len_gen i j2len ->
  (forall j, j ∈ js -> exists c, a !! i = Some c /\ b !! j = Some c) ->
  forall new best,
    j2len_gen (S i) new -> genuine best ->
    j2len_gen (S i) (row_loop j2len i blo bhi js new best).1 /\
    genuine (row_loop j2len i blo bhi js new best).2.
Proof.
  intros Hg. induction js as [|j js IH]; intros Hjs new best Hnew Hbest.
  - simpl. auto.
  - assert (Hrest : forall j0, j0 ∈ js ->
                      exists c, a !! i = Some c /\ b !! j0 = Some c).
    { intros j0 Hj0. apply Hjs. right. exact Hj0. }
    cbn [row_loop]. destruct (j <? blo); [apply IH; assumption|].
    destruct (bhi <=? j); [simpl; auto|].
    pose proof (run_extend i j j2len Hg (Hjs j ltac:(left))) as (K1 & K2 & K3).
    apply IH; [exact Hrest| |].
    + intros j0 v. rewrite lookup_insert. destruct (decide (j = j0)) as [<-|].
      * intros [= <-]. repeat split; assumption.
      * apply Hnew.
    + destruct (m_size best <? j2lenget_pred j2len j + 1); [|exact Hbest].
      intros t Ht. simpl in *. apply K3, Ht.
Qed.

Lemma rows_gen blo bhi n : forall i st,
  j2len_gen i st.1 -> genuine st.2 ->
  genuine (fold_left (row_step a b blo bhi) (seq i n) st).2.
Proof.
  induction n as [|n IH]; intros i st Hj Hb; simpl; [exact Hb|].
  unfold row_step at 2.
  destruct (row_loop_gen i blo bhi st.1 (b2j_get b (a !! i)) Hj
              (fun j => b2j_get_sound i j) ∅ st.2) as [H1 H2].
  - intros j v. rewrite lookup_empty. discriminate.
  - exact Hb.
  - apply IH; assumption.
Qed.

Lemma scan_gen alo ahi blo bhi : genuine (scan a b alo ahi blo bhi).2.
Proof.
  apply rows_gen.
  - intros j v. simpl. rewrite lookup_empty. discriminate.
  - intros t Ht. simpl in Ht. lia.
Qed.

Lemma elt_eqb_true x y : elt_eqb x y = true -> exists c, x = Some c /\ y = Some c.
Proof.
  destruct x as [c|], y as [d|]; simpl; try discriminate.
  intros H. apply Ascii.eqb_eq in H. subst. eauto.
Qed.

Lemma extend_low_gen junk alo blo besti : forall bestj bestsize,
  genuine (mkMatch besti bestj bestsize) ->
  genuine (extend_low a b junk alo blo besti bestj bestsize).
Proof.
  induction besti as [|i IH]; intros bestj bestsize Hg; [exact Hg|].
  destruct bestj as [|j]; [exact Hg|]. cbn [extend_low].
  destruct (_ && _ && _ && _) eqn:E; [|exact Hg].
  apply andb_true_iff in E. destruct E as [_ E].
  apply elt_eqb_true in E. destruct E as (c & Ha & Hb).
  apply IH. unfold genuine in *. intros t Ht. simpl in *.
  destruct t as [|t].
  - exists c. rewrite !Nat.add_0_r. tauto.
  - destruct (Hg t ltac:(lia)) as (c' & Ha' & Hb'). exists c'.
    replace (i + S t) with (S i + t) by lia.
    replace (j + S t) with (S j + t) by lia. tauto.
Qed.

Lemma extend_high_gen junk ahi bhi besti bestj n : forall bestsize,
  genuine (mkMatch besti bestj bestsize) ->
  genuine (mkMatch besti bestj
             (extend_high a b junk n ahi bhi besti bestj bestsize)).
Proof.
  induction n as [|n IH]; intros bestsize Hg; [exact Hg|]. cbn [extend_high].
  destruct (_ && _ && _ && _) eqn:E; [|exact Hg].
  apply andb_true_iff in E. destruct E as [_ E].
  apply elt_eqb_true in E. destruct E as (c & Ha & Hb).
  apply IH. unfold genuine in *. intros t Ht. simpl in *.
  destruct (decide (t = bestsize)) as [->|]; [eauto|].
  apply Hg. lia.
Qed.

Lemma extend_gen junk alo ahi blo bhi x :
  genuine x -> genuine (extend a b junk alo ahi blo bhi x).
Proof.
  intros Hg. unfold extend.
  pose proof (extend_low_gen junk alo blo (m_a x) (m_b x) (m_size x)) as L.
  destruct x as [i j k]. simpl in *. specialize (L Hg).
  destruct (extend_low a b junk alo blo i j k) as [i' j' k'].
  apply extend_high_gen. exact L.
Qed.

Lemma find_longest_match_genuine alo ahi blo bhi :
  genuine (find_longest_match a b alo ahi blo bhi).
Proof.
  unfold find_longest_match. apply extend_gen, extend_gen, scan_gen.
Qed.

(** ** A full score leaves no difference *)

Definition slice (l : list ascii) (lo hi : nat) : list ascii :=
  take (hi - lo) (drop lo l).

Definition differs (w : window) : nat :=
  let '(alo, ahi, blo, bhi) := w in
  if decide (slice a alo ahi = slice b blo bhi) then 0 else 1.

Definition pot (w : window) : nat := span_a w + span_b w - differs w.

Lemma slice_split l lo mid hi :
  lo <= mid -> mid <= hi -> slice l lo hi = slice l lo mid ++ slice l mid hi.
Proof.
  intros H1 H2. unfold slice.
  replace (hi - lo) with ((mid - lo) + (hi - mid)) by lia.
  rewrite <- take_take_drop, drop_drop.
  replace (lo + (mid - lo)) with mid by lia. reflexivity.
Qed.

Lemma slice_full l : slice l 0 (length l) = l.
Proof.
  unfold slice. rewrite Nat.sub_0_r, drop_0. apply take_ge. lia.
Qed.

Lemma common_run k : forall i j,
  (forall t, t < k -> exists c, a !! (i + t) = Some c /\ b !! (j + t) = Some c) ->
  take k (drop i a) = take k (drop j b).
Proof.
  induction k as [|k IH]; intros i j H; [reflexivity|].
  destruct (H 0 ltac:(lia)) as (c & Ha & Hb). rewrite !Nat.add_0_r in *.
  rewrite (drop_S _ _ _ Ha), (drop_S _ _ _ Hb). simpl. f_equal.
  apply IH. intros t Ht. destruct (H (S t) ltac:(lia)) as (c' & Ha' & Hb').
  exists c'. replace (S i + t) with (i + S t) by lia.
  replace (S j + t) with (j + S t) by lia. tauto.
Qed.

Lemma genuine_slice x :
  genuine x ->
  slice a (m_a x) (m_a x + m_size x) = slice b (m_b x) (m_b x + m_size x).
Proof.
  intros Hg. unfold slice.
  replace (m_a x + m_size x - m_a x) with (m_size x) by lia.
  replace (m_b x + m_size x - m_b x) with (m_size x) by lia.
  apply common_run, Hg.
Qed.

Lemma differs_le_1 w : differs w <= 1.
Proof.
  destruct w as [[[alo ahi] blo] bhi]. simpl. destruct (decide _); lia.
Qed.

Lemma differs_le w : differs w <= span_a w + span_b w.
Proof.
  destruct w as [[[alo ahi] blo] bhi]. simpl.
  destruct (decide _) as [|Hne]; [lia|].
  destruct (decide (ahi - alo + (bhi - blo) = 0)) as [E|]; [|lia].
  exfalso. apply Hne. unfold slice.
  replace (ahi - alo) with 0 by lia. replace (bhi - blo) with 0 by lia.
  reflexivity.
Qed.

Lemma differs_split alo ahi blo bhi x :
  alo <= m_a x -> m_a x + m_size x <= ahi ->
  blo <= m_b x -> m_b x + m_size x <= bhi ->
  genuine x ->
  differs (alo, ahi, blo, bhi)
  <= differs (alo, m_a x, blo, m_b x)
     + differs (m_a x + m_size x, ahi, m_b x + m_size x, bhi).
Proof.
  intros A1 A2 B1 B2 Hg. cbn [differs].
  destruct (decide (slice a alo (m_a x) = slice b blo (m_b x))) as [EL|];
    [|destruct (decide (slice a alo ahi = slice b blo bhi)),
               (decide (slice a (m_a x + m_size x) ahi
                        = slice b (m_b x + m_size x) bhi)); lia].
  destruct (decide (slice a (m_a x + m_size x) ahi
                    = slice b (m_b x + m_size x) bhi)) as [ER|];
    [|destruct (decide (slice a alo ahi = slice b blo bhi)); lia].
  rewrite decide_True; [lia|].
  rewrite (slice_split a alo (m_a x) ahi), (slice_split b blo (m_b x) bhi) by lia.
  rewrite (slice_split a (m_a x) (m_a x + m_size x) ahi),
          (slice_split b (m_b x) (m_b x + m_size x) bhi) by lia.
  rewrite EL, ER, (genuine_slice x Hg). reflexivity.
Qed.

Lemma blocks_loop_pot fuel : forall q acc r,
  Forall valid q ->
  blocks_loop a b fuel q acc = Some r ->
  2 * sizes r <= 2 * sizes acc + list_sum (map pot q).
Proof.
  induction fuel as [|fuel IH]; intros q acc r Hv Hr.
  - destruct q as [|[[[alo ahi] blo] bhi] q]; [|discriminate].
    injection Hr as <-. lia.
  - destruct q as [|[[[alo ahi] blo] bhi] q].
    + injection Hr as <-. lia.
    + inversion Hv as [|w q0 Hab Hq]; subst. destruct Hab as [Ha Hb].
      rewrite blocks_loop_step in Hr. cbv zeta in Hr.
      pose proof (find_longest_match_ok a b alo ahi blo bhi Ha Hb)
        as (B1 & B2 & B3 & B4).
      pose proof (find_longest_match_genuine alo ahi blo bhi) as Hg.
      set (x := find_longest_match a b alo ahi blo bhi) in *. clearbody x.
      change (list_sum (map pot ((alo, ahi, blo, bhi) :: q)))
        with (pot (alo, ahi, blo, bhi) + list_sum (map pot q)).
      destruct (Nat.eqb_spec (m_size x) 0) as [E|E].
      * specialize (IH q acc r Hq Hr). lia.
      * pose proof (differs_split alo ahi blo bhi x B1 B2 B3 B4 Hg) as D.
        pose proof (differs_le (alo, m_a x, blo, m_b x)) as DL.
        pose proof (differs_le (m_a x + m_size x, ahi, m_b x + m_size x, bhi)) as DR.
        pose proof (differs_le (alo, ahi, blo, bhi)) as DW.
        set (L := (alo, m_a x, blo, m_b x)) in *.
        set (R := (m_a x + m_size x, ahi, m_b x + m_size x, bhi)) in *.
        assert (PL : pot L = (m_a x - alo) + (m_b x - blo) - differs L)
          by reflexivity.
        assert (PR : pot R = (ahi - (m_a x + m_size x))
                             + (bhi - (m_b x + m_size x)) - differs R)
          by reflexivity.
        assert (PW : pot (alo, ahi, blo, bhi)
                     = (ahi - alo) + (bhi - blo) - differs (alo, ahi, blo, bhi))
          by reflexivity.
        assert (DL' : differs L <= (m_a x - alo) + (m_b x - blo)) by exact DL.
        assert (DR' : differs R <= (ahi - (m_a x + m_size x))
                                   + (bhi - (m_b x + m_size x))) by exact DR.
        assert (DW' : differs (alo, ahi, blo, bhi) <= (ahi - alo) + (bhi - blo))
          by exact DW.
        set (q1 := if (alo <? m_a x) && (blo <? m_b x) then L :: q else q) in *.
        assert (V1 : Forall valid q1 /\
                     list_sum (map pot q1) <= pot L + list_sum (map pot q)).
        { subst q1. destruct ((alo <? m_a x) && (blo <? m_b x)).
          - split; [constructor; [simpl; lia|exact Hq]|].
            change (list_sum (map pot (L :: q))) with (pot L + list_sum (map pot q)).
            lia.
          - split; [exact Hq|lia]. }
        destruct V1 as [V1 W1]. clearbody q1.
        set (q2 := if (m_a x + m_size x <? ahi) && (m_b x + m_size x <? bhi)
                   then R :: q1 else q1) in *.
        assert (V2 : Forall valid q2 /\
                     list_sum (map pot q2) <= pot R + list_sum (map pot q1)).
        { subst q2.
          destruct ((m_a x + m_size x <? ahi) && (m_b x + m_size x <? bhi)).
          - split; [constructor; [simpl; lia|exact V1]|].
            change (list_sum (map pot (R :: q1)))
              with (pot R + list_sum (map pot q1)).
            lia.
          - split; [exact V1|lia]. }
        destruct V2 as [V2 W2]. clearbody q2.
        specialize (IH q2 (acc ++ [x]) r V2 Hr).
        rewrite sizes_app in IH.
        replace (sizes [x]) with (m_size x) in IH by (unfold sizes; simpl; lia).
        lia.
Qed.

(** A ratio of 1 is reached by equal sequences only, as long as the
    lengths are exact as floats. *)
Lemma ratio_one_inv :
  (Z.of_nat (length a + length b) < 2 ^ 53)%Z -> (ratio a b == 1)%Q -> a = b.
Proof.
  intros Hlen. unfold ratio. fold (sizes (get_matching_blocks a b)).
  rewrite sizes_get_matching_blocks.
  destruct (raw_blocks_total a b) as (r & Hr & S1 & S2).
  rewrite Hr. simpl default.
  destruct (Nat.eqb_spec (length a + length b) 0) as [E|E].
  - intros _. destruct a, b; simpl in E; try lia. reflexivity.
  - intros H.
    assert (H2 : 2 * sizes r = length a + length b).
    { apply calculate_ratio_one_inv; [lia|exact Hlen|exact H]. }
    unfold raw_blocks in Hr.
    apply blocks_loop_pot in Hr; [|constructor; [simpl; lia|constructor]].
    change (list_sum (map pot [(0, length a, 0, length b)]))
      with (pot (0, length a, 0, length b) + 0) in Hr.
    unfold pot in Hr. cbn [span_a span_b differs] in Hr.
    rewrite !slice_full in Hr.
    destruct (decide (a = b)) as [|Hne]; [assumption|].
    unfold sizes in Hr at 2. simpl in Hr. lia.
Qed.

End Genuine.
End MatchFacts.

(** The similarity is 1.0 for identical texts and, as long as the two
    lengths sum to less than 2^53, for no other pair: beyond that the
    lengths are no longer exact as floats. *)
Theorem calculate_similarity_one_iff s t :
  (Z.of_nat (String.length s + String.length t) < 2 ^ 53)%Z ->
  (calculate_similarity s t == 1)%Q <-> s = t.
Proof.
  intros Hlen. split.
  - intros H. apply MatchFacts.ratio_one_inv in H.
    + rewrite <- (string_of_list_ascii_of_string s),
              <- (string_of_list_ascii_of_string t).
      unfold Py.chars in H. rewrite H. reflexivity.
    + assert (Hl : forall u, length (Py.chars u) = String.length u).
      { induction u as [|c u IH]; simpl; [reflexivity|]. rewrite IH. reflexivity. }
      rewrite !Hl. exact Hlen.
  - intros ->. apply DifflibFacts.ratio_same.
Qed.

Lemma calculate_similarity_one_iff_witness :
  (calculate_similarity "vaccin" "vaccin" == 1)%Q <-> "vaccin" = "vaccin".
Proof.
  apply (calculate_similarity_one_iff "vaccin" "vaccin"). simpl. lia.
Defined.

(** Against the empty text every non-empty text has similarity 0.0, in
    either order. *)
Theorem calculate_similarity_empty_other t :
  t <> "" ->
  (calculate_similarity "" t == 0)%Q /\ (calculate_similarity t "" == 0)%Q.
Proof.
  intros Ht.
  assert (Hc : Py.chars t <> []).
  { intros H. apply VeracityFacts.chars_nil in H. contradiction. }
  split.
  - apply DifflibFacts.ratio_nil_l, Hc.
  - apply DifflibFacts.ratio_nil_r, Hc.
Qed.

Lemma calculate_similarity_empty_other_witness :
  (calculate_similarity "" "vaccin" == 0)%Q /\
  (calculate_similarity "vaccin" "" == 0)%Q.
Proof.
  apply (calculate_similarity_empty_other "vaccin"). discriminate.
Defined.

(** * Properties of the scrapers *)

Module ScrapingFacts.
Import TrustedSources Scraping.

Lemma rstrip_idem s : rstrip (rstrip s) = rstrip s.
Proof.
  induction s as [|c s IH]; [reflexivity|]. cbn [rstrip].
  destruct (rstrip s) as [|d r] eqn:E.
  - destruct (Py.isspace c) eqn:Ec; [reflexivity|].
    cbn [rstrip]. rewrite Ec. reflexivity.
  - cbn [rstrip]. cbn [rstrip] in IH. rewrite IH. reflexivity.
Qed.

Lemma lstrip_idem s : lstrip (lstrip s) = lstrip s.
Proof.
  induction s as [|c s IH]; [reflexivity|]. cbn [lstrip].
  destruct (Py.isspace c) eqn:Ec; [exact IH|].
  cbn [lstrip]. rewrite Ec. reflexivity.
Qed.

Lemma rstrip_lstrip r : rstrip r = r -> rstrip (lstrip r) = lstrip r.
Proof.
  induction r as [|c r IH]; [reflexivity|]. intros H. cbn [lstrip].
  destruct (Py.isspace c) eqn:Ec; [|exact H].
  apply IH. cbn [rstrip] in H. destruct (rstrip r) as [|d r'] eqn:E.
  - rewrite Ec in H. discriminate.
  - injection H as <-. reflexivity.
Qed.

Lemma strip_idem s : strip (strip s) = strip s.
Proof.
  unfold strip.
  rewrite (rstrip_lstrip (rstrip s) (rstrip_idem s)). apply lstrip_idem.
Qed.

Lemma text_or_empty_stripped text : strip (text_or_empty text) = text_or_empty text.
Proof. destruct text as [t|]; [apply strip_idem|reflexivity]. Qed.

Lemma cards_loop_app cards : forall all_articles,
  cards_loop cards all_articles = all_articles ++ omap card_article cards.
Proof.
  induction cards as [|card cards IH]; intros all_articles; simpl.
  - rewrite app_nil_r. reflexivity.
  - destruct (card_article card) as [a|]; rewrite IH; [|reflexivity].
    rewrite <- app_assoc. reflexivity.
Qed.

(** A page stops the loop when the request fails or finds no card. *)
Definition stops (web : Web) (page : nat) : bool :=
  match get web (page_url page) with
  | Html (_ :: _) => false
  | _ => true
  end.

(** The articles of a page that answers with cards. *)
Definition page_articles (web : Web) (page : nat) : list Article :=
  match get web (page_url page) with
  | Html cards => omap card_article cards
  | RequestException _ => []
  end.

Definition failed (web : Web) (page : nat) : Prop :=
  exists message, get web (page_url page) = RequestException message.

Lemma pages_loop_inv web n : forall first all_articles urls r urls',
  pages_loop web (seq first n) all_articles urls = (r, urls') ->
  exists k,
    k <= n /\ (0 < n -> 0 < k) /\
    urls' = urls ++ map page_url (seq first k) /\
    (forall p, first <= p < first + k - 1 -> stops web p = false) /\
    (k < n -> stops web (first + k - 1) = true) /\
    match r with
    | inl message =>
        0 < k /\ get web (page_url (first + k - 1)) = RequestException message
    | inr articles =>
        articles = all_articles ++ flat_map (page_articles web) (seq first k) /\
        forall p, first <= p < first + k -> ~ failed web p
    end.
Proof.
  induction n as [|n IH]; intros first all_articles urls r urls' H.
  - injection H as <- <-. exists 0. repeat split; try lia.
    + simpl. rewrite app_nil_r. reflexivity.
    + simpl. rewrite app_nil_r. reflexivity.
  - cbn [seq pages_loop] in H.
    destruct (get web (page_url first)) as [message|[|card cards]] eqn:E.
    + injection H as <- <-. exists 1. repeat split; try lia.
      * intros _. unfold stops. replace (first + 1 - 1) with first by lia.
        rewrite E. reflexivity.
      * replace (first + 1 - 1) with first by lia. exact E.
    + injection H as <- <-. exists 1. repeat split; try lia.
      * intros _. unfold stops. replace (first + 1 - 1) with first by lia.
        rewrite E. reflexivity.
      * simpl. unfold page_articles. rewrite E. simpl. rewrite app_nil_r.
        reflexivity.
      * intros p Hp [message Hm]. replace p with first in Hm by lia.
        rewrite E in Hm. discriminate.
    + apply IH in H. destruct H as (k & K1 & K2 & -> & K4 & K5 & K6).
      assert (Hs : stops web first = false) by (unfold stops; rewrite E; reflexivity).
      exists (S k). split; [lia|]. split; [lia|]. split; [|split; [|split]].
      * simpl. rewrite <- app_assoc. reflexivity.
      * intros p Hp. destruct (decide (p = first)) as [->|]; [exact Hs|].
        apply K4. lia.
      * intros Hk. assert (0 < k) by (apply K2; lia).
        replace (first + S k - 1) with (S first + k - 1) by lia.
        apply K5. lia.
      * destruct r as [message|articles].
        -- destruct K6 as [Kpos K6]. split; [lia|].
           replace (first + S k - 1) with (S first + k - 1) by lia. exact K6.
        -- destruct K6 as [-> K6]. split.
           ++ rewrite cards_loop_app. simpl. unfold page_articles at 2.
              rewrite E, <- app_assoc. reflexivity.
           ++ intros p Hp. destruct (decide (p = first)) as [->|].
              ** intros [message Hm]. rewrite E in Hm. discriminate.
              ** apply K6. lia.
Qed.

End ScrapingFacts.

Module ScrapingExamples.
Import Scraping.

Definition full_card : Card :=
  mkCard (Some (mkAnchor (Some "/stiri/1") (Some (Some "/img/1.png"))))
    (Some (Some "  Vaccin sigur "))
    (Some " studiu nou ")
    (Some (mkAuthorInfo (Some "Ana") None)).

Definition untitled_card : Card :=
  mkCard (Some (mkAnchor None None)) None (Some "text") None.

(** [str(KeyError('trust_level'))] *)
Definition str_of (e : exn) : string :=
  match e with
  | KeyError => "'trust_level'"
  | _ => "error"
  end.

(** A site with one page of cards: the second page is empty. *)
Definition one_page : Web :=
  mkWeb (fun url => if String.eqb url base_url
                    then Html [full_card; untitled_card] else Html [])
    None str_of.

(** A configuration that lists the source without a trust level. *)
Definition unleveled_file : TrustedSources.config_read :=
  TrustedSources.Parsed (Json.JObject {[ "veridica" := Json.JObject ∅ ]}).

Definition one_page_run : Run :=
  match scrape_source Examples.veridica_file one_page "veridica" with
  | Ok run => run
  | Raise _ => mkRun (ScrapeError "") [] None
  end.

Definition unleveled_run : Run :=
  match scrape_source unleveled_file one_page "veridica" with
  | Ok run => run
  | Raise _ => mkRun (ScrapeError "") [] None
  end.

End ScrapingExamples.

Lemma scrape_source_known file web source_name sources run :
  load_trusted_sources file = Ok sources ->
  Json.contains sources source_name = Ok true ->
  Scraping.scrape_source file web source_name = Ok run ->
  exists source r urls,
    Json.subscript sources source_name = Ok source /\
    Scraping.pages_loop web (seq 1 14) [] [] = (r, urls) /\
    Scraping.requested run = urls /\
    match r with
    | inl message =>
        run = Scraping.mkRun
                (Scraping.ScrapeError ("Error fetching data: " +:+ message))
                urls None
    | inr articles =>
        match Scraping.open_error web with
        | Some message =>
            run = Scraping.mkRun
                    (Scraping.ScrapeError ("Error processing data: " +:+ message))
                    urls None
        | None =>
            match Json.subscript source "trust_level" with
            | Ok trust =>
                run = Scraping.mkRun
                        (Scraping.Scraped source_name Scraping.base_url trust
                           articles)
                        urls (Some articles)
            | Raise e =>
                run = Scraping.mkRun
                        (Scraping.ScrapeError
                           ("Error processing data: "
                            +:+ Scraping.str_exception web e))
                        urls (Some articles)
            end
        end
    end.
Proof.
  intros Hl Hc. unfold Scraping.scrape_source. rewrite Hl.
  unfold mbind, result_bind. rewrite Hc. cbn [negb].
  destruct (Json.subscript sources source_name) as [source|e]; [|discriminate].
  destruct (Scraping.pages_loop web (seq 1 14) [] []) as [[message|articles] urls].
  - intros [= <-]. exists source, (inl message), urls. auto.
  - destruct (Scraping.open_error web) as [message|] eqn:E.
    + intros [= <-]. exists source, (inr articles), urls. auto.
    + destruct (Json.subscript source "trust_level") as [trust|e] eqn:Et;
        intros [= <-]; exists source, (inr articles), urls; rewrite Et; auto.
Qed.

(** For a listed source the pages are requested in order from the first:
    between one and fourteen requests (the fifteenth page is never asked
    for), each page before the last one requested answered with cards, and
    the run stops before page 14 only at a page whose request fails or
    that has no card. *)
Theorem scrape_source_requests file web source_name sources run :
  load_trusted_sources file = Ok sources ->
  Json.contains sources source_name = Ok true ->
  Scraping.scrape_source file web source_name = Ok run ->
  exists k,
    1 <= k <= 14 /\
    Scraping.requested run = map Scraping.page_url (seq 1 k) /\
    (forall p, 1 <= p < k ->
       exists card cards,
         Scraping.get web (Scraping.page_url p) = Scraping.Html (card :: cards)) /\
    (k < 14 ->
     Scraping.get web (Scraping.page_url k) = Scraping.Html [] \/
     exists message,
       Scraping.get web (Scraping.page_url k) = Scraping.RequestException message).
Proof.
  intros Hl Hs Hrun.
  destruct (scrape_source_known _ _ _ _ _ Hl Hs Hrun)
    as (source & r & urls & _ & Hp & Hreq & _).
  apply ScrapingFacts.pages_loop_inv in Hp.
  destruct Hp as (k & K1 & K2 & K3 & K4 & K5 & _).
  exists k. split; [lia|]. split; [rewrite Hreq, K3; reflexivity|]. split.
  - intros p Hp. specialize (K4 p ltac:(lia)). unfold ScrapingFacts.stops in K4.
    destruct (Scraping.get web (Scraping.page_url p)) as [|[|card cards]];
      try discriminate. eauto.
  - intros Hk. specialize (K5 Hk). replace (1 + k - 1) with k in K5 by lia.
    unfold ScrapingFacts.stops in K5.
    destruct (Scraping.get web (Scraping.page_url k)) as [message|[|card cards]];
      try discriminate; eauto.
Qed.

Lemma scrape_source_requests_witness :
  exists k,
    1 <= k <= 14 /\
    Scraping.requested ScrapingExamples.one_page_run
    = map Scraping.page_url (seq 1 k) /\
    (forall p, 1 <= p < k ->
       exists card cards,
         Scraping.get ScrapingExamples.one_page (Scraping.page_url p)
         = Scraping.Html (card :: cards)) /\
    (k < 14 ->
     Scraping.get ScrapingExamples.one_page (Scraping.page_url k) = Scraping.Html [] \/
     exists message,
       Scraping.get ScrapingExamples.one_page (Scraping.page_url k)
       = Scraping.RequestException message).
Proof.
  apply (scrape_source_requests veridica_file ScrapingExamples.one_page "veridica"
           (Json.JObject {[ "veridica" := trusted 0.9 ]})
           ScrapingExamples.one_page_run).
  - reflexivity.
  - vm_compute. reflexivity.
  - vm_compute. reflexivity.
Defined.

(** What a run leaves on disk. When it succeeds, every page requested was
    fetched, the articles are those of the cards of these pages in order,
    the same list is written to articles.json, and the trust level
    returned is the one the configuration gives the source. When a request
    fails or the file cannot be opened, the result is an error and nothing
    is written: the articles of the pages fetched before are dropped. When
    the entry of the source has no trust level, the result is an error too,
    but the file has been written by then. *)
Theorem scrape_source_written file web source_name sources run :
  load_trusted_sources file = Ok sources ->
  Json.contains sources source_name = Ok true ->
  Scraping.scrape_source file web source_name = Ok run ->
  exists source,
    Json.subscript sources source_name = Ok source /\
    match Scraping.outcome run with
    | Scraping.Scraped name url trust articles =>
        name = source_name /\ url = Scraping.base_url /\
        Json.subscript source "trust_level" = Ok trust /\
        Scraping.written run = Some articles /\
        Scraping.open_error web = None /\
        exists k,
          Scraping.requested run = map Scraping.page_url (seq 1 k) /\
          articles = flat_map (ScrapingFacts.page_articles web) (seq 1 k) /\
          forall p, 1 <= p <= k -> ~ ScrapingFacts.failed web p
    | Scraping.ScrapeError _ =>
        (Scraping.written run = None /\
         (Scraping.open_error web <> None \/
          exists p, 1 <= p <= 14 /\ ScrapingFacts.failed web p /\
                    last (Scraping.requested run) = Some (Scraping.page_url p)))
        \/
        (exists e k,
           Json.subscript source "trust_level" = Raise e /\
           Scraping.open_error web = None /\
           Scraping.requested run = map Scraping.page_url (seq 1 k) /\
           Scraping.written run
           = Some (flat_map (ScrapingFacts.page_articles web) (seq 1 k)) /\
           forall p, 1 <= p <= k -> ~ ScrapingFacts.failed web p)
    end.
Proof.
  intros Hl Hs Hrun.
  destruct (scrape_source_known _ _ _ _ _ Hl Hs Hrun)
    as (source & r & urls & Hsrc & Hp & Hreq & Hr).
  exists source. split; [exact Hsrc|].
  apply ScrapingFacts.pages_loop_inv in Hp.
  destruct Hp as (k & K1 & K2 & K3 & K4 & K5 & K6). simpl in K3.
  destruct r as [message|articles].
  - subst run. simpl. left. split; [reflexivity|]. right.
    destruct K6 as [Kpos K6]. exists k. replace (1 + k - 1) with k in K6 by lia.
    split; [lia|]. split; [exists message; exact K6|].
    rewrite K3. destruct k as [|k]; [lia|].
    rewrite seq_S, map_app. simpl. apply last_snoc.
  - destruct (Scraping.open_error web) as [message|] eqn:E.
    + subst run. simpl. left. split; [reflexivity|]. left. discriminate.
    + destruct K6 as [-> K6].
      destruct (Json.subscript source "trust_level") as [trust|e] eqn:Et;
        subst run; simpl.
      * repeat split. exists k. split; [exact K3|]. split; [reflexivity|].
        intros p Hp. apply K6. lia.
      * right. exists e, k. repeat split; [exact K3|].
        intros p Hp. apply K6. lia.
Qed.

Lemma scrape_source_written_witness :
  exists source,
    Json.subscript (Json.JObject {[ "veridica" := Json.JObject ∅ ]}) "veridica"
    = Ok source /\
    match Scraping.outcome ScrapingExamples.unleveled_run with
    | Scraping.Scraped name url trust articles =>
        name = "veridica" /\ url = Scraping.base_url /\
        Json.subscript source "trust_level" = Ok trust /\
        Scraping.written ScrapingExamples.unleveled_run = Some articles /\
        Scraping.open_error ScrapingExamples.one_page = None /\
        exists k,
          Scraping.requested ScrapingExamples.unleveled_run
          = map Scraping.page_url (seq 1 k) /\
          articles = flat_map (ScrapingFacts.page_articles ScrapingExamples.one_page)
                       (seq 1 k) /\
          forall p, 1 <= p <= k -> ~ ScrapingFacts.failed ScrapingExamples.one_page p
    | Scraping.ScrapeError _ =>
        (Scraping.written ScrapingExamples.unleveled_run = None /\
         (Scraping.open_error ScrapingExamples.one_page <> None \/
          exists p, 1 <= p <= 14 /\ ScrapingFacts.failed ScrapingExamples.one_page p /\
                    last (Scraping.requested ScrapingExamples.unleveled_run)
                    = Some (Scraping.page_url p)))
        \/
        (exists e k,
           Json.subscript source "trust_level" = Raise e /\
           Scraping.open_error ScrapingExamples.one_page = None /\
           Scraping.requested ScrapingExamples.unleveled_run
           = map Scraping.page_url (seq 1 k) /\
           Scraping.written ScrapingExamples.unleveled_run
           = Some (flat_map (ScrapingFacts.page_articles ScrapingExamples.one_page)
                     (seq 1 k)) /\
           forall p, 1 <= p <= k -> ~ ScrapingFacts.failed ScrapingExamples.one_page p)
    end.
Proof.
  apply (scrape_source_written ScrapingExamples.unleveled_file
           ScrapingExamples.one_page "veridica"
           (Json.JObject {[ "veridica" := Json.JObject ∅ ]})
           ScrapingExamples.unleveled_run).
  - reflexivity.
  - vm_compute. reflexivity.
  - vm_compute. reflexivity.
Defined.

(** A card gives an article exactly when it has a link and a title
    heading; the title, description, author and date of the article have no
    blank at either end. *)
Theorem card_article_spec card :
  (Scraping.card_article card = None <->
   Scraping.card_anchor card = None \/ Scraping.card_title card = None) /\
  forall a,
    Scraping.card_article card = Some a ->
    Scraping.strip (title a) = title a /\
    Scraping.strip (description a) = description a /\
    Scraping.strip (author a) = author a /\
    Scraping.strip (date a) = date a.
Proof.
  unfold Scraping.card_article.
  destruct (Scraping.card_anchor card) as [anchor|];
    [|split; [tauto|discriminate]].
  destruct (Scraping.card_title card) as [title_elem|];
    [|split; [tauto|discriminate]].
  split; [split; [discriminate|intros [|]; discriminate]|].
  intros a [= <-]. simpl.
  repeat split; try apply ScrapingFacts.text_or_empty_stripped;
    destruct (Scraping.card_author card);
    try apply ScrapingFacts.text_or_empty_stripped; reflexivity.
Qed.

Module ScraperFacts.
Import Scraping Scraper.

Lemma app_inv_tail_str s : forall a b, a +:+ s = b +:+ s -> a = b.
Proof.
  assert (Hlen : forall x y, String.length (x +:+ y) = String.length x + String.length y).
  { induction x as [|c x IH]; intros y; [reflexivity|].
    rewrite TextFacts.app_cons. simpl. rewrite IH. reflexivity. }
  induction a as [|c a IH]; intros b H.
  - destruct b as [|d b]; [reflexivity|]. exfalso.
    apply (f_equal String.length) in H. rewrite !Hlen in H. simpl in H. lia.
  - destruct b as [|d b].
    + exfalso. apply (f_equal String.length) in H. rewrite !Hlen in H.
      simpl in H. lia.
    + rewrite !TextFacts.app_cons in H. injection H as -> H.
      rewrite (IH b H). reflexivity.
Qed.

Lemma path_join_inj dir1 dir2 name :
  path_join dir1 name = path_join dir2 name -> dir1 = dir2.
Proof.
  unfold path_join. intros H. eapply app_inv_tail_str. exact H.
Qed.

(** The articles appended by the loop carry the readings of the clock in
    order, starting from the number of articles already there. *)
Lemma cards_loop_spec site cards : forall articles,
  exists new,
    cards_loop site cards articles = articles ++ new /\
    length new <= length cards /\
    Forall (fun a => source a = "veridica" /\
                     strip (title a) = title a /\
                     strip (description a) = description a) new /\
    forall i a, new !! i = Some a -> scraped_at a = now site (length articles + i).
Proof.
  induction cards as [|card cards IH]; intros articles.
  - exists []. simpl. rewrite app_nil_r. repeat split; [lia|constructor|].
    intros i a H. destruct i; discriminate H.
  - cbn [cards_loop].
    destruct (card_scraped card (now site (length articles))) as [a0|] eqn:E.
    + destruct (IH (articles ++ [a0])) as (new & -> & Hl & HF & Ht).
      exists (a0 :: new). rewrite <- app_assoc. split; [reflexivity|].
      assert (Ha0 : source a0 = "veridica" /\ strip (title a0) = title a0 /\
                    strip (description a0) = description a0 /\
                    scraped_at a0 = now site (length articles)).
      { unfold card_scraped in E.
        destruct (card_anchor card); [|discriminate].
        destruct (card_title card); [|discriminate].
        injection E as <-. simpl.
        repeat split; apply ScrapingFacts.text_or_empty_stripped. }
      split; [simpl; lia|]. split; [constructor; tauto|].
      intros i a H. destruct i as [|i].
      * injection H as <-. rewrite Nat.add_0_r. tauto.
      * simpl in H. rewrite (Ht i a H), length_app. simpl. f_equal. lia.
    + destruct (IH articles) as (new & -> & Hl & HF & Ht).
      exists new. repeat split; try assumption. simpl. lia.
Qed.

End ScraperFacts.

Module ScraperExamples.
Import Scraping Scraper.

Definition site : Site :=
  mkSite (Html [ScrapingExamples.full_card; ScrapingExamples.untitled_card;
                ScrapingExamples.full_card])
    (fun n => "2025-01-01T00:00:0" +:+ pretty n).

(** Run from the directory of the module, and from another one. *)
Definition at_home : Fs := mkFs "/app/logic" "/app/logic" ∅ ∅.
Definition elsewhere : Fs :=
  mkFs "/app" "/app/logic"
    {[ "/app/logic/result.json" := Articles [] ]} ∅.

End ScraperExamples.

(** [scrape_veridica] raises nothing: a failed request gives the empty
    list. Otherwise there is at most one article for each card, every
    article has source 'veridica' and a title and description without
    blanks at the ends, and the article at position [i] carries the
    reading number [i] of the clock. *)
Theorem scrape_veridica_articles site :
  (forall message, Scraper.fetch site = Scraping.RequestException message ->
                   Scraper.scrape_veridica site = []) /\
  (forall cards, Scraper.fetch site = Scraping.Html cards ->
                 length (Scraper.scrape_veridica site) <= length cards) /\
  Forall (fun a => Scraper.source a = "veridica" /\
                   Scraping.strip (Scraper.title a) = Scraper.title a /\
                   Scraping.strip (Scraper.description a) = Scraper.description a)
    (Scraper.scrape_veridica site) /\
  forall i a, Scraper.scrape_veridica site !! i = Some a ->
              Scraper.scraped_at a = Scraper.now site i.
Proof.
  unfold Scraper.scrape_veridica.
  destruct (Scraper.fetch site) as [message|cards].
  - repeat split; try discriminate; try constructor.
  - destruct (ScraperFacts.cards_loop_spec site cards []) as (new & -> & Hl & HF & Ht).
    simpl. split; [discriminate|]. split; [intros ? [= <-]; exact Hl|].
    split; [exact HF|]. intros i a H. exact (Ht i a H).
Qed.

(** What [save_articles] writes is what [load_articles] reads back when the
    program runs from the directory of the module and result.json can be
    opened for writing. *)
Theorem save_then_load fs articles :
  Scraper.cwd fs = Scraper.current_dir fs ->
  Scraper.path_join (Scraper.cwd fs) "result.json" ∉ Scraper.unwritable fs ->
  Scraper.load_articles (Scraper.save_articles fs articles) = articles.
Proof.
  intros Hd Hw. unfold Scraper.save_articles.
  rewrite bool_decide_eq_false_2 by exact Hw.
  unfold Scraper.load_articles, Scraper.results_file. simpl.
  rewrite <- Hd, lookup_insert_eq. reflexivity.
Qed.

Lemma save_then_load_witness :
  Scraper.load_articles
    (Scraper.save_articles ScraperExamples.at_home
       (Scraper.scrape_veridica ScraperExamples.site))
  = Scraper.scrape_veridica ScraperExamples.site.
Proof.
  apply (save_then_load ScraperExamples.at_home).
  - reflexivity.
  - vm_compute. intros H. inversion H.
Defined.

(** [save_articles] writes result.json in the working directory and
    [load_articles] reads the one beside the module: run from any other
    directory, saving does not change what loading returns. *)
Theorem save_elsewhere_not_loaded fs articles :
  Scraper.cwd fs <> Scraper.current_dir fs ->
  Scraper.load_articles (Scraper.save_articles fs articles)
  = Scraper.load_articles fs.
Proof.
  intros Hd. unfold Scraper.save_articles.
  destruct (bool_decide _); [reflexivity|].
  unfold Scraper.load_articles, Scraper.results_file. simpl.
  rewrite lookup_insert_ne; [reflexivity|].
  intros H. apply ScraperFacts.path_join_inj in H. contradiction.
Qed.

Lemma save_elsewhere_not_loaded_witness :
  Scraper.load_articles
    (Scraper.save_articles ScraperExamples.elsewhere
       (Scraper.scrape_veridica ScraperExamples.site))
  = Scraper.load_articles ScraperExamples.elsewhere.
Proof.
  apply (save_elsewhere_not_loaded ScraperExamples.elsewhere).
  discriminate.
Defined.

(** After [update_articles], run from the directory of the module with
    result.json writable, [load_articles] returns the articles just
    scraped, provided there is at least one. *)
Theorem update_then_load site fs :
  Scraper.cwd fs = Scraper.current_dir fs ->
  Scraper.path_join (Scraper.cwd fs) "result.json" ∉ Scraper.unwritable fs ->
  Scraper.scrape_veridica site <> [] ->
  Scraper.load_articles (Scraper.update_articles site fs)
  = Scraper.scrape_veridica site.
Proof.
  intros Hd Hw Hne. unfold Scraper.update_articles.
  destruct (Scraper.scrape_veridica site) as [|a new] eqn:E; [contradiction|].
  unfold Scraper.save_articles. rewrite bool_decide_eq_false_2 by exact Hw.
  unfold Scraper.load_articles, Scraper.results_file. simpl.
  rewrite <- Hd, lookup_insert_eq. reflexivity.
Qed.

Lemma update_then_load_witness :
  Scraper.load_articles
    (Scraper.update_articles ScraperExamples.site ScraperExamples.at_home)
  = Scraper.scrape_veridica ScraperExamples.site.
Proof.
  apply (update_then_load ScraperExamples.site ScraperExamples.at_home).
  - reflexivity.
  - vm_compute. intros H. inversion H.
  - vm_compute. discriminate.
Defined.

